(** * ContextPile: the URL-to-Markdown processing routes

    A shallow embedding of the request handlers of the repository
    (the [/api/processor] route with its structured extractors, the
    authenticated [/api/process] route with persistence, the transcript
    continuation route and the first, image-preserving version of the
    processing route) together with the properties the specification states
    about them, followed by the single-phase and local routes and the state
    handlers of the two client pages with properties of their own.

    Conventions.
    - JavaScript strings are [string]s whose characters are the code units
      below 256; [trim] strips the white space representable there.
    - A number is an IEEE 754 double, given by the rational it stands for;
      a division rounds to the nearest double, ties to even ([Number]).
    - Code that can throw lives in the [exc] monad; [try_catch] is the
      [try { ... } catch { ... }] of the source, and a loop is [for_of] over
      its variables.
    - A JavaScript [Set] is a [gset], an object used as a map and a table
      of the store are [gmap]s.
    - Third-party libraries and the platform (the WHATWG [URL] parser,
      Readability, Turndown, DOMPurify, the HTML parser, the network) are
      the fields of the class [Platform]; what a request sees of the session,
      the store's availability and the video services is a [World]. Every
      theorem holds for all of them. *)

From Stdlib Require Import QArith Qround Qpower Lqa.
From Stdlib Require Import Strings.String Strings.Ascii NArith ZArith Lia DecimalString.
From stdpp Require Import gmap strings list.

(** ** JavaScript strings *)

Module JS.

(** [s.startsWith(pat)] *)
Fixpoint startsWith (s pat : string) : bool :=
  match pat, s with
  | EmptyString, _ => true
  | String _ _, EmptyString => false
  | String p pat', String c s' => Ascii.eqb c p && startsWith s' pat'
  end.

(** [s.includes(pat)] *)
Fixpoint includes (s pat : string) : bool :=
  startsWith s pat ||
  match s with
  | EmptyString => false
  | String _ s' => includes s' pat
  end.

(** [s.slice(n)] *)
Fixpoint slice (n : nat) (s : string) : string :=
  match n, s with
  | O, _ => s
  | S _, EmptyString => EmptyString
  | S n', String _ s' => slice n' s'
  end.

(** [s.replace(pat, rep)] with a string pattern: the first occurrence only.
    [rep] is inserted as it is, which is what JavaScript does for a
    replacement without [$]; the routes only ever pass the empty string. *)
Fixpoint replace (s pat rep : string) : string :=
  if startsWith s pat then rep +:+ slice (String.length pat) s
  else match s with
       | EmptyString => EmptyString
       | String c s' => String c (replace s' pat rep)
       end.

(** White space in the sense of [String.prototype.trim], among the code
    units below 256: TAB, LF, VT, FF, CR, SPACE and NBSP. *)
Definition isWhiteSpace (c : ascii) : bool :=
  let n := nat_of_ascii c in
  (Nat.leb 9 n && Nat.leb n 13) || Nat.eqb n 32 || Nat.eqb n 160.

Fixpoint trimStart (s : string) : string :=
  match s with
  | EmptyString => EmptyString
  | String c s' => if isWhiteSpace c then trimStart s' else s
  end.

Fixpoint trimEnd (s : string) : string :=
  match s with
  | EmptyString => EmptyString
  | String c s' =>
      match trimEnd s' with
      | EmptyString => if isWhiteSpace c then EmptyString else String c EmptyString
      | t => String c t
      end
  end.

(** [s.trim()] *)
Definition trim (s : string) : string := trimEnd (trimStart s).

(** Truthiness of a string: [!!s]. *)
Definition truthy (s : string) : bool :=
  match s with
  | EmptyString => false
  | String _ _ => true
  end.

(** [a || b] on strings. *)
Definition or_else (a b : string) : string := if truthy a then a else b.

(** [a || b] where [a] may be [null] or [undefined]. *)
Definition opt_or (a : option string) (b : string) : string :=
  match a with
  | Some s => or_else s b
  | None => b
  end.

Fixpoint repeat_char (c : ascii) (n : nat) : string :=
  match n with
  | O => EmptyString
  | S n' => String c (repeat_char c n')
  end.

(** [s.padStart(n, c)] for a one-character filler. *)
Definition padStart (s : string) (n : nat) (c : ascii) : string :=
  repeat_char c (n - String.length s) +:+ s.


(** [n.toString()] for a non-negative integer. *)
Definition toString (n : N) : string := NilZero.string_of_uint (N.to_uint n).

(** [s.split(/\s+/).filter(word => word.length > 0).length]: the number of
    maximal runs of characters that are not white space. *)
Fixpoint count_words (inside : bool) (s : string) : nat :=
  match s with
  | EmptyString => 0
  | String c s' =>
      if isWhiteSpace c then count_words false s'
      else (if inside then 0 else 1) + count_words true s'
  end.

(** Whether the character [c] occurs in [s]. *)
Fixpoint has_char (c : ascii) (s : string) : bool :=
  match s with
  | EmptyString => false
  | String x s' => Ascii.eqb x c || has_char c s'
  end.

(** Whether [c] is the last character of [p]. *)
Fixpoint ends_with (p : string) (c : ascii) : bool :=
  match p with
  | EmptyString => false
  | String x EmptyString => Ascii.eqb x c
  | String _ p' => ends_with p' c
  end.

(** [arr.join('')] *)
Fixpoint join (l : list string) : string :=
  match l with
  | [] => EmptyString
  | s :: l' => s +:+ join l'
  end.

End JS.

(** ** JavaScript numbers

    What the routes do with a number: divide by a constant, take the
    remainder by a constant, round down and print. A finite double is the
    rational it stands for; a quotient is rounded to the nearest double,
    ties to even, and a remainder is a double as it is. *)

Module Number.

(** A number: a finite double by its value, [NaN], or an infinity. The two
    zeros are one value; they print alike. *)
Inductive number : Type :=
| Finite (q : Q)
| NaN
| Infinity (negative : bool).

(** The result of [Math.floor]: an integer, or what was not finite. *)
Inductive floored : Type :=
| Integer (z : Z)
| NotANumber
| Infinite (negative : bool).

Definition pow2 (e : Z) : Q := Qpower 2%Q e.

(** The exponent of a positive value: [pow2 e <= q < pow2 (e + 1)]. *)
Definition ilog2 (q : Q) : Z :=
  let e := (Z.log2 (Qnum q) - Z.log2 (Zpos (Qden q)))%Z in
  if Qle_bool (pow2 e) q then e else (e - 1)%Z.

(** The nearest integer, the even one of two that are equally near. *)
Definition round_half_even (q : Q) : Z :=
  let f := Qfloor q in
  match Qcompare (q - inject_Z f)%Q (1 # 2)%Q with
  | Lt => f
  | Gt => (f + 1)%Z
  | Eq => if Z.even f then f else (f + 1)%Z
  end.

(** The doubles around a positive value are the multiples of
    [pow2 (quantum q)]: 53 significant bits, and steps of [pow2 (-1074)]
    below [pow2 (-1022)]. *)
Definition quantum (q : Q) : Z := Z.max (ilog2 q - 52) (-1074).

(** The multiple nearest to a positive value. *)
Definition nearest (q : Q) : Q :=
  (inject_Z (round_half_even (q / pow2 (quantum q))) * pow2 (quantum q))%Q.

(** The double nearest to a positive value; there is none from
    [pow2 1024] on. *)
Definition round_positive (q : Q) : option Q :=
  let r := nearest q in
  if Qle_bool (pow2 1024) r then None else Some (Qred r).


(** The double nearest to a value (round to nearest, ties to even). *)
Definition round64 (q : Q) : number :=
  match Qcompare q 0%Q with
  | Eq => Finite 0%Q
  | Gt => match round_positive q with
          | Some r => Finite r
          | None => Infinity false
          end
  | Lt => match round_positive (- q)%Q with
          | Some r => Finite (- r)%Q
          | None => Infinity true
          end
  end.

(** [x / d] for a divisor that is finite and positive. *)
Definition div (x : number) (d : Q) : number :=
  match x with
  | Finite q => round64 (q / d)%Q
  | NaN => NaN
  | Infinity negative => Infinity negative
  end.

(** The integer part, towards zero. *)
Definition truncate (q : Q) : Z :=
  if Qle_bool 0%Q q then Qfloor q else Qceiling q.

(** [x % d] for a divisor that is finite and positive: the remainder has
    the sign of [x] and is a double as it is. *)
Definition rem (x : number) (d : Q) : number :=
  match x with
  | Finite q => Finite (q - d * inject_Z (truncate (q / d)))%Q
  | NaN => NaN
  | Infinity _ => NaN
  end.

(** [Math.floor(x)] *)
Definition floor (x : number) : floored :=
  match x with
  | Finite q => Integer (Qfloor q)
  | NaN => NotANumber
  | Infinity negative => Infinite negative
  end.

(** Whether the digits of [v] are read back as the double [a]. *)
Definition rounds_to (a v : N) : bool :=
  match round64 (inject_Z (Z.of_N v)) with
  | Finite r => Qeq_bool r (inject_Z (Z.of_N a))
  | _ => false
  end.

(** The multiple of [10 ^ j] that is read back as [a], if there is one:
    of the two around [a] the nearer, of two equally near the one with the
    even last digit. *)
Definition candidate (a : N) (j : N) : option N :=
  let p := (10 ^ j)%N in
  let lo := (a / p * p)%N in
  let hi := (lo + p)%N in
  match rounds_to a lo, rounds_to a hi with
  | true, true =>
      match N.compare (a - lo) (hi - a) with
      | Lt => Some lo
      | Gt => Some hi
      | Eq => if N.even (a / p) then Some lo else Some hi
      end
  | true, false => Some lo
  | false, true => Some hi
  | false, false => None
  end.

(** The number with the fewest significant digits that is read back as
    the double [a]. *)
Fixpoint shortest (a : N) (j : nat) : N :=
  match j with
  | O => a
  | S j' => match candidate a (N.of_nat j) with
            | Some v => v
            | None => shortest a j'
            end
  end.

Fixpoint strip_zeros (digits : list ascii) : list ascii :=
  match digits with
  | [] => []
  | d :: rest =>
      match strip_zeros rest with
      | [] => if Ascii.eqb d "0" then [] else [d]
      | rest' => d :: rest'
      end
  end.

(** The digits of a number of 22 digits or more: the significant digits
    with a point after the first, and the exponent. *)
Definition exponential (v : N) : string :=
  let digits := list_ascii_of_string (JS.toString v) in
  let e := JS.toString (N.of_nat (length digits - 1)) in
  match strip_zeros digits with
  | [] => "0"
  | [d] => String d ("e+" +:+ e)
  | d :: more => String d ("." +:+ string_of_list_ascii more +:+ "e+" +:+ e)
  end.

(** The digits of a natural number that is a double: its own below
    [2 ^ 53], where every natural number is a double, and above the
    shortest ones that are read back as it, followed by zeros or, from
    [10 ^ 21] on, by the exponent. *)
Definition digits (a : N) : string :=
  if (a <? 2 ^ 53)%N then JS.toString a
  else
    let v := shortest a (String.length (JS.toString a) - 1) in
    if (v <? 10 ^ 21)%N then JS.toString v else exponential v.

(** [x.toString()] for the result of [Math.floor]. *)
Definition toString (x : floored) : string :=
  match x with
  | Integer z => (if (z <? 0)%Z then "-" else "") +:+ digits (Z.abs_N z)
  | NotANumber => "NaN"
  | Infinite negative => if negative then "-Infinity" else "Infinity"
  end.

End Number.

(** ** Exceptions *)

Inductive exc (A : Type) : Type :=
| Ret (a : A)
| Throw (message : string).

Arguments Ret {A} a.
Arguments Throw {A} message.

#[global] Instance exc_ret : MRet exc := fun A a => Ret a.

#[global] Instance exc_bind : MBind exc := fun A B k m =>
  match m with
  | Ret a => k a
  | Throw e => Throw e
  end.

(** [try { body } catch (e) { handler }] *)
Definition try_catch {A : Type} (body : exc A) (handler : string -> exc A) : exc A :=
  match body with
  | Ret a => Ret a
  | Throw e => handler e
  end.

(** What one turn of a loop body asks for: go on with the next element
    ([continue], or falling off the end of the body) or leave the loop
    ([break]). *)
Inductive Flow (S : Type) : Type :=
| Continue (st : S)
| Break (st : S).

Arguments Continue {S} st.
Arguments Break {S} st.

(** [for (const el of els) { body }] over the loop's variables [st]. *)
Fixpoint for_of {S E : Type} (body : S -> E -> exc (Flow S)) (st : S) (els : list E)
  : exc S :=
  match els with
  | [] => Ret st
  | el :: rest =>
      match body st el with
      | Throw e => Throw e
      | Ret (Break st') => Ret st'
      | Ret (Continue st') => for_of body st' rest
      end
  end.

(** ** The DOM *)

Module DOM.

(** A parsed HTML tree: text nodes and elements. [localName] is the tag in
    lower case, as the HTML parser leaves it. *)
#[warnings="-register-all"] Inductive Node : Type :=
| Text (data : string)
| Element (localName : string) (attributes : list (string * string))
          (childNodes : list Node).

(** The descendants of a node in document (pre-) order. *)
Fixpoint descendants (n : Node) : list Node :=
  match n with
  | Text _ => []
  | Element _ _ cs =>
      (fix go (l : list Node) : list Node :=
         match l with
         | [] => []
         | c :: l' => (c :: descendants c) ++ go l'
         end) cs
  end.

(** [node.textContent] *)
Fixpoint textContent (n : Node) : string :=
  match n with
  | Text d => d
  | Element _ _ cs =>
      (fix go (l : list Node) : string :=
         match l with
         | [] => EmptyString
         | c :: l' => textContent c +:+ go l'
         end) cs
  end.

Fixpoint lookup_attr (name : string) (attrs : list (string * string)) : option string :=
  match attrs with
  | [] => None
  | (k, v) :: rest => if String.eqb k name then Some v else lookup_attr name rest
  end.

(** [el.getAttribute(name)]: [None] is JavaScript's [null]. *)
Definition getAttribute (n : Node) (name : string) : option string :=
  match n with
  | Text _ => None
  | Element _ attrs _ => lookup_attr name attrs
  end.

(** ASCII white space in the sense of HTML: TAB, LF, FF, CR and SPACE. *)
Definition isAsciiWhitespace (c : ascii) : bool :=
  let n := nat_of_ascii c in
  Nat.eqb n 9 || Nat.eqb n 10 || Nat.eqb n 12 || Nat.eqb n 13 || Nat.eqb n 32.

(** The white-space separated tokens of an attribute value. *)
Fixpoint tokens_from (cur : string) (s : string) : list string :=
  match s with
  | EmptyString => if JS.truthy cur then [cur] else []
  | String c s' =>
      if isAsciiWhitespace c
      then (if JS.truthy cur then [cur] else []) ++ tokens_from EmptyString s'
      else tokens_from (cur +:+ String c EmptyString) s'
  end.

Definition classList (n : Node) : list string :=
  match getAttribute n "class" with
  | Some v => tokens_from EmptyString v
  | None => []
  end.

(** The simple selectors the extractors use: [tag], [.class], [#id] and
    [tag[attr]]. *)
Inductive Simple : Type :=
| ByTag (tag : string)
| ByClass (cls : string)
| ById (id : string)
| ByTagAttr (tag attr : string).

Definition has_tag (tag : string) (n : Node) : bool :=
  match n with
  | Text _ => false
  | Element t _ _ => String.eqb t tag
  end.

Definition matches (sel : Simple) (n : Node) : bool :=
  match sel with
  | ByTag tag => has_tag tag n
  | ByClass cls => existsb (String.eqb cls) (classList n)
  | ById id =>
      match getAttribute n "id" with
      | Some v => String.eqb v id
      | None => false
      end
  | ByTagAttr tag attr =>
      has_tag tag n &&
      match getAttribute n attr with
      | Some _ => true
      | None => false
      end
  end.

(** [el.querySelectorAll(sel)] for a simple selector: the matching
    descendants of [el], in document order. *)
Definition querySelectorAll (root : Node) (sel : Simple) : list Node :=
  List.filter (matches sel) (descendants root).

(** [el.querySelector(sel)]: the first match, or [null]. *)
Definition querySelector (root : Node) (sel : Simple) : option Node :=
  head (querySelectorAll root sel).

(** A selector with descendant combinators, [s1 s2 ... sk], outermost
    first. [select n sel] lists, in document order, the nodes at or below [n]
    that match [sk] under ancestors (at or below [n]) matching
    [s1 ... s(k-1)] in this order; an ancestor is used for the first
    selector it can serve. *)
Fixpoint select (n : Node) (sel : list Simple) : list Node :=
  let here :=
    match sel with
    | [s] => if matches s n then [n] else []
    | _ => []
    end in
  let below :=
    match sel with
    | s :: (_ :: _) as rest => if matches s n then rest else sel
    | _ => sel
    end in
  here ++
  match n with
  | Text _ => []
  | Element _ _ cs =>
      (fix go (l : list Node) : list Node :=
         match l with
         | [] => []
         | c :: l' => select c below ++ go l'
         end) cs
  end.

(** A document; its root element is a candidate of the document's queries. *)
Record Document : Type := { documentElement : Node }.

(** [doc.querySelectorAll(sel)] *)
Definition doc_querySelectorAll (doc : Document) (sel : list Simple) : list Node :=
  select (documentElement doc) sel.

(** [doc.querySelectorAll('s1, s2, ...')] for a list of simple selectors. *)
Definition doc_querySelectorAll_list (doc : Document) (sels : list Simple) : list Node :=
  List.filter (fun n => existsb (fun s => matches s n) sels)
    (documentElement doc :: descendants (documentElement doc)).

(** [doc.querySelector(sel)] *)
Definition doc_querySelector (doc : Document) (sel : list Simple) : option Node :=
  head (doc_querySelectorAll doc sel).

End DOM.

(** ** The libraries and the platform *)

(** What Readability's [parse] returns; an absent or empty field is the
    empty string, [siteName] may be [null]. *)
Record Article : Type := {
  article_title : string;
  article_siteName : option string;
  article_content : string;
  article_textContent : string;
  article_byline : option string;
  article_excerpt : option string
}.

(** A Turndown service: the rules added with [addRule] (tag and replacement
    callback) and the tags passed to [remove]. *)
Record TurndownService : Type := {
  rules : list (string * (string -> DOM.Node -> string));
  removed : list string
}.

(** [fetch]'s response, as far as the routes read it. *)
Record FetchResponse : Type := {
  ok : bool;
  response_status : nat;
  statusText : string;
  response_text : string
}.

Class Platform : Type := {
  (** [new URL(input, base).href]; [base = None] is the one-argument
      constructor. It throws a [TypeError] when the input cannot be parsed. *)
  URL_new : string -> option string -> exc string;
  (** [new URL(url).hostname] *)
  URL_hostname : string -> exc string;
  (** [DOMPurify.sanitize(html)] *)
  DOMPurify_sanitize : string -> string;
  (** [new JSDOM(html, { url }).window.document] *)
  JSDOM : string -> DOM.Document;
  (** [new Readability(doc).parse()]; [None] is [null]. *)
  Readability_parse : DOM.Document -> option Article;
  (** [service.turndown(html)] *)
  turndown : TurndownService -> string -> string;
  (** The network, for a request the platform accepted: the response, or
      the rejection of the promise (transport failure, abort). *)
  network : string -> exc FetchResponse
}.

(** [fetch(url)]: the request constructor parses the URL first and throws a
    [TypeError] when it is not an absolute URL. *)
Definition fetch `{Platform} (url : string) : exc FetchResponse :=
  _ ← URL_new url None; network url.

(** ** Structured extraction: the helper functions of the processor route *)

Module Extraction.

Record Heading : Type := { level : nat; heading_text : string }.

Record Link : Type := { link_text : string; link_href : string }.

Record Image : Type := { image_src : string; image_alt : string }.

Record WikipediaData : Type := {
  infobox : option (gmap string string);
  categories : option (list string);
  references : option (list string)
}.

(** The variables of the loop of [extractLinks]. *)
Record LinkVars : Type := { links : list Link; seenHrefs : gset string }.

(** [parseInt(el.tagName.charAt(1))] on a heading element. *)
Definition heading_level (el : DOM.Node) : nat :=
  match el with
  | DOM.Element (String _ (String d _)) _ _ => nat_of_ascii d - 48
  | _ => 0
  end.

Definition extractHeadings (doc : DOM.Document) : list Heading :=
  foldl (fun headings el =>
           let text := JS.or_else (JS.trim (DOM.textContent el)) "" in
           if JS.truthy text
           then headings ++ [ {| level := heading_level el; heading_text := text |} ]
           else headings)
        []
        (DOM.doc_querySelectorAll_list doc
           [DOM.ByTag "h1"; DOM.ByTag "h2"; DOM.ByTag "h3";
            DOM.ByTag "h4"; DOM.ByTag "h5"; DOM.ByTag "h6"]).

Section Extractors.

Context `{Platform}.

(** The body of the [for ... of] loop of [extractLinks]. *)
Definition extractLinks_body (baseUrl : string) (vars : LinkVars) (el : DOM.Node)
  : exc (Flow LinkVars) :=
  if Nat.leb 100 (length (links vars)) then mret (Break vars) else
  match DOM.getAttribute el "href" with
  | None => mret (Continue vars)
  | Some href =>
      if negb (JS.truthy href) then mret (Continue vars) else
      resolved ← try_catch
                   (absoluteHref ← URL_new href (Some baseUrl); mret (Some absoluteHref))
                   (fun _ => mret None);
      match resolved with
      | None => mret (Continue vars)
      | Some absoluteHref =>
          if JS.startsWith absoluteHref "#" || bool_decide (absoluteHref ∈ seenHrefs vars)
          then mret (Continue vars)
          else
            let seen := {[ absoluteHref ]} ∪ seenHrefs vars in
            let text := JS.or_else (JS.trim (DOM.textContent el)) "" in
            if JS.truthy text && JS.truthy absoluteHref
            then mret (Continue {| links := links vars ++
                                     [ {| link_text := text; link_href := absoluteHref |} ];
                                   seenHrefs := seen |})
            else mret (Continue {| links := links vars; seenHrefs := seen |})
      end
  end.

(** The loop of [extractLinks] over the anchors found. *)
Definition extractLinks_from (els : list DOM.Node) (baseUrl : string) : exc (list Link) :=
  vars ← for_of (extractLinks_body baseUrl) {| links := []; seenHrefs := ∅ |} els;
  mret (links vars).

Definition extractLinks (doc : DOM.Document) (baseUrl : string) : exc (list Link) :=
  extractLinks_from (DOM.doc_querySelectorAll doc [DOM.ByTagAttr "a" "href"]) baseUrl.

(** The callback of [imgElements.forEach] in [extractImages]; [return]
    goes on with the next element. *)
Definition extractImages_body (baseUrl : string) (images : list Image) (el : DOM.Node)
  : exc (Flow (list Image)) :=
  match DOM.getAttribute el "src" with
  | None => mret (Continue images)
  | Some src =>
      if negb (JS.truthy src) then mret (Continue images) else
      resolved ← try_catch
                   (absoluteSrc ← URL_new src (Some baseUrl); mret (Some absoluteSrc))
                   (fun _ => mret None);
      match resolved with
      | None => mret (Continue images)
      | Some absoluteSrc =>
          let alt := JS.opt_or (DOM.getAttribute el "alt") "" in
          mret (Continue (images ++ [ {| image_src := absoluteSrc; image_alt := alt |} ]))
      end
  end.

Definition extractImages_from (els : list DOM.Node) (baseUrl : string) : exc (list Image) :=
  for_of (extractImages_body baseUrl) [] els.

Definition extractImages (doc : DOM.Document) (baseUrl : string) : exc (list Image) :=
  extractImages_from (DOM.doc_querySelectorAll doc [DOM.ByTagAttr "img" "src"]) baseUrl.

(** The absolute URL of the attribute [attr] of an element, when it has
    one: the attribute is there, is not empty, and the parser accepts it. *)
Definition resolved (attr baseUrl : string) (el : DOM.Node) : option string :=
  match DOM.getAttribute el attr with
  | Some v =>
      if JS.truthy v
      then match URL_new v (Some baseUrl) with
           | Ret u => Some u
           | Throw _ => None
           end
      else None
  | None => None
  end.

(** The entry of an image whose [src] resolves. *)
Definition image_of (baseUrl : string) (el : DOM.Node) : option Image :=
  match resolved "src" baseUrl el with
  | Some u => Some {| image_src := u; image_alt := JS.opt_or (DOM.getAttribute el "alt") "" |}
  | None => None
  end.

(** The entry of an anchor whose [href] resolves and whose text is not
    blank. *)
Definition link_of (baseUrl : string) (el : DOM.Node) : option Link :=
  match resolved "href" baseUrl el with
  | Some u =>
      if JS.truthy (JS.trim (DOM.textContent el))
      then Some {| link_text := JS.trim (DOM.textContent el); link_href := u |}
      else None
  | None => None
  end.

End Extractors.

(** What the loop of [extractLinks] keeps true of its variables: at most a
    hundred links, no address twice, every address among the seen ones. *)
Definition links_invariant (vars : LinkVars) : Prop :=
  length (links vars) ≤ 100 ∧
  NoDup (link_href <$> links vars) ∧
  ∀ l, l ∈ links vars → link_href l ∈ seenHrefs vars.

(** [infoboxData[key] = value] on the plain object [infoboxData], whose
    own properties are the map. The assignment gives the object the property
    [key], except for [__proto__]: that name is the accessor the object
    inherits from [Object.prototype], whose setter ignores a string, so the
    object gets no property. *)
Definition assign (infoboxData : gmap string string) (key value : string)
  : gmap string string :=
  if String.eqb key "__proto__" then infoboxData else <[ key := value ]> infoboxData.

(** The callback of [rows.forEach] in [extractWikipediaData]: the
    assignment for a row with both cells non-empty. *)
Definition infobox_row (infoboxData : gmap string string) (row : DOM.Node)
  : gmap string string :=
  match DOM.querySelector row (DOM.ByTag "th"), DOM.querySelector row (DOM.ByTag "td") with
  | Some th, Some td =>
      let key := JS.or_else (JS.trim (DOM.textContent th)) "" in
      let value := JS.or_else (JS.trim (DOM.textContent td)) "" in
      if JS.truthy key && JS.truthy value
      then assign infoboxData key value
      else infoboxData
  | _, _ => infoboxData
  end.

(** The header and data cells of a row, trimmed, when the row has both. *)
Definition row_cells (row : DOM.Node) : option (string * string) :=
  match DOM.querySelector row (DOM.ByTag "th"), DOM.querySelector row (DOM.ByTag "td") with
  | Some th, Some td =>
      Some (JS.trim (DOM.textContent th), JS.trim (DOM.textContent td))
  | _, _ => None
  end.

(** The property a row gives the object: both cells there and not blank,
    and a header other than [__proto__]. *)
Definition row_entry (row : DOM.Node) : option (string * string) :=
  match row_cells row with
  | Some (key, value) =>
      if JS.truthy key && JS.truthy value && negb (String.eqb key "__proto__")
      then Some (key, value)
      else None
  | None => None
  end.

(** The own properties of the object filled from the rows of an infobox
    element; [Object.keys(infoboxData)] are the keys of this map. *)
Definition infoboxData_of (box : DOM.Node) : gmap string string :=
  foldl infobox_row ∅ (DOM.querySelectorAll box (DOM.ByTag "tr")).

(** [.map((el) => el.textContent?.trim() || '').filter((text) => text.length > 0)] *)
Definition trimmed_texts (els : list DOM.Node) : list string :=
  List.filter JS.truthy
    (List.map (fun el => JS.or_else (JS.trim (DOM.textContent el)) "") els).

Definition extractWikipediaData (doc : DOM.Document) : WikipediaData :=
  let infobox :=
    match DOM.doc_querySelector doc [DOM.ByClass "infobox"] with
    | Some box =>
        let infoboxData := infoboxData_of box in
        if Nat.ltb 0 (size infoboxData) then Some infoboxData else None
    | None => None
    end in
  let categoryLinks :=
    DOM.doc_querySelectorAll doc
      [DOM.ById "mw-normal-catlinks"; DOM.ByTag "ul"; DOM.ByTag "li"; DOM.ByTag "a"] in
  let categories :=
    if Nat.ltb 0 (length categoryLinks) then Some (trimmed_texts categoryLinks) else None in
  let refList := DOM.doc_querySelectorAll doc [DOM.ByClass "references"; DOM.ByTag "li"] in
  let references :=
    if Nat.ltb 0 (length refList) then Some (trimmed_texts (take 50 refList)) else None in
  {| infobox := infobox; categories := categories; references := references |}.

End Extraction.

(** ** Pieces shared by the routes *)

(** The line feed of the template literals. *)
Definition LF : string := String (ascii_of_nat 10) EmptyString.

(** The text the metadata phase leaves where the transcript will go. *)
Definition placeholder : string := "_Fetching transcript..._".

(** [NextResponse.json(body, { status })] *)
Record Response (Body : Type) : Type := { status : nat; body : Body }.

Arguments status {Body} r.
Arguments body {Body} r.

(** [url.includes('youtube.com') || url.includes('youtu.be')] *)
Definition isYoutubeUrl (url : string) : bool :=
  JS.includes url "youtube.com" || JS.includes url "youtu.be".

(** *** Video metadata *)

Record Metadata : Type := { title : string; channel : string; description : string }.

(** The JSON of the oEmbed endpoint. *)
Record OEmbedData : Type := {
  oembed_title : option string;
  author_name : option string
}.

(** [videoSecondaryInfoRenderer] of the first item of the watch page's
    [ytInitialData] contents that has one. *)
Record SecondaryInfo : Type := {
  attributedDescription_content : option string;
  description_runs : option (list string)
}.

(** What the inner [try] of the scrape finds: the regular expression and
    [JSON.parse] either throw or lead to an optional [SecondaryInfo]. *)
Inductive YtInitialData : Type :=
| YtThrows
| YtFound (secondaryInfo : option SecondaryInfo).

(** What the scrape reads from the watch page. *)
Record WatchPage : Type := {
  og_title : option string;
  document_title : string;
  itemprop_name : option string;
  og_description : option string;
  ytInitialData : YtInitialData
}.

(** [getYouTubeMetadata] of the processing routes. [oembed] and [page] are
    the results of the two fetches, [None] when the fetch threw, timed out,
    or was not [ok]. *)
Definition getYouTubeMetadata (oembed : option OEmbedData) (page : option WatchPage)
  : option Metadata :=
  let m0 := {| title := "Unknown Title"; channel := "YouTube"; description := "" |} in
  let m1 :=
    match oembed with
    | Some d => {| title := JS.opt_or (oembed_title d) (title m0);
                   channel := JS.opt_or (author_name d) (channel m0);
                   description := description m0 |}
    | None => m0
    end in
  let m2 :=
    match page with
    | Some p =>
        let t := if String.eqb (title m1) "Unknown Title"
                 then JS.opt_or (og_title p) (JS.or_else (document_title p) (title m1))
                 else title m1 in
        let c := if String.eqb (channel m1) "YouTube"
                 then JS.opt_or (itemprop_name p) (channel m1)
                 else channel m1 in
        let d := JS.opt_or (og_description p) "" in
        let d' :=
          match ytInitialData p with
          | YtThrows => d
          | YtFound None => d
          | YtFound (Some info) =>
              if JS.truthy (JS.opt_or (attributedDescription_content info) "")
              then JS.opt_or (attributedDescription_content info) ""
              else match description_runs info with
                   | Some runs => JS.join runs
                   | None => d
                   end
          end in
        {| title := t; channel := c; description := d' |}
    | None => m1
    end in
  if String.eqb (title m2) "Unknown Title" && String.eqb (channel m2) "YouTube"
  then None
  else Some m2.

(** *** Transcripts *)

Record TranscriptItem : Type := { offset : Number.number; text : string }.

(** [Math.floor(item.offset / 1000 / 60)] *)
Definition minutes (item : TranscriptItem) : Number.floored :=
  Number.floor (Number.div (Number.div (offset item) 1000%Q) 60%Q).

(** [Math.floor((item.offset / 1000) % 60).toString().padStart(2, '0')] *)
Definition seconds (item : TranscriptItem) : string :=
  JS.padStart
    (Number.toString (Number.floor (Number.rem (Number.div (offset item) 1000%Q) 60%Q)))
    2 "0"%char.

(** [`${minutes}:${seconds}`] *)
Definition timestamp (item : TranscriptItem) : string :=
  Number.toString (minutes item) +:+ ":" +:+ seconds item.

(** [`**${minutes}:${seconds}** - ${item.text}\n\n`] *)
Definition transcript_line (item : TranscriptItem) : string :=
  "**" +:+ timestamp item +:+ "** - " +:+ text item +:+ LF +:+ LF.

(** How the race of [fetchTranscriptWithTimeout] ends. *)
Inductive TranscriptRace : Type :=
| Fetched (items : list TranscriptItem)
| FetchFailed
| TimedOut.

(** [fetchTranscriptWithTimeout]: the segments, or [null] when the fetch
    rejected or the timer won. *)
Definition fetchTranscriptWithTimeout (race : TranscriptRace)
  : option (list TranscriptItem) :=
  match race with
  | Fetched items => Some items
  | FetchFailed => None
  | TimedOut => None
  end.

Definition transcript_error_note : string :=
  LF +:+ LF +:+ "**Error:** Could not fetch transcript (Captions might be disabled)" +:+ LF.

Definition transcript_heading : string :=
  LF +:+ LF +:+ "## Transcript" +:+ LF +:+ LF.

(** The block the transcript routes build in [transcriptMarkdown]: the note
    for [null], the heading and one line per segment for an array. Nothing
    in it throws on segments of this type, so the [catch] around it is never
    entered. *)
Definition transcriptMarkdown (transcript : option (list TranscriptItem)) : string :=
  match transcript with
  | None => transcript_error_note
  | Some items =>
      foldl (fun acc item => acc +:+ transcript_line item) transcript_heading items
  end.

(** *** The metadata phase of a video *)

(** The local variables the processing routes fill before they answer. *)
Record Fields : Type := {
  f_title : string;
  f_markdown : string;
  f_siteName : string;
  f_content : string;
  f_textContent : string;
  f_needsTranscript : bool
}.

(** The Markdown written before the placeholder: title line, channel and
    source line, and the quoted description when there is one. *)
Definition youtube_header (title siteName url description : string) : string :=
  "# " +:+ title +:+ LF +:+
  "**Channel:** " +:+ siteName +:+ " | **Source:** [YouTube](" +:+ url +:+ ")" +:+ LF +:+ LF +:+
  (if JS.truthy description then "> " +:+ description +:+ LF +:+ LF else "").

Definition metadata_description (metadata : option Metadata) : string :=
  match metadata with
  | Some m => description m
  | None => ""
  end.

(** The [try] block of the video branch ("YOUTUBE METADATA MODE"). *)
Definition youtube_fields (metadata : option Metadata) (url : string) : Fields :=
  let title := JS.opt_or (title <$> metadata) ("YouTube Transcript: " +:+ url) in
  let siteName := JS.opt_or (channel <$> metadata) "YouTube" in
  let description := metadata_description metadata in
  let markdown := youtube_header title siteName url description +:+ placeholder in
  let content :=
    "<h1>" +:+ title +:+ "</h1><p><strong>Channel:</strong> " +:+ siteName +:+ "</p>" +:+
    (if JS.truthy description
     then "<blockquote>" +:+ description +:+ "</blockquote>" else "") +:+
    "<p><em>Fetching transcript...</em></p>" in
  let textContent :=
    title +:+ LF +:+ "Channel: " +:+ siteName +:+ LF +:+ LF +:+ description +:+
    LF +:+ LF +:+ "Fetching transcript..." in
  {| f_title := title; f_markdown := markdown; f_siteName := siteName;
     f_content := content; f_textContent := textContent; f_needsTranscript := true |}.

(** What one request sees of the video services: the oEmbed JSON and the
    scraped watch page of a URL, [None] when the source gave nothing. *)
Record VideoSources : Type := {
  oembed : string -> option OEmbedData;
  watch_page : string -> option WatchPage
}.

(** [await getYouTubeMetadata(url)]: the page is only fetched when the
    platform accepts the URL. *)
Definition resolve_metadata `{Platform} (video : VideoSources) (url : string)
  : option Metadata :=
  getYouTubeMetadata (oembed video url)
    (match URL_new url None with
     | Ret _ => watch_page video url
     | Throw _ => None
     end).

(** The service of the routes with persistence: no rule added,
    [remove(['script', 'style', 'noscript', 'iframe'])]. *)
Definition plain_service : TurndownService :=
  {| rules := []; removed := ["script"; "style"; "noscript"; "iframe"] |}.

(** The [try] block of the page branch ("WEB SCRAPER MODE") of the
    authenticated route; a [Throw] is caught by its [catch (scrapeError)]. *)
Definition scrape `{Platform} (url : string) : exc Fields :=
  response ← fetch url;
  if negb (ok response)
  then Throw ("Failed to fetch page: " +:+ JS.toString (N.of_nat (response_status response))
              +:+ " " +:+ statusText response)
  else
    let html := response_text response in
    let cleanHtml := DOMPurify_sanitize html in
    let doc := JSDOM cleanHtml in
    match Readability_parse doc with
    | None => Throw "Readability could not parse content"
    | Some article =>
        if negb (JS.truthy (article_content article))
        then Throw "Readability could not parse content"
        else
          let title := JS.or_else (article_title article) "Untitled" in
          siteName ← match article_siteName article with
                     | Some s => if JS.truthy s then mret s else URL_hostname url
                     | None => URL_hostname url
                     end;
          let content := JS.or_else (article_content article) "" in
          let textContent := JS.or_else (article_textContent article) "" in
          let markdown := turndown plain_service (article_content article) in
          mret {| f_title := title; f_markdown := markdown; f_siteName := siteName;
                  f_content := content; f_textContent := textContent;
                  f_needsTranscript := false |}
    end.

(** ** Persistence *)

(** A row of the [Document] table, as far as the routes write and read it. *)
Record DocumentRow : Type := {
  doc_id : string;
  doc_url : string;
  doc_title : string;
  doc_siteName : string;
  doc_markdown : option string;
  doc_userId : string
}.

Record Database : Type := {
  documents : gmap string DocumentRow;
  users : gmap string string
}.

Record User : Type := {
  user_id : string;
  isPro : bool;
  emailAddress : option string
}.

(** [prisma.document.count({ where: { userId } })] *)
Definition document_count (db : Database) (userId : string) : nat :=
  size (filter (fun kv => doc_userId kv.2 = userId) (documents db)).

(** [prisma.document.create({ data })] under the identifier the store
    assigns; identifiers are unique. *)
Definition document_create (db : Database) (row : DocumentRow) : exc Database :=
  match documents db !! doc_id row with
  | Some _ => Throw "Unique constraint failed"
  | None => Ret {| documents := <[ doc_id row := row ]> (documents db); users := users db |}
  end.

(** [prisma.document.findUnique({ where: { id } })] *)
Definition document_findUnique (db : Database) (id : string) : option DocumentRow :=
  documents db !! id.

(** [prisma.document.update({ where: { id }, data: { markdown } })]: the
    updated row and the store, or a throw when there is no such row. *)
Definition document_update (db : Database) (id : string) (markdown : string)
  : exc (DocumentRow * Database) :=
  match documents db !! id with
  | None => Throw "Record to update not found"
  | Some row =>
      let row' := {| doc_id := doc_id row; doc_url := doc_url row;
                     doc_title := doc_title row; doc_siteName := doc_siteName row;
                     doc_markdown := Some markdown; doc_userId := doc_userId row |} in
      Ret (row', {| documents := <[ id := row' ]> (documents db); users := users db |})
  end.

(** [prisma.user.upsert] with the user's first e-mail address. *)
Definition user_upsert (db : Database) (user : User) : exc Database :=
  match emailAddress user with
  | None => Throw "Cannot read properties of undefined"
  | Some email =>
      Ret {| documents := documents db; users := <[ user_id user := email ]> (users db) |}
  end.

(** What one request sees of its surroundings: the session, whether the
    store answers each call, the identifiers drawn, and the video services. *)
Record World : Type := {
  currentUser : option User;
  count_answers : bool;
  upsert_answers : bool;
  create_answers : bool;
  find_answers : bool;
  update_answers : bool;
  fresh_id : string;
  randomUUID : string;
  video : VideoSources;
  transcript_race : string -> TranscriptRace
}.

(** The body of a request: [request.text()] then [JSON.parse], as far as
    the routes look at it. [None] is a body without [url]. *)
Inductive RequestBody : Type :=
| InvalidJSON
| JsonBody (url : option string).

(** ** The authenticated processing route (with persistence) *)

Module Process.

Record Result : Type := {
  id : string;
  result_title : string;
  markdown : string;
  content : string;
  textContent : string;
  siteName : string;
  warning : option string;
  needsTranscript : bool
}.

Inductive Body : Type :=
| Error (error : string)
| Success (result : Result).

Definition json_error (message : string) (code : nat) : Response Body :=
  {| status := code; body := Error message |}.

Definition result_of (id : string) (f : Fields) (warning : option string) : Result :=
  {| id := id; result_title := f_title f; markdown := f_markdown f;
     content := f_content f; textContent := f_textContent f;
     siteName := f_siteName f; warning := warning;
     needsTranscript := f_needsTranscript f |}.

Section ProcessRoute.

Context `{Platform}.

(** Step 2, the limit check: whether the free limit is reached. The count
    is only asked for users who are not Pro and throws when the store does
    not answer. *)
Definition limit_reached (w : World) (db : Database) (user : User) : exc bool :=
  if isPro user then Ret false
  else if count_answers w
       then Ret (Nat.leb 20 (document_count db (user_id user)))
       else Throw "Can't reach database server".

(** Step 4, the user sync: a failure is logged and ignored. *)
Definition user_sync (w : World) (db : Database) (user : User) : Database :=
  match (if upsert_answers w then user_upsert db user
         else Throw "Can't reach database server") with
  | Ret db' => db'
  | Throw _ => db
  end.

(** Step 5, the processing logic; a [Throw] is the message of the error
    caught by the page branch. The video branch cannot throw. *)
Definition process (w : World) (url : string) : exc Fields :=
  if isYoutubeUrl url
  then Ret (youtube_fields (resolve_metadata (video w) url) url)
  else scrape url.

(** Step 6, the save, and the answer. *)
Definition save (w : World) (db : Database) (user : User) (url : string) (f : Fields)
  : Response Body * Database :=
  let row := {| doc_id := fresh_id w; doc_url := url;
                doc_title := JS.or_else (f_title f) "Untitled";
                doc_siteName := f_siteName f;
                doc_markdown := Some (f_markdown f);
                doc_userId := user_id user |} in
  match (if create_answers w then document_create db row
         else Throw "Can't reach database server") with
  | Ret db' =>
      ({| status := 200; body := Success (result_of (doc_id row) f None) |}, db')
  | Throw _ =>
      ({| status := 200;
          body := Success (result_of ("temp-" +:+ randomUUID w) f
                             (Some "Could not save to history")) |}, db)
  end.

(** [POST] of the route: the answer and the store afterwards, for a request
    that no other request overlaps. The store is called three times, in
    [limit_reached], [user_sync] and [save], and the route awaits the
    network in between; what overlapping requests do is said with these
    three steps. *)
Definition POST (w : World) (db : Database) (request : RequestBody)
  : Response Body * Database :=
  match currentUser w with
  | None => (json_error "Unauthorized" 401, db)
  | Some user =>
      match limit_reached w db user with
      | Throw _ => (json_error "Internal Server Error" 500, db)
      | Ret true =>
          (json_error "Free limit reached (20 docs). Upgrade to Pro for unlimited access." 403,
           db)
      | Ret false =>
          match request with
          | InvalidJSON => (json_error "Invalid JSON body" 400, db)
          | JsonBody url =>
              if negb (JS.truthy (JS.opt_or url ""))
              then (json_error "URL is required" 400, db)
              else
                let url := JS.opt_or url "" in
                let db := user_sync w db user in
                match process w url with
                | Throw message =>
                    (json_error (JS.or_else message "Failed to scrape URL") 422, db)
                | Ret f => save w db user url f
                end
          end
      end
  end.

End ProcessRoute.

End Process.

(** ** The transcript continuation route *)

Module Continuation.

Inductive Body : Type :=
| Error (error : string)
| Success (markdown : option string).

Definition json_error (message : string) (code : nat) : Response Body :=
  {| status := code; body := Error message |}.

(** The JSON of the request; [None] for a field is an absent one. *)
Record Request : Type := { docId : option string; url : option string }.

(** The new Markdown of the document: the placeholder replaced by nothing,
    then the transcript block. *)
Definition newMarkdown (currentMarkdown transcriptMarkdown : string) : string :=
  JS.replace currentMarkdown placeholder "" +:+ transcriptMarkdown.

(** [POST] of the route: the answer and the store afterwards. [request] is
    [None] when [request.json()] throws. The store is read-only up to the
    update. *)
Definition POST (w : World) (db : Database) (request : option Request)
  : Response Body * Database :=
  match currentUser w with
  | None => (json_error "Unauthorized" 401, db)
  | Some user =>
      match request with
      | None => (json_error "Unexpected end of JSON input" 500, db)
      | Some request =>
          let docId := JS.opt_or (docId request) "" in
          let url := JS.opt_or (url request) "" in
          if negb (JS.truthy docId) || negb (JS.truthy url)
          then (json_error "Missing docId or url" 400, db)
          else
            match (if find_answers w then Ret (document_findUnique db docId)
                   else Throw "Can't reach database server") with
            | Throw message => (json_error message 500, db)
            | Ret None => (json_error "Document not found" 404, db)
            | Ret (Some doc) =>
                if negb (String.eqb (doc_userId doc) (user_id user))
                then (json_error "Unauthorized access to document" 403, db)
                else
                  let transcript := fetchTranscriptWithTimeout (transcript_race w url) in
                  let transcriptMarkdown := transcriptMarkdown transcript in
                  let currentMarkdown := JS.opt_or (doc_markdown doc) "" in
                  let newMarkdown := newMarkdown currentMarkdown transcriptMarkdown in
                  match (if update_answers w then document_update db docId newMarkdown
                         else Throw "Can't reach database server") with
                  | Ret (updatedDoc, db') =>
                      ({| status := 200; body := Success (doc_markdown updatedDoc) |}, db')
                  | Throw message => (json_error message 500, db)
                  end
            end
      end
  end.

End Continuation.

(** ** The processor route (no session, nothing stored) *)

Module Processor.

Record Result : Type := {
  id : string;
  result_title : string;
  markdown : string;
  content : string;
  textContent : string;
  siteName : string;
  needsTranscript : bool;
  sourceUrl : string;
  wordCount : nat;
  language : option string;
  headings : option (list Extraction.Heading);
  links : option (list Extraction.Link);
  images : option (list Extraction.Image);
  wikipedia : option Extraction.WikipediaData
}.

Inductive Body : Type :=
| Error (error : string)
| Success (result : Result).

Definition json_error (message : string) (code : nat) : Response Body :=
  {| status := code; body := Error message |}.

(** What the page branch has extracted when its [try] block ends. *)
Record Page : Type := {
  page_fields : Fields;
  page_language : string;
  page_headings : list Extraction.Heading;
  page_links : list Extraction.Link;
  page_images : list Extraction.Image;
  page_wikipedia : option Extraction.WikipediaData
}.

Section ProcessorRoute.

Context `{Platform}.

(** The [try] block of the page branch ("WEB SCRAPER MODE"); a [Throw] is
    caught by its [catch (scrapeError)]. *)
Definition scrape (url : string) : exc Page :=
  response ← fetch url;
  if negb (ok response)
  then Throw ("Failed to fetch page: " +:+ JS.toString (N.of_nat (response_status response))
              +:+ " " +:+ statusText response)
  else
    let html := response_text response in
    let cleanHtml := DOMPurify_sanitize html in
    let doc := JSDOM cleanHtml in
    let language := JS.opt_or (DOM.getAttribute (DOM.documentElement doc) "lang") "" in
    let headings := Extraction.extractHeadings doc in
    links ← Extraction.extractLinks doc url;
    images ← Extraction.extractImages doc url;
    let wikipedia :=
      if JS.includes url "wikipedia.org"
      then Some (Extraction.extractWikipediaData (JSDOM html))
      else None in
    match Readability_parse doc with
    | None => Throw "Readability could not parse content"
    | Some article =>
        if negb (JS.truthy (article_content article))
        then Throw "Readability could not parse content"
        else
          let title := JS.or_else (article_title article) "Untitled" in
          siteName ← match article_siteName article with
                     | Some s => if JS.truthy s then mret s else URL_hostname url
                     | None => URL_hostname url
                     end;
          let content := JS.or_else (article_content article) "" in
          let textContent := JS.or_else (article_textContent article) "" in
          let markdown := turndown plain_service (article_content article) in
          mret {| page_fields :=
                    {| f_title := title; f_markdown := markdown; f_siteName := siteName;
                       f_content := content; f_textContent := textContent;
                       f_needsTranscript := false |};
                  page_language := language; page_headings := headings;
                  page_links := links; page_images := images;
                  page_wikipedia := wikipedia |}
    end.

(** [wikipedia && Object.keys(wikipedia).length > 0] *)
Definition wikipedia_present (wikipedia : option Extraction.WikipediaData)
  : option Extraction.WikipediaData :=
  match wikipedia with
  | Some data =>
      match Extraction.infobox data, Extraction.categories data, Extraction.references data with
      | None, None, None => None
      | _, _, _ => Some data
      end
  | None => None
  end.

Definition base_result (w : World) (url : string) (f : Fields) : Result :=
  {| id := "doc-" +:+ randomUUID w; result_title := f_title f;
     markdown := f_markdown f; content := f_content f;
     textContent := f_textContent f; siteName := f_siteName f;
     needsTranscript := f_needsTranscript f; sourceUrl := url;
     wordCount := JS.count_words false (f_textContent f);
     language := None; headings := None; links := None; images := None;
     wikipedia := None |}.

Definition page_result (w : World) (url : string) (p : Page) : Result :=
  let r := base_result w url (page_fields p) in
  {| id := id r; result_title := result_title r; markdown := markdown r;
     content := content r; textContent := textContent r; siteName := siteName r;
     needsTranscript := needsTranscript r; sourceUrl := sourceUrl r;
     wordCount := wordCount r;
     language := Some (page_language p); headings := Some (page_headings p);
     links := Some (page_links p); images := Some (page_images p);
     wikipedia := wikipedia_present (page_wikipedia p) |}.

(** [POST] of the route. *)
Definition POST (w : World) (request : RequestBody) : Response Body :=
  match request with
  | InvalidJSON => json_error "Invalid JSON body" 400
  | JsonBody url =>
      if negb (JS.truthy (JS.opt_or url ""))
      then json_error "URL is required" 400
      else
        let url := JS.opt_or url "" in
        if isYoutubeUrl url
        then
          let f := youtube_fields (resolve_metadata (video w) url) url in
          {| status := 200; body := Success (base_result w url f) |}
        else
          match scrape url with
          | Throw message => json_error (JS.or_else message "Failed to scrape URL") 422
          | Ret p => {| status := 200; body := Success (page_result w url p) |}
          end
  end.

End ProcessorRoute.

(** [POST] of the transcript route next to it
    ([processor/transcript/route.ts]): the transcript block for a URL. *)
Inductive TranscriptBody : Type :=
| TranscriptError (error : string)
| TranscriptSuccess (transcript : string).

Definition transcript_POST (w : World) (request : option (option string))
  : Response TranscriptBody :=
  match request with
  | None => {| status := 500; body := TranscriptError "Unexpected end of JSON input" |}
  | Some url =>
      if negb (JS.truthy (JS.opt_or url ""))
      then {| status := 400; body := TranscriptError "Missing url" |}
      else
        let transcript := fetchTranscriptWithTimeout (transcript_race w (JS.opt_or url "")) in
        {| status := 200; body := TranscriptSuccess (transcriptMarkdown transcript) |}
  end.

End Processor.

(** ** The first processing route (pages only, images preserved) *)

Module Legacy.

(** The replacement callback of the [img] rule. *)
Definition img_replacement (content : string) (node : DOM.Node) : string :=
  let alt := JS.opt_or (DOM.getAttribute node "alt") "" in
  let src := JS.opt_or (DOM.getAttribute node "src") "" in
  if JS.truthy src then "![" +:+ alt +:+ "](" +:+ src +:+ ")" else "".

(** The service of this route: the [img] rule, and [script], [style] and
    [noscript] removed. *)
Definition service : TurndownService :=
  {| rules := [("img", img_replacement)]; removed := ["script"; "style"; "noscript"] |}.

Record Result : Type := {
  result_title : string;
  content : string;
  textContent : string;
  markdown : string;
  siteName : option string;
  byline : option string;
  excerpt : option string
}.

Inductive Body : Type :=
| Error (error : string)
| Success (result : Result).

Definition json_error (message : string) (code : nat) : Response Body :=
  {| status := code; body := Error message |}.

Section LegacyRoute.

Context `{Platform}.

(** [POST] of the route; [request] is [None] when [request.json()] throws,
    and a throw of [fetch] is caught by the outer [catch]. *)
Definition POST (request : option (option string)) : Response Body :=
  match request with
  | None => json_error "Unexpected end of JSON input" 500
  | Some url =>
      if negb (JS.truthy (JS.opt_or url ""))
      then json_error "URL is required" 400
      else
        let url := JS.opt_or url "" in
        match URL_new url None with
        | Throw _ => json_error "Invalid URL format" 400
        | Ret _ =>
            match fetch url with
            | Throw message => json_error (JS.or_else message "Internal Server Error") 500
            | Ret response =>
                if negb (ok response)
                then json_error ("Failed to fetch URL: " +:+ statusText response)
                       (response_status response)
                else
                  let html := response_text response in
                  let cleanHtml := DOMPurify_sanitize html in
                  let doc := JSDOM cleanHtml in
                  match Readability_parse doc with
                  | None => json_error "Failed to parse content from this URL" 422
                  | Some article =>
                      if negb (JS.truthy (article_content article))
                      then json_error "Failed to parse content from this URL" 422
                      else
                        {| status := 200;
                           body := Success
                             {| result_title := article_title article;
                                content := article_content article;
                                textContent := article_textContent article;
                                markdown := turndown service (article_content article);
                                siteName := article_siteName article;
                                byline := article_byline article;
                                excerpt := article_excerpt article |} |}
                  end
            end
        end
  end.

End LegacyRoute.

End Legacy.

(** ** Sample data *)

Module Examples.

(** A small stand-in for the URL parser: an absolute [http(s)] URL is taken
    as already normalised, a fragment is resolved against a base that has
    none, anything else is rejected. *)
Definition url_new (input : string) (base : option string) : exc string :=
  if JS.startsWith input "https://" || JS.startsWith input "http://"
  then Ret input
  else match base with
       | Some b =>
           if JS.startsWith input "#" then Ret (b +:+ input)
           else Throw "TypeError: Invalid URL"
       | None => Throw "TypeError: Invalid URL"
       end.

Definition empty_document : DOM.Document :=
  {| DOM.documentElement := DOM.Element "html" [] [] |}.

(** A platform whose network serves an empty page everywhere, on which
    Readability finds nothing. *)
#[local] Instance platform : Platform := {|
  URL_new := url_new;
  URL_hostname := fun _ => Ret "example.com";
  DOMPurify_sanitize := fun html => html;
  JSDOM := fun _ => empty_document;
  Readability_parse := fun _ => None;
  turndown := fun _ html => html;
  network := fun _ =>
    Ret {| ok := true; response_status := 200; statusText := "OK";
           response_text := "<html></html>" |}
|}.

Definition alice : User :=
  {| user_id := "user_1"; isPro := false; emailAddress := Some "alice@example.com" |}.

Definition empty_db : Database := {| documents := ∅; users := ∅ |}.

(** A video whose description quotes the placeholder. *)
Definition quoting_sources : VideoSources :=
  {| oembed := fun _ => Some {| oembed_title := Some "Demo"; author_name := Some "Chan" |};
     watch_page := fun _ =>
       Some {| og_title := None; document_title := "Demo - YouTube";
               itemprop_name := None;
               og_description := Some "Shows _Fetching transcript..._ while loading";
               ytInitialData := YtFound None |} |}.

(** A video with an ordinary description. *)
Definition plain_sources : VideoSources :=
  {| oembed := fun _ => Some {| oembed_title := Some "Demo"; author_name := Some "Chan" |};
     watch_page := fun _ =>
       Some {| og_title := None; document_title := "Demo - YouTube";
               itemprop_name := None;
               og_description := Some "A short demo";
               ytInitialData := YtFound None |} |}.

Definition world (sources : VideoSources) (race : TranscriptRace) : World :=
  {| currentUser := Some alice;
     count_answers := true; upsert_answers := true; create_answers := true;
     find_answers := true; update_answers := true;
     fresh_id := "doc_1"; randomUUID := "0000";
     video := sources; transcript_race := fun _ => race |}.

Definition video_url : string := "https://youtu.be/abc".

(** The metadata phase of the sample video in the empty store, and the
    continuation that follows it. *)
Definition phase1 (sources : VideoSources) : Response Process.Body * Database :=
  Process.POST (world sources TimedOut) empty_db (JsonBody (Some video_url)).

Definition phase2 (sources : VideoSources) (race : TranscriptRace)
  : Response Continuation.Body * Database :=
  Continuation.POST (world sources race) (phase1 sources).2
    (Some {| Continuation.docId := Some "doc_1"; Continuation.url := Some video_url |}).

(** A store with one document of the sample user that has no placeholder. *)
Definition notes_db : Database :=
  {| documents :=
       {[ "doc_1" := {| doc_id := "doc_1"; doc_url := video_url; doc_title := "Notes";
                        doc_siteName := "Chan"; doc_markdown := Some "# Notes";
                        doc_userId := "user_1" |} ]};
     users := ∅ |}.

Definition row (label value : string) : DOM.Node :=
  DOM.Element "tr" []
    [DOM.Element "th" [] [DOM.Text label]; DOM.Element "td" [] [DOM.Text value]].

(** A page with an infobox of five rows, three of them without a value,
    and an anchor to a fragment of the page. *)
Definition wiki_page : DOM.Document :=
  {| DOM.documentElement :=
       DOM.Element "html" []
         [DOM.Element "body" []
            [DOM.Element "table" [("class", "infobox vcard")]
               [DOM.Element "tbody" []
                  [row "Born" " 1912 "; row "Died" "  "; row "Fields" "";
                   row "Known for" "Logic"; row "Awards" " "]];
             DOM.Element "a" [("href", "#top")] [DOM.Text "Top"]]] |}.

End Examples.

(** ** The single-phase video route (metadata and transcript at once) *)

Module LegacyVideo.

(** [s.slice(0, n)] *)
Fixpoint slice_to (n : nat) (s : string) : string :=
  match n, s with
  | O, _ => EmptyString
  | S _, EmptyString => EmptyString
  | S n', String c s' => String c (slice_to n' s')
  end.

(** What this version of the scrape reads from the watch page: the fields
    of [WatchPage] and the Open Graph site name. *)
Record ScrapedPage : Type := {
  watch : WatchPage;
  og_site_name : option string
}.

(** The description: the Open Graph one, replaced by the one of the
    embedded JSON when that is found. *)
Definition page_description (p : WatchPage) : string :=
  let d := JS.opt_or (og_description p) "" in
  match ytInitialData p with
  | YtThrows => d
  | YtFound None => d
  | YtFound (Some info) =>
      if JS.truthy (JS.opt_or (attributedDescription_content info) "")
      then JS.opt_or (attributedDescription_content info) ""
      else match description_runs info with
           | Some runs => JS.join runs
           | None => d
           end
  end.

(** [getYouTubeMetadata] of this route: the page first, oEmbed only for a
    generic title. [page] is [None] when the fetch threw or was not [ok];
    [oembed] is what the oEmbed request gives if it is made. *)
Definition getYouTubeMetadata (page : option ScrapedPage) (oembed : option OEmbedData)
  : option Metadata :=
  match page with
  | None => None
  | Some sp =>
      let p := watch sp in
      let m0 := {| title := JS.opt_or (og_title p)
                              (JS.or_else (document_title p) "Unknown Title");
                   channel := "YouTube"; description := "" |} in
      let m1 :=
        if String.eqb (title m0) "Unknown Title" || String.eqb (title m0) "YouTube"
        then match oembed with
             | Some d => {| title := JS.opt_or (oembed_title d) (title m0);
                            channel := JS.opt_or (author_name d) (channel m0);
                            description := description m0 |}
             | None => m0
             end
        else m0 in
      let channel :=
        if String.eqb (channel m1) "YouTube"
        then JS.opt_or (itemprop_name p) (JS.opt_or (og_site_name sp) "YouTube")
        else channel m1 in
      Some {| title := title m1; channel := channel; description := page_description p |}
  end.

(** The line of the Markdown that follows the header. *)
Definition transcript_intro (transcript : option (list TranscriptItem)) : string :=
  match transcript with
  | None => "**Error:** Could not fetch transcript (Captions might be disabled)" +:+ LF
  | Some _ => "## Transcript" +:+ LF +:+ LF
  end.

(** [`[${timestamp}] ${item.text}\n`] *)
Definition text_line (item : TranscriptItem) : string :=
  "[" +:+ timestamp item +:+ "] " +:+ text item +:+ LF.

(** [`<li><strong>${timestamp}</strong>: ${item.text}</li>`] *)
Definition html_item (item : TranscriptItem) : string :=
  "<li><strong>" +:+ timestamp item +:+ "</strong>: " +:+ text item +:+ "</li>".

(** The [try] block of the video branch ("YOUTUBE MODE"). *)
Definition youtube_result (metadata : option Metadata)
    (transcript : option (list TranscriptItem)) (url : string) : Legacy.Result :=
  let title := JS.opt_or (title <$> metadata) ("YouTube Transcript: " +:+ url) in
  let channel := JS.opt_or (channel <$> metadata) "YouTube" in
  let description := metadata_description metadata in
  let markdown :=
    youtube_header title channel url description +:+ transcript_intro transcript in
  let textContent :=
    title +:+ LF +:+ "Channel: " +:+ channel +:+ LF +:+ LF +:+ description +:+
    LF +:+ LF +:+ "Transcript:" +:+ LF in
  let htmlContent :=
    "<h1>" +:+ title +:+ "</h1><p><strong>Channel:</strong> " +:+ channel +:+
    "</p><blockquote>" +:+ description +:+ "</blockquote><h2>Transcript</h2>" in
  let excerpt :=
    if JS.truthy description then slice_to 200 description +:+ "..." else "" in
  match transcript with
  | Some items =>
      {| Legacy.result_title := title;
         Legacy.content :=
           foldl (fun acc item => acc +:+ html_item item) (htmlContent +:+ "<ul>") items
           +:+ "</ul>";
         Legacy.textContent := foldl (fun acc item => acc +:+ text_line item) textContent items;
         Legacy.markdown := foldl (fun acc item => acc +:+ transcript_line item) markdown items;
         Legacy.siteName := Some channel; Legacy.byline := Some channel;
         Legacy.excerpt := Some excerpt |}
  | None =>
      {| Legacy.result_title := title; Legacy.content := htmlContent;
         Legacy.textContent := textContent; Legacy.markdown := markdown;
         Legacy.siteName := Some channel; Legacy.byline := Some channel;
         Legacy.excerpt := Some excerpt |}
  end.

(** What one request sees of the video services. *)
Record Sources : Type := {
  scraped : string -> option ScrapedPage;
  oembed_of : string -> option OEmbedData;
  race : string -> TranscriptRace
}.

(** [POST] of the route. The page branch ("STANDARD WEB MODE") is the code
    of the first route. *)
Definition POST `{Platform} (s : Sources) (request : option (option string))
  : Response Legacy.Body :=
  match request with
  | None => Legacy.json_error "Unexpected end of JSON input" 500
  | Some url =>
      if negb (JS.truthy (JS.opt_or url ""))
      then Legacy.json_error "URL is required" 400
      else
        let url := JS.opt_or url "" in
        match URL_new url None with
        | Throw _ => Legacy.json_error "Invalid URL format" 400
        | Ret _ =>
            if isYoutubeUrl url
            then {| status := 200;
                    body := Legacy.Success
                              (youtube_result
                                 (getYouTubeMetadata (scraped s url) (oembed_of s url))
                                 (fetchTranscriptWithTimeout (race s url)) url) |}
            else Legacy.POST request
        end
  end.

End LegacyVideo.

(** ** The local route (no session, nothing stored, transcript at once) *)

Module Local.

Definition no_transcript_note : string :=
  LF +:+ LF +:+
  "**Note:** No transcript available (captions may be disabled for this video)" +:+ LF.

Record Result : Type := {
  id : string;
  result_title : string;
  markdown : string;
  content : string;
  textContent : string;
  siteName : string
}.

Inductive Body : Type :=
| Error (error : string)
| Success (result : Result).

Definition json_error (message : string) (code : nat) : Response Body :=
  {| status := code; body := Error message |}.

(** The transcript part of the Markdown: the heading and the lines for an
    array that is not empty, the note otherwise. *)
Definition transcript_part (transcript : option (list TranscriptItem)) : string :=
  match transcript with
  | Some (item :: items) =>
      foldl (fun acc item => acc +:+ transcript_line item)
        ("## Transcript" +:+ LF +:+ LF) (item :: items)
  | _ => no_transcript_note
  end.

(** The [try] block of the video branch ("YOUTUBE MODE (with transcript)"). *)
Definition youtube_result (w : World) (metadata : option Metadata)
    (transcript : option (list TranscriptItem)) (url : string) : Result :=
  let title := JS.opt_or (title <$> metadata) ("YouTube Video: " +:+ url) in
  let siteName := JS.opt_or (channel <$> metadata) "YouTube" in
  let description := metadata_description metadata in
  {| id := "local-" +:+ randomUUID w;
     result_title := title;
     markdown := youtube_header title siteName url description +:+ transcript_part transcript;
     content :=
       "<h1>" +:+ title +:+ "</h1><p><strong>Channel:</strong> " +:+ siteName +:+ "</p>" +:+
       (if JS.truthy description
        then "<blockquote>" +:+ description +:+ "</blockquote>" else "");
     textContent :=
       title +:+ LF +:+ "Channel: " +:+ siteName +:+ LF +:+ LF +:+ description;
     siteName := siteName |}.

(** [POST] of the route; the page branch is the [scrape] of the
    authenticated route. *)
Definition POST `{Platform} (w : World) (request : RequestBody) : Response Body :=
  match request with
  | InvalidJSON => json_error "Invalid JSON body" 400
  | JsonBody url =>
      if negb (JS.truthy (JS.opt_or url ""))
      then json_error "URL is required" 400
      else
        let url := JS.opt_or url "" in
        if isYoutubeUrl url
        then {| status := 200;
                body := Success
                          (youtube_result w (resolve_metadata (video w) url)
                             (fetchTranscriptWithTimeout (transcript_race w url)) url) |}
        else
          match scrape url with
          | Throw message => json_error (JS.or_else message "Failed to scrape URL") 422
          | Ret f =>
              {| status := 200;
                 body := Success
                           {| id := "local-" +:+ randomUUID w; result_title := f_title f;
                              markdown := f_markdown f; content := f_content f;
                              textContent := f_textContent f;
                              siteName := f_siteName f |} |}
          end
  end.

(** The block of the transcript routes next to it, which call the fetch
    themselves: [fetched] is what [YoutubeTranscript.fetchTranscript] gives,
    a throw with its message, [null], or the segments. *)
Definition direct_block (fetched : exc (option (list TranscriptItem))) : string :=
  match fetched with
  | Throw message =>
      LF +:+ LF +:+ "**Error:** Could not fetch transcript - " +:+
      JS.or_else message "Unknown error" +:+ LF
  | Ret (Some (item :: items)) =>
      foldl (fun acc item => acc +:+ transcript_line item) transcript_heading (item :: items)
  | Ret _ => no_transcript_note
  end.

(** [POST] of the transcript route without session. *)
Definition transcript_POST (fetch_transcript : string -> exc (option (list TranscriptItem)))
    (request : option (option string)) : Response Processor.TranscriptBody :=
  match request with
  | None => {| status := 500;
               body := Processor.TranscriptError "Unexpected end of JSON input" |}
  | Some url =>
      if negb (JS.truthy (JS.opt_or url ""))
      then {| status := 400; body := Processor.TranscriptError "Missing url" |}
      else {| status := 200;
              body := Processor.TranscriptSuccess
                        (direct_block (fetch_transcript (JS.opt_or url ""))) |}
  end.

(** [POST] of the transcript route with session. *)
Definition transcript_POST_session (w : World)
    (fetch_transcript : string -> exc (option (list TranscriptItem)))
    (request : option (option string)) : Response Processor.TranscriptBody :=
  match currentUser w with
  | None => {| status := 401; body := Processor.TranscriptError "Unauthorized" |}
  | Some _ => transcript_POST fetch_transcript request
  end.

End Local.

(** ** The authenticated single-phase route (transcript at once, stored) *)

Module SinglePhase.

Record Result : Type := {
  id : string;
  result_title : string;
  markdown : string;
  siteName : string;
  warning : option string
}.

Inductive Body : Type :=
| Error (error : string)
| Success (result : Result).

Definition json_error (message : string) (code : nat) : Response Body :=
  {| status := code; body := Error message |}.

(** The Markdown after the header: the error line for [null], the heading
    and one line per segment for an array. *)
Definition transcript_part (transcript : option (list TranscriptItem)) : string :=
  match transcript with
  | None =>
      "**Error:** Could not fetch transcript (Captions might be disabled)" +:+ LF +:+ LF
  | Some items =>
      foldl (fun acc item => acc +:+ transcript_line item)
        ("## Transcript" +:+ LF +:+ LF) items
  end.

(** The three variables the processing logic fills. *)
Record Processed : Type := {
  p_title : string;
  p_markdown : string;
  p_siteName : string
}.

(** The [try] block of the video branch ("YOUTUBE MODE"). *)
Definition youtube (metadata : option Metadata) (transcript : option (list TranscriptItem))
    (url : string) : Processed :=
  let title := JS.opt_or (title <$> metadata) ("YouTube Transcript: " +:+ url) in
  let siteName := JS.opt_or (channel <$> metadata) "YouTube" in
  {| p_title := title;
     p_markdown :=
       youtube_header title siteName url (metadata_description metadata) +:+
       transcript_part transcript;
     p_siteName := siteName |}.

Section SinglePhaseRoute.

Context `{Platform}.

(** Step 5, the processing logic; the page branch is the one of the
    two-phase route, of which title, Markdown and site name are kept. *)
Definition process (s : LegacyVideo.Sources) (url : string) : exc Processed :=
  if isYoutubeUrl url
  then Ret (youtube
              (LegacyVideo.getYouTubeMetadata (LegacyVideo.scraped s url)
                 (LegacyVideo.oembed_of s url))
              (fetchTranscriptWithTimeout (LegacyVideo.race s url)) url)
  else
    f ← scrape url;
    mret {| p_title := f_title f; p_markdown := f_markdown f; p_siteName := f_siteName f |}.

(** Step 6, the save, and the answer. *)
Definition save (w : World) (db : Database) (user : User) (url : string) (p : Processed)
  : Response Body * Database :=
  let row := {| doc_id := fresh_id w; doc_url := url;
                doc_title := JS.or_else (p_title p) "Untitled";
                doc_siteName := p_siteName p;
                doc_markdown := Some (p_markdown p);
                doc_userId := user_id user |} in
  match (if create_answers w then document_create db row
         else Throw "Can't reach database server") with
  | Ret db' =>
      ({| status := 200;
          body := Success {| id := doc_id row; result_title := p_title p;
                             markdown := p_markdown p; siteName := p_siteName p;
                             warning := None |} |}, db')
  | Throw _ =>
      ({| status := 200;
          body := Success {| id := "temp-" +:+ randomUUID w; result_title := p_title p;
                             markdown := p_markdown p; siteName := p_siteName p;
                             warning := Some "Could not save to history" |} |}, db)
  end.

(** [POST] of the route: the answer and the store afterwards. Steps 1 to 4
    are those of the two-phase route. *)
Definition POST (w : World) (s : LegacyVideo.Sources) (db : Database)
    (request : RequestBody) : Response Body * Database :=
  match currentUser w with
  | None => (json_error "Unauthorized" 401, db)
  | Some user =>
      match Process.limit_reached w db user with
      | Throw _ => (json_error "Internal Server Error" 500, db)
      | Ret true =>
          (json_error "Free limit reached (20 docs). Upgrade to Pro for unlimited access." 403,
           db)
      | Ret false =>
          match request with
          | InvalidJSON => (json_error "Invalid JSON body" 400, db)
          | JsonBody url =>
              if negb (JS.truthy (JS.opt_or url ""))
              then (json_error "URL is required" 400, db)
              else
                let url := JS.opt_or url "" in
                let db := Process.user_sync w db user in
                match process s url with
                | Throw message =>
                    (json_error (JS.or_else message "Failed to scrape URL") 422, db)
                | Ret p => save w db user url p
                end
          end
      end
  end.

End SinglePhaseRoute.

End SinglePhase.

(** ** The dashboard page (client state) *)

Module Dashboard.

Inductive Status : Type := pending | processing | success | error.

Record ParseResult : Type := {
  title : string;
  markdown : string;
  siteName : string
}.

Record DocItem : Type := {
  id : string;
  url : string;
  status : Status;
  result : option ParseResult;
  error_message : option string;
  createdAt : option string
}.

(** The three pieces of React state the handlers write. *)
Record State : Type := {
  inputUrls : string;
  documents : list DocItem;
  selectedDocId : option string
}.

(** [{ ...d, status }] *)
Definition with_status (d : DocItem) (s : Status) : DocItem :=
  {| id := id d; url := url d; status := s; result := result d;
     error_message := error_message d; createdAt := createdAt d |}.

(** [s.split(sep)] for a one-character separator. *)
Fixpoint split (sep : ascii) (s : string) : list string :=
  match s with
  | EmptyString => [EmptyString]
  | String c s' =>
      if Ascii.eqb c sep then EmptyString :: split sep s'
      else match split sep s' with
           | piece :: rest => String c piece :: rest
           | [] => [String c EmptyString]
           end
  end.

Definition newline : ascii := ascii_of_nat 10.

(** [inputUrls.split('\n').map(u => u.trim()).filter(u => u.length > 0)] *)
Definition urls_of (inputUrls : string) : list string :=
  filter (fun u => 0 < String.length u) (JS.trim <$> split newline inputUrls).

(** A row of the history the documents endpoint answers with. *)
Record HistoryRow : Type := {
  h_id : string;
  h_url : string;
  h_createdAt : option string;
  h_title : option string;
  h_markdown : option string;
  h_siteName : option string
}.

(** The callback of [data.map] in the history effect. *)
Definition history_doc (d : HistoryRow) : DocItem :=
  {| id := h_id d; url := h_url d; status := success;
     result := Some {| title := JS.opt_or (h_title d) "Untitled";
                       markdown := JS.opt_or (h_markdown d) "";
                       siteName := JS.opt_or (h_siteName d) "" |};
     error_message := None; createdAt := h_createdAt d |}.

(** The history effect for an array [data]: the update it passes to
    [setDocuments]. *)
Definition loadHistory (data : list HistoryRow) (prev : list DocItem) : list DocItem :=
  let historyDocs := history_doc <$> data in
  let currentIds : gset string := list_to_set (id <$> prev) in
  let newHistory := filter (fun h => id h ∉ currentIds) historyDocs in
  newHistory ++ prev.

(** [handleCompile] up to its loop: the state it leaves and the documents
    it goes on to process. [uuid i] is what the call of
    [crypto.randomUUID()] for the [i]-th address gives. *)
Definition handleCompile (isSignedIn : bool) (uuid : nat -> string) (st : State)
  : State * list DocItem :=
  if negb isSignedIn then (st, [])
  else if negb (JS.truthy (JS.trim (inputUrls st))) then (st, [])
  else
    let urls := urls_of (inputUrls st) in
    let newDocs :=
      imap (fun i url => {| id := uuid i; url := url; status := pending; result := None;
                            error_message := None; createdAt := None |}) urls in
    ({| inputUrls := ""; documents := newDocs ++ documents st;
        selectedDocId := selectedDocId st |}, newDocs).

(** [updateDocStatus] *)
Definition updateDocStatus (id0 : string) (s : Status) (docs : list DocItem)
  : list DocItem :=
  (fun d => if String.eqb (id d) id0 then with_status d s else d) <$> docs.

(** [removeDoc] *)
Definition removeDoc (id0 : string) (st : State) : State :=
  {| inputUrls := inputUrls st;
     documents := filter (fun d => id d ≠ id0) (documents st);
     selectedDocId := if decide (selectedDocId st = Some id0) then None
                      else selectedDocId st |}.

(** How the [try] block of [processDoc] ends: with a throw (of [fetch], of
    the parse, or of the check of [res.ok]) whose [message] the [catch]
    reads, or with the answer's [id] and the result it stores. *)
Inductive Outcome : Type :=
| Thrown (message : option string)
| Answered (data_id : option string) (data : ParseResult).

(** [processDoc] for a document [doc], from the state before it to the
    state after its last update. *)
Definition processDoc (doc : DocItem) (outcome : Outcome) (st : State) : State :=
  let docs := updateDocStatus (id doc) processing (documents st) in
  match outcome with
  | Answered data_id data =>
      {| inputUrls := inputUrls st;
         documents :=
           (fun d => if String.eqb (id d) (id doc)
                     then {| id := JS.opt_or data_id (id d); url := url d;
                             status := success; result := Some data;
                             error_message := error_message d;
                             createdAt := createdAt d |}
                     else d) <$> docs;
         selectedDocId :=
           match selectedDocId st with
           | Some prev => if JS.truthy prev then Some prev
                          else Some (JS.opt_or data_id (id doc))
           | None => Some (JS.opt_or data_id (id doc))
           end |}
  | Thrown message =>
      {| inputUrls := inputUrls st;
         documents :=
           (fun d => if String.eqb (id d) (id doc)
                     then {| id := id d; url := url d; status := error;
                             result := result d; error_message := message;
                             createdAt := createdAt d |}
                     else d) <$> docs;
         selectedDocId := selectedDocId st |}
  end.

End Dashboard.

(** ** The home page (client state, two-phase processing) *)

Module Home.

Inductive Status : Type :=
| pending | processing | processing_transcript | success | error.

(** The parsed text of the first answer: [{}] for an empty text, otherwise
    the JSON of the route. *)
Inductive Data : Type :=
| EmptyObject
| Object (body : Process.Body).

Record DocItem : Type := {
  id : string;
  url : string;
  status : Status;
  result : option Data;
  error_message : option string
}.

Record State : Type := {
  inputUrls : string;
  documents : list DocItem;
  selectedDocId : option string
}.

(** What the page sees of the first answer: [res.status], and the parsed
    text, [None] when [JSON.parse] throws. *)
Record Answer : Type := {
  res_status : nat;
  res_data : option Data
}.

(** [res.ok] *)
Definition res_ok (a : Answer) : bool :=
  Nat.leb 200 (res_status a) && Nat.leb (res_status a) 299.

(** The two endpoints as the page calls them, over the state [S] of the
    server. [processor url] is the [fetch] of the first phase with
    [res.text()], [transcript docId url] the one of the second phase with
    [transcriptRes.json()]; a [Throw] is a rejection of these promises with
    its message. *)
Record Server (S : Type) : Type := {
  processor : string -> S -> exc Answer * S;
  transcript : string -> string -> S -> exc Continuation.Body * S
}.

Arguments processor {S}.
Arguments transcript {S}.

(** [(data as any).error] *)
Definition data_error (data : Data) : option string :=
  match data with
  | Object (Process.Error e) => Some e
  | _ => None
  end.

(** [updateDocStatus] *)
Definition updateDocStatus (id0 : string) (s : Status) (docs : list DocItem)
  : list DocItem :=
  (fun d => if String.eqb (id d) id0
            then {| id := id d; url := url d; status := s; result := result d;
                    error_message := error_message d |}
            else d) <$> docs.

(** [prev.map(d => d.id === doc.id ? { ...d, status, result } : d)] *)
Definition set_result (id0 : string) (s : Status) (data : Data) (docs : list DocItem)
  : list DocItem :=
  (fun d => if String.eqb (id d) id0
            then {| id := id d; url := url d; status := s; result := Some data;
                    error_message := error_message d |}
            else d) <$> docs.

(** [prev.map(d => d.id === doc.id ? { ...d, status: 'error', error } : d)] *)
Definition set_error (id0 : string) (message : string) (docs : list DocItem)
  : list DocItem :=
  (fun d => if String.eqb (id d) id0
            then {| id := id d; url := url d; status := error; result := result d;
                    error_message := Some message |}
            else d) <$> docs.

(** [curr => curr === null ? doc.id : curr] *)
Definition select (id0 : string) (curr : option string) : option string :=
  match curr with
  | None => Some id0
  | Some c => Some c
  end.

(** The result shown once the transcript is there. *)
Definition with_transcript (r : Process.Result) (markdown : string) : Process.Result :=
  {| Process.id := Process.id r; Process.result_title := Process.result_title r;
     Process.markdown := markdown;
     Process.content :=
       Process.content r +:+
       "<p><em>Transcript added. Switch to Markdown view to see timestamps.</em></p>";
     Process.textContent := Process.textContent r +:+ LF +:+ LF +:+ "(Transcript added)";
     Process.siteName := Process.siteName r; Process.warning := Process.warning r;
     Process.needsTranscript := Process.needsTranscript r |}.

(** Whether the page can be rendered: the list of documents shows
    [new URL(doc.url).hostname] of every document, and a throw there is
    caught by nothing on the page. *)
Definition renders `{Platform} (st : State) : bool :=
  forallb (fun d => match URL_hostname (url d) with
                    | Ret _ => true
                    | Throw _ => false
                    end) (documents st).

Section Client.

Context `{Platform} {S : Type} (server : Server S).

(** [processDoc], from the states of page and server before it to those
    after its last update, when no other event comes in between. *)
Definition processDoc (doc : DocItem) (st : State) (s : S) : State * S :=
  let docs := updateDocStatus (id doc) processing (documents st) in
  let failed (message : string) (docs : list DocItem) (sel : option string) : State :=
    {| inputUrls := inputUrls st; documents := set_error (id doc) message docs;
       selectedDocId := sel |} in
  let done (data : Data) (docs : list DocItem) : State :=
    {| inputUrls := inputUrls st; documents := set_result (id doc) success data docs;
       selectedDocId := select (id doc) (selectedDocId st) |} in
  match processor server (url doc) s with
  | (Throw message, s1) => (failed message docs (selectedDocId st), s1)
  | (Ret res, s1) =>
      match res_data res with
      | None =>
          (failed ("Server Error: Response was not valid JSON (" +:+
                   JS.toString (N.of_nat (res_status res)) +:+ "). Likely a timeout.")
             docs (selectedDocId st), s1)
      | Some data =>
          if negb (res_ok res)
          then (failed (JS.opt_or (data_error data) "Failed to fetch") docs
                  (selectedDocId st), s1)
          else
            match data with
            | Object (Process.Success r) =>
                if Process.needsTranscript r && JS.truthy (Process.id r)
                then
                  let docs := set_result (id doc) processing_transcript data docs in
                  let sel := select (id doc) (selectedDocId st) in
                  match transcript server (Process.id r) (url doc) s1 with
                  | (Throw message, s2) => (failed message docs sel, s2)
                  | (Ret (Continuation.Success (Some markdown)), s2) =>
                      if JS.truthy markdown
                      then ({| inputUrls := inputUrls st;
                               documents :=
                                 set_result (id doc) success
                                   (Object (Process.Success (with_transcript r markdown)))
                                   docs;
                               selectedDocId := sel |}, s2)
                      else ({| inputUrls := inputUrls st;
                               documents := set_result (id doc) success data docs;
                               selectedDocId := sel |}, s2)
                  | (Ret _, s2) =>
                      ({| inputUrls := inputUrls st;
                          documents := set_result (id doc) success data docs;
                          selectedDocId := sel |}, s2)
                  end
                else (done data docs, s1)
            | _ => (done data docs, s1)
            end
      end
  end.

(** [handleCompile] with its loop: the page when the loop is over, [None]
    when it was unmounted, and the server. The page is rendered with the
    documents added, before the first answer arrives; when that throws the
    page is unmounted and its state is lost, while the loop, which runs on
    its own, goes on calling the server. The addresses do not change in the
    loop, so a page that renders then renders until the end. [uuid i] is
    what the call of [crypto.randomUUID()] for the [i]-th address gives. *)
Definition handleCompile (isSignedIn : bool) (uuid : nat -> string) (st : State) (s : S)
  : option State * S :=
  if negb isSignedIn then (Some st, s)
  else if negb (JS.truthy (JS.trim (inputUrls st))) then (Some st, s)
  else
    let urls := Dashboard.urls_of (inputUrls st) in
    let newDocs :=
      imap (fun i url => {| id := uuid i; url := url; status := pending; result := None;
                            error_message := None |}) urls in
    let added := {| inputUrls := ""; documents := documents st ++ newDocs;
                    selectedDocId := selectedDocId st |} in
    let after := foldl (fun acc doc => processDoc doc acc.1 acc.2) (added, s) newDocs in
    (if renders added then Some after.1 else None, after.2).

End Client.

(** [removeDoc] *)
Definition removeDoc (id0 : string) (st : State) : State :=
  {| inputUrls := inputUrls st;
     documents := filter (fun d => id d ≠ id0) (documents st);
     selectedDocId := if decide (selectedDocId st = Some id0) then None
                      else selectedDocId st |}.

End Home.

(** ** Page and routes together *)

Module EndToEnd.

(** The authenticated routes as the server of the page: the store is the
    state, [first] and [second] are what the two requests see of their
    surroundings, and every answer arrives. *)
Definition routes `{Platform} (first second : World) : Home.Server Database :=
  {| Home.processor := fun url db =>
       let answer := Process.POST first db (JsonBody (Some url)) in
       (Ret {| Home.res_status := status answer.1; Home.res_data := Some (Home.Object (body answer.1)) |},
        answer.2);
     Home.transcript := fun docId url db =>
       let answer :=
         Continuation.POST second db
           (Some {| Continuation.docId := Some docId; Continuation.url := Some url |}) in
       (Ret (body answer.1), answer.2) |}.

End EndToEnd.

(** ** Further sample data *)

Module MoreExamples.

(** A platform whose network serves the sample encyclopedia page
    everywhere, and on which Readability finds an article. *)
Definition reading_platform : Platform := {|
  URL_new := Examples.url_new;
  URL_hostname := fun _ => Ret "en.wikipedia.org";
  DOMPurify_sanitize := fun html => html;
  JSDOM := fun _ => Examples.wiki_page;
  Readability_parse := fun _ =>
    Some {| article_title := "Alan Turing"; article_siteName := None;
            article_content := "<p>Alan Turing was a logician</p>";
            article_textContent := "Alan Turing was a logician";
            article_byline := None; article_excerpt := None |};
  turndown := fun _ html => html;
  network := fun _ =>
    Ret {| ok := true; response_status := 200; statusText := "OK";
           response_text := "<html></html>" |}
|}.

Definition article_url : string := "https://en.wikipedia.org/wiki/Alan_Turing".

(** A watch page whose title is the generic one. *)
Definition generic_page : LegacyVideo.ScrapedPage :=
  {| LegacyVideo.watch :=
       {| og_title := None; document_title := "YouTube"; itemprop_name := None;
          og_description := Some "A short demo"; ytInitialData := YtFound None |};
     LegacyVideo.og_site_name := Some "YouTube" |}.

Definition sources (race : TranscriptRace) : LegacyVideo.Sources :=
  {| LegacyVideo.scraped := fun _ => Some generic_page;
     LegacyVideo.oembed_of := fun _ =>
       Some {| oembed_title := Some "Demo"; author_name := Some "Chan" |};
     LegacyVideo.race := fun _ => race |}.

(** A page whose infobox has one complete row, with the header
    [__proto__]. *)
Definition proto_page : DOM.Document :=
  {| DOM.documentElement :=
       DOM.Element "html" []
         [DOM.Element "body" []
            [DOM.Element "table" [("class", "infobox")]
               [DOM.Element "tbody" [] [Examples.row "__proto__" "x"]]]] |}.

Definition segments : list TranscriptItem :=
  [{| offset := Number.Finite 0; text := "hello" |};
   {| offset := Number.Finite 61500; text := "world" |}].

Definition doc (id url : string) (status : Dashboard.Status) : Dashboard.DocItem :=
  {| Dashboard.id := id; Dashboard.url := url; Dashboard.status := status;
     Dashboard.result := None; Dashboard.error_message := None;
     Dashboard.createdAt := None |}.

Definition history_row (id : string) : Dashboard.HistoryRow :=
  {| Dashboard.h_id := id; Dashboard.h_url := article_url;
     Dashboard.h_createdAt := None; Dashboard.h_title := Some "Alan Turing";
     Dashboard.h_markdown := None; Dashboard.h_siteName := None |}.

(** The surroundings of a request of the sample user for which the store
    draws the identifier [id]. *)
Definition request_world (id : string) : World :=
  {| currentUser := Some Examples.alice;
     count_answers := true; upsert_answers := true; create_answers := true;
     find_answers := true; update_answers := true;
     fresh_id := id; randomUUID := "0000";
     video := Examples.plain_sources; transcript_race := fun _ => TimedOut |}.

(** A store with 19 documents of the sample user. *)
Definition stored (i : nat) : DocumentRow :=
  {| doc_id := "old_" +:+ String (ascii_of_nat (97 + i)) EmptyString;
     doc_url := article_url; doc_title := "Alan Turing";
     doc_siteName := "en.wikipedia.org"; doc_markdown := Some "# Alan Turing";
     doc_userId := "user_1" |}.

Definition nineteen : Database :=
  {| documents := list_to_map ((fun i => (doc_id (stored i), stored i)) <$> seq 0 19);
     users := ∅ |}.

(** A document of the home page that was just added, and the page with
    it alone. *)
Definition draft : Home.DocItem :=
  {| Home.id := "tmp-1"; Home.url := Examples.video_url; Home.status := Home.pending;
     Home.result := None; Home.error_message := None |}.

Definition page : Home.State :=
  {| Home.inputUrls := ""; Home.documents := [draft]; Home.selectedDocId := None |}.

(** The surroundings of a request whose save fails. *)
Definition unsaved_world : World :=
  {| currentUser := Some Examples.alice;
     count_answers := true; upsert_answers := true; create_answers := false;
     find_answers := true; update_answers := true;
     fresh_id := "doc_1"; randomUUID := "0000";
     video := Examples.plain_sources; transcript_race := fun _ => TimedOut |}.

(** [processDoc] for the draft, served by the authenticated routes on the
    sample platform over the empty store. *)
Definition visit (first second : World) : Home.State * Database :=
  Home.processDoc (@EndToEnd.routes Examples.platform first second) draft page
    Examples.empty_db.

End MoreExamples.

(** * Properties

    ** Facts about the string functions *)

Module JSFacts.

Import JS.

Lemma or_else_empty (s : string) : or_else s "" = s.
Proof. unfold or_else. now destruct s. Qed.

Lemma truthy_ne (s : string) : truthy s = true ↔ s ≠ "".
Proof. destruct s; simpl; split; congruence. Qed.

Lemma nonempty_truthy (s : string) : s ≠ "" ↔ truthy s = true.
Proof. destruct s; simpl; split; congruence. Qed.

Lemma truthy_opt_or (url : string) : truthy url = true → opt_or (Some url) "" = url.
Proof. now destruct url. Qed.

Lemma app_cons (x : ascii) (a b : string) : String x a +:+ b = String x (a +:+ b).
Proof. reflexivity. Qed.

Lemma app_nil_l (b : string) : "" +:+ b = b.
Proof. reflexivity. Qed.

Lemma app_assoc (a b c : string) : (a +:+ b) +:+ c = a +:+ b +:+ c.
Proof.
  induction a as [|x a IH]; [reflexivity|].
  now rewrite !app_cons, IH.
Qed.

Lemma app_nil_r (a : string) : a +:+ "" = a.
Proof.
  induction a as [|x a IH]; [reflexivity|].
  now rewrite app_cons, IH.
Qed.

Lemma length_app (a b : string) :
  String.length (a +:+ b) = String.length a + String.length b.
Proof.
  induction a as [|x a IH]; [reflexivity|].
  rewrite ?app_cons. simpl. now rewrite IH.
Qed.

Lemma startsWith_nil (s : string) : startsWith s "" = true.
Proof. destruct s; reflexivity. Qed.

Lemma startsWith_app (p s : string) : startsWith (p +:+ s) p = true.
Proof.
  induction p as [|x p IH].
  - apply startsWith_nil.
  - rewrite ?app_cons. simpl. rewrite Ascii.eqb_refl. exact IH.
Qed.

Lemma startsWith_app_l (a b p : string) :
  startsWith a p = true -> startsWith (a +:+ b) p = true.
Proof.
  revert a; induction p as [|x p IH]; intros a Ha.
  - apply startsWith_nil.
  - destruct a as [|y a]; simpl in *; [discriminate|].
    apply andb_true_iff in Ha as [Hxy Ha]. rewrite ?app_cons. simpl.
    rewrite Hxy. now apply IH.
Qed.

Lemma slice_app (p s : string) : slice (String.length p) (p +:+ s) = s.
Proof.
  induction p as [|x p IH]; [now destruct s|].
  rewrite ?app_cons. simpl. exact IH.
Qed.

Lemma includes_startsWith (s p : string) :
  includes s p = false -> startsWith s p = false.
Proof. destruct s; simpl; intros Hs; apply orb_false_iff in Hs; tauto. Qed.

Lemma includes_cons (x : ascii) (s p : string) :
  includes (String x s) p = startsWith (String x s) p || includes s p.
Proof. reflexivity. Qed.

Lemma includes_nil (s : string) : includes s "" = true.
Proof. destruct s; reflexivity. Qed.

(** An occurrence in the second part is an occurrence in the whole. *)
Lemma includes_app_r (a s p : string) :
  includes s p = true -> includes (a +:+ s) p = true.
Proof.
  intros Hs. induction a as [|x a IH]; [exact Hs|].
  rewrite ?app_cons. simpl. rewrite IH. apply orb_true_r.
Qed.

(** An occurrence in the first part is an occurrence in the whole. *)
Lemma includes_app_l (a b p : string) :
  includes a p = true -> includes (a +:+ b) p = true.
Proof.
  induction a as [|x a IH]; intros Ha.
  - simpl in Ha. rewrite orb_false_r in Ha.
    destruct p; [apply includes_nil | discriminate].
  - rewrite includes_cons in Ha. apply orb_true_iff in Ha as [Ha|Ha].
    + rewrite app_cons, includes_cons, <- app_cons, (startsWith_app_l _ _ _ Ha).
      reflexivity.
    + rewrite app_cons, includes_cons, (IH Ha). apply orb_true_r.
Qed.

Lemma includes_literal (a p b : string) : includes (a +:+ p +:+ b) p = true.
Proof.
  apply includes_app_r. apply includes_app_l.
  destruct p; simpl; [reflexivity|].
  rewrite Ascii.eqb_refl. simpl.
  generalize (startsWith_app p ""). rewrite app_nil_r. intros ->. reflexivity.
Qed.

Lemma replace_unfold (s p r : string) :
  replace s p r =
  if startsWith s p then r +:+ slice (String.length p) s
  else match s with
       | EmptyString => EmptyString
       | String c s' => String c (replace s' p r)
       end.
Proof. destruct s; reflexivity. Qed.

(** Without an occurrence, [replace] leaves the string as it is. *)
Lemma replace_absent (s p r : string) : includes s p = false -> replace s p r = s.
Proof.
  induction s as [|x s IH]; simpl; intros Hs; apply orb_false_iff in Hs as [Hp Hs].
  - destruct p; [discriminate | reflexivity].
  - rewrite Hp. now rewrite IH.
Qed.

(** A string that starts with the pattern loses exactly this occurrence. *)
Lemma replace_head (p s r : string) : replace (p +:+ s) p r = r +:+ s.
Proof.
  now rewrite replace_unfold, startsWith_app, slice_app.
Qed.

(** A pattern at the head of [t +:+ u] lies within [t], or [t] is a piece
    of the pattern. *)
Lemma startsWith_app_cases (t u p : string) :
  startsWith (t +:+ u) p = true ->
  startsWith t p = true \/ (forall c, has_char c t = true -> has_char c p = true).
Proof.
  revert p; induction t as [|x t IH]; intros p Hp.
  - right. intros c Hc. discriminate.
  - destruct p as [|y p]; [left; reflexivity|].
    rewrite ?app_cons in Hp. simpl in Hp. apply andb_true_iff in Hp as [Hxy Hp].
    destruct (IH _ Hp) as [Ht|Ht].
    + left. simpl. now rewrite Hxy.
    + right. intros c Hc. simpl in *.
      apply Ascii.eqb_eq in Hxy. subst y.
      apply orb_true_iff in Hc as [Hc|Hc]; [now rewrite Hc|].
      rewrite (Ht _ Hc). apply orb_true_r.
Qed.

Lemma has_char_app (c : ascii) (a b : string) :
  has_char c (a +:+ b) = has_char c a || has_char c b.
Proof.
  induction a as [|x a IH]; [reflexivity|].
  rewrite ?app_cons. simpl. now rewrite IH, orb_assoc.
Qed.

(** A character foreign to the pattern separates the occurrences: the
    pattern occurs in [a c b] exactly when it occurs in [a] or in [b]. *)
Lemma startsWith_sep (c : ascii) (a b p : string) :
  has_char c p = false -> startsWith (a +:+ String c b) p = startsWith a p.
Proof.
  revert a; induction p as [|y p IH]; intros a Hc.
  - now rewrite !startsWith_nil.
  - simpl in Hc. apply orb_false_iff in Hc as [Hy Hc].
    destruct a as [|x a].
    + rewrite ?app_nil_l. simpl. rewrite Ascii.eqb_sym, Hy. reflexivity.
    + rewrite ?app_cons. simpl. now rewrite IH.
Qed.

Lemma includes_sep (c : ascii) (a b p : string) :
  has_char c p = false ->
  includes (a +:+ String c b) p = includes a p || includes b p.
Proof.
  intros Hc. induction a as [|x a IH].
  - pose proof (startsWith_sep c "" b p Hc) as E. rewrite app_nil_l in E.
    rewrite app_nil_l, includes_cons, E. now destruct p.
  - rewrite app_cons, !includes_cons, <- app_cons.
    rewrite (startsWith_sep c _ b p Hc), IH. now rewrite orb_assoc.
Qed.

(** A first character that is not the pattern's can be dropped. *)
Lemma includes_skip (c y : ascii) (b p : string) :
  Ascii.eqb c y = false -> includes (String c b) (String y p) = includes b (String y p).
Proof. intros Hc. simpl. now rewrite Hc. Qed.

Lemma startsWith_snoc (c : ascii) (a p : string) :
  ends_with p c = false -> startsWith (a +:+ String c "") p = startsWith a p.
Proof.
  revert a; induction p as [|y p IH]; intros a Hc.
  - now rewrite !startsWith_nil.
  - destruct a as [|x a].
    + rewrite app_nil_l. simpl. destruct p as [|z p]; simpl in *.
      * rewrite Ascii.eqb_sym, Hc. reflexivity.
      * apply andb_false_r.
    + rewrite app_cons. simpl. destruct p as [|z p].
      * now rewrite !startsWith_nil.
      * now rewrite IH.
Qed.

(** A last character that is not the pattern's can be dropped. *)
Lemma includes_snoc (c : ascii) (a p : string) :
  ends_with p c = false -> includes (a +:+ String c "") p = includes a p.
Proof.
  intros Hc. induction a as [|x a IH].
  - pose proof (startsWith_snoc c "" p Hc) as E. rewrite app_nil_l in E.
    rewrite app_nil_l, includes_cons, E. now destruct p.
  - rewrite app_cons, !includes_cons, <- app_cons.
    now rewrite (startsWith_snoc c _ p Hc), IH.
Qed.

Lemma app_snoc_cons (a : string) (x : ascii) (r : string) :
  a +:+ String x r = (a +:+ String x "") +:+ r.
Proof. now rewrite app_assoc. Qed.

(** The pattern written right after a string that does not contain it and
    ends with a character foreign to it is the first occurrence: replacing
    it by nothing gives the string back. *)
Lemma replace_appended (c : ascii) (h p : string) :
  has_char c p = false ->
  includes (h +:+ String c "") p = false ->
  replace ((h +:+ String c "") +:+ p) p "" = h +:+ String c "".
Proof.
  intros Hc. induction h as [|x h IH]; intros Hh.
  - rewrite app_nil_l in *. rewrite app_cons, app_nil_l, replace_unfold.
    assert (startsWith (String c p) p = false) as ->.
    { destruct (startsWith (String c p) p) eqn:E; [|reflexivity].
      change (String c p) with (String c "" +:+ p) in E.
      destruct (startsWith_app_cases _ _ _ E) as [E'|E'].
      - now rewrite (includes_startsWith _ _ Hh) in E'.
      - rewrite E' in Hc; [discriminate|]. simpl. now rewrite Ascii.eqb_refl. }
    pose proof (replace_head p "" "") as E. rewrite app_nil_r in E.
    now rewrite E.
  - rewrite !app_cons in *. rewrite includes_cons in Hh.
    apply orb_false_iff in Hh as [Hs Hh].
    rewrite replace_unfold.
    assert (startsWith (String x ((h +:+ String c "") +:+ p)) p = false) as ->.
    { destruct (startsWith (String x ((h +:+ String c "") +:+ p)) p) eqn:E;
        [|reflexivity].
      rewrite <- app_cons in E.
      destruct (startsWith_app_cases _ _ _ E) as [E'|E'].
      - now rewrite Hs in E'.
      - rewrite E' in Hc; [discriminate|].
        simpl. rewrite has_char_app. simpl. rewrite Ascii.eqb_refl.
        now rewrite orb_true_r, orb_true_r. }
    now rewrite IH.
Qed.

Lemma slice_length (n : nat) (s : string) :
  String.length (slice n s) = String.length s - n.
Proof.
  revert s; induction n as [|n IH]; intros s; simpl; [lia|].
  destruct s; simpl; [reflexivity | apply IH].
Qed.

Lemma startsWith_length (s p : string) :
  startsWith s p = true → String.length p ≤ String.length s.
Proof.
  revert s; induction p as [|y p IH]; intros s Hs; simpl; [lia|].
  destruct s as [|x s]; simpl in *; [discriminate|].
  apply andb_true_iff in Hs as [_ Hs]. apply IH in Hs. lia.
Qed.

(** [replace] by nothing shortens the string by one pattern when the
    pattern occurs, and leaves it alone otherwise: one occurrence goes, not
    more. *)
Lemma replace_length (s p : string) :
  (includes s p = true →
     String.length p ≤ String.length s ∧
     String.length (replace s p "") = String.length s - String.length p) ∧
  (includes s p = false → replace s p "" = s).
Proof.
  split; [|apply replace_absent].
  induction s as [|x s IH]; rewrite replace_unfold.
  - destruct p; simpl; [lia | discriminate].
  - rewrite includes_cons.
    destruct (startsWith (String x s) p) eqn:Hs.
    + intros _. apply startsWith_length in Hs as Hlen.
      rewrite app_nil_l, slice_length. lia.
    + simpl. intros Hin. destruct (IH Hin) as [Hlen ->]. lia.
Qed.

Lemma startsWith_within (s t q : string) :
  String.length q ≤ String.length s → startsWith (s +:+ t) q = startsWith s q.
Proof.
  revert s; induction q as [|y q IH]; intros s Hlen.
  - now rewrite !startsWith_nil.
  - destruct s as [|x s]; simpl in Hlen; [lia|].
    rewrite app_cons. simpl. rewrite IH by lia. reflexivity.
Qed.

(** The pattern right after a string in which, even with all but the last
    character of the pattern added, the pattern does not occur, is the first
    occurrence: it is the one [replace] removes. *)
Lemma replace_first (a b p : string) (c : ascii) :
  includes (a +:+ p) (p +:+ String c "") = false →
  replace (a +:+ (p +:+ String c "") +:+ b) (p +:+ String c "") "" = a +:+ b.
Proof.
  induction a as [|x a IH]; intros Hfirst.
  - rewrite !app_nil_l. now rewrite replace_head.
  - rewrite !app_cons in *. rewrite includes_cons in Hfirst.
    apply orb_false_iff in Hfirst as [Hs Hfirst].
    rewrite replace_unfold.
    assert (startsWith (String x (a +:+ (p +:+ String c "") +:+ b)) (p +:+ String c "")
            = false) as ->.
    { rewrite (app_assoc p), <- (app_assoc a p), <- app_cons.
      rewrite startsWith_within; [exact Hs|].
      rewrite !length_app. simpl. rewrite length_app. lia. }
    now rewrite IH.
Qed.

End JSFacts.

(** ** The placeholder and the header of a video document *)

Module PlaceholderFacts.

Import JS JSFacts.

(** Drops the leading characters of a literal that cannot start the
    placeholder. *)
Ltac peel :=
  repeat (rewrite ?app_cons, ?app_nil_l;
          match goal with
          | |- context [includes (String ?c ?b) (String ?y ?p)] =>
              rewrite (includes_skip c y b p) by reflexivity
          end).

Lemma includes_header (t s u d : string) :
  includes (youtube_header t s u d) placeholder =
  includes t placeholder || includes s placeholder ||
  includes u placeholder || includes d placeholder.
Proof.
  unfold youtube_header, placeholder, LF. simpl ascii_of_nat.
  peel.
  rewrite (includes_sep _ t) by reflexivity.
  peel.
  rewrite (app_snoc_cons s), (includes_sep "|"%char) by reflexivity.
  rewrite includes_snoc by reflexivity.
  peel.
  rewrite (includes_sep ")"%char u) by reflexivity.
  peel.
  destruct (truthy d) eqn:Hd.
  - peel. rewrite (includes_sep _ d) by reflexivity.
    simpl (includes (String _ "") _).
    now rewrite !orb_false_r, !orb_assoc.
  - destruct d; [|discriminate]. simpl.
    now rewrite !orb_false_r, !orb_assoc.
Qed.

(** [s] ends with [e]. *)
Lemma ends_app (e a b : string) :
  (exists h, b = h +:+ e) -> exists h, a +:+ b = h +:+ e.
Proof. intros [h ->]. exists (a +:+ h). now rewrite app_assoc. Qed.

Lemma header_ends_LF (t s u d : string) :
  exists h, youtube_header t s u d = h +:+ LF.
Proof.
  unfold youtube_header. destruct (truthy d).
  - repeat apply ends_app. now exists "".
  - rewrite app_nil_r. repeat apply ends_app. now exists "".
Qed.

(** When the header does not contain the placeholder, the continuation's
    [replace] removes exactly the placeholder written after it. *)
Lemma replace_after_header (t s u d : string) :
  includes (youtube_header t s u d) placeholder = false ->
  replace (youtube_header t s u d +:+ placeholder) placeholder "" =
  youtube_header t s u d.
Proof.
  destruct (header_ends_LF t s u d) as [h ->].
  apply replace_appended. reflexivity.
Qed.

(** No occurrence of the placeholder can begin in the header and end in a
    block appended to it. *)
Lemma includes_header_block (t s u d block : string) :
  includes (youtube_header t s u d +:+ LF +:+ block) placeholder =
  includes (youtube_header t s u d) placeholder || includes block placeholder.
Proof. apply includes_sep. reflexivity. Qed.

End PlaceholderFacts.

(** ** The image rule of the Markdown serializer *)

Module ImageRule.

Import JS Legacy.

(** C8. The image rule emits nothing for an [img] whose [src] is absent or
    empty, and [![alt](src)] for a non-empty [src], where an absent or empty
    [alt] gives [![](src)]; the output is empty exactly when the source is,
    so an image token never has an empty target. *)
Theorem img_rule_output (content : string) (node : DOM.Node) :
  (opt_or (DOM.getAttribute node "src") "" = "" -> img_replacement content node = "") /\
  (forall src, DOM.getAttribute node "src" = Some src -> src <> "" ->
     img_replacement content node =
       "![" +:+ opt_or (DOM.getAttribute node "alt") "" +:+ "](" +:+ src +:+ ")") /\
  (forall src, DOM.getAttribute node "src" = Some src -> src <> "" ->
     opt_or (DOM.getAttribute node "alt") "" = "" ->
     img_replacement content node = "![](" +:+ src +:+ ")") /\
  (img_replacement content node = "" <-> opt_or (DOM.getAttribute node "src") "" = "").
Proof.
  unfold img_replacement.
  repeat split.
  - intros ->. reflexivity.
  - intros src -> Hsrc. destruct src; [contradiction|]. reflexivity.
  - intros src -> Hsrc ->. destruct src; [contradiction|]. reflexivity.
  - destruct (opt_or (DOM.getAttribute node "src") ""); simpl; [reflexivity|].
    discriminate.
  - now intros ->.
Qed.

(** The rule at an [img] with a source and no [alt], and at one without. *)
Lemma img_rule_output_witness :
  img_replacement "" (DOM.Element "img" [("src", "a.png")] []) = "![](a.png)" /\
  img_replacement "" (DOM.Element "img" [("alt", "logo"); ("src", "")] []) = "".
Proof.
  split.
  - apply (proj1 (proj2 (proj2
      (img_rule_output "" (DOM.Element "img" [("src", "a.png")] []))))) with (src := "a.png");
      [reflexivity | discriminate | reflexivity].
  - apply (proj1 (img_rule_output "" (DOM.Element "img" [("alt", "logo"); ("src", "")] []))).
    reflexivity.
Defined.

End ImageRule.

(** ** Doubles *)

Module NumberFacts.

Import Number.
Local Open Scope Q_scope.

Lemma pow2_pos (e : Z) : 0 < pow2 e.
Proof. apply Qpower_0_lt. reflexivity. Qed.

Lemma pow2_plus (a b : Z) : pow2 (a + b) == pow2 a * pow2 b.
Proof. apply Qpower_plus. discriminate. Qed.





Lemma pow2_succ (a : Z) : pow2 (a + 1) == 2 * pow2 a.
Proof. rewrite pow2_plus. change (pow2 1) with 2. ring. Qed.



(** The exponent *)




(** Rounding to an integer *)

Lemma round_half_even_cases (q : Q) :
  round_half_even q = Qfloor q /\ q - inject_Z (Qfloor q) <= 1 # 2 \/
  round_half_even q = (Qfloor q + 1)%Z /\ 1 # 2 <= q - inject_Z (Qfloor q).
Proof.
  unfold round_half_even.
  destruct (Qcompare_spec (q - inject_Z (Qfloor q)) (1 # 2)) as [H|H|H].
  - destruct (Z.even (Qfloor q)); [left|right]; split; try reflexivity; lra.
  - left. split; [reflexivity | lra].
  - right. split; [reflexivity | lra].
Qed.

Lemma round_half_even_near (q : Q) :
  q - (1 # 2) <= inject_Z (round_half_even q) /\
  inject_Z (round_half_even q) <= q + (1 # 2).
Proof.
  pose proof (Qfloor_le q) as H1. pose proof (Qlt_floor q) as H2.
  rewrite inject_Z_plus in H2. change (inject_Z 1) with 1 in H2.
  destruct (round_half_even_cases q) as [[-> H]|[-> H]];
    rewrite ?inject_Z_plus; change (inject_Z 1) with 1; split; lra.
Qed.

Lemma round_half_even_ge (q : Q) (k : Z) :
  inject_Z k <= q -> (k <= round_half_even q)%Z.
Proof.
  intros H. apply Qfloor_resp_le in H. rewrite Qfloor_Z in H.
  destruct (round_half_even_cases q) as [[-> _]|[-> _]]; lia.
Qed.

Lemma round_half_even_le (q : Q) (k : Z) :
  q <= inject_Z k -> (round_half_even q <= k)%Z.
Proof.
  intros H.
  pose proof (Qfloor_le q) as H1. pose proof (Qlt_floor q) as H2.
  destruct (round_half_even_cases q) as [[-> _]|[-> Hhalf]].
  - assert (inject_Z (Qfloor q) <= inject_Z k) as H3 by lra.
    rewrite <- Zle_Qle in H3. exact H3.
  - assert (inject_Z (Qfloor q) < inject_Z k) as H3 by lra.
    rewrite <- Zlt_Qlt in H3. lia.
Qed.


Lemma round_half_even_Z (k : Z) (q : Q) : q == inject_Z k -> round_half_even q = k.
Proof.
  intros H. apply Z.le_antisymm.
  - apply round_half_even_le. lra.
  - apply round_half_even_ge. lra.
Qed.

(** Rounding to a double *)

Lemma round_positive_nearest (q r : Q) :
  round_positive q = Some r -> r == nearest q.
Proof.
  unfold round_positive.
  destruct (Qle_bool _ _); [discriminate|].
  intros [= <-]. apply Qred_correct.
Qed.



Lemma div_pow2 (q : Q) (t : Z) : q / pow2 t * pow2 t == q.
Proof. pose proof (pow2_pos t). field. lra. Qed.

Lemma nearest_near (q : Q) :
  q - pow2 (quantum q) * (1 # 2) <= nearest q /\
  nearest q <= q + pow2 (quantum q) * (1 # 2).
Proof.
  unfold nearest. set (t := quantum q).
  pose proof (pow2_pos t) as Hp.
  destruct (round_half_even_near (q / pow2 t)) as [H1 H2].
  pose proof (div_pow2 q t) as Hq.
  split.
  - assert (E : q - pow2 t * (1 # 2) == (q / pow2 t - (1 # 2)) * pow2 t) by (field; lra).
    rewrite E. apply Qmult_le_compat_r; lra.
  - assert (E : q + pow2 t * (1 # 2) == (q / pow2 t + (1 # 2)) * pow2 t) by (field; lra).
    rewrite E. apply Qmult_le_compat_r; lra.
Qed.

















(** Rounding below [pow2 53] *)












End NumberFacts.

(** ** Transcript timestamps *)

Module Timestamps.

Import JS.







(** Outside the range: an offset below 0 gives a minus sign in both parts,
    one that is not a number gives [NaN] twice, and minutes from 10^21 on
    are written with an exponent. *)
Lemma timestamp_outside :
  timestamp {| offset := Number.Finite (-1); text := "" |} = "-1:-1" /\
  timestamp {| offset := Number.Finite (-125000); text := "" |} = "-3:-5" /\
  timestamp {| offset := Number.NaN; text := "" |} = "NaN:NaN" /\
  timestamp {| offset := Number.Infinity false; text := "" |} = "Infinity:NaN" /\
  timestamp {| offset := Number.Finite (inject_Z (2 ^ 86)); text := "" |} =
    "1.2895208742556045e+21:28".
Proof. vm_compute. repeat split. Qed.

End Timestamps.

(** ** Queries on the DOM *)

Module DOMFacts.

Import DOM.

(** For a single simple selector the document's query is the filter of
    the nodes in document order, as the element's query is. *)
Lemma select_single (s : Simple) :
  ∀ n, select n [s] = List.filter (matches s) (n :: descendants n).
Proof.
  fix IH 1. intros [d | tag attrs cs].
  - simpl. now destruct (matches s (Text d)).
  - change (select (Element tag attrs cs) [s]) with
      ((if matches s (Element tag attrs cs) then [Element tag attrs cs] else []) ++
       (fix go (l : list Node) : list Node :=
          match l with
          | [] => []
          | c :: l' => select c [s] ++ go l'
          end) cs).
    change (descendants (Element tag attrs cs)) with
      ((fix go (l : list Node) : list Node :=
          match l with
          | [] => []
          | c :: l' => (c :: descendants c) ++ go l'
          end) cs).
    assert (Hcs :
      (fix go (l : list Node) : list Node :=
         match l with
         | [] => []
         | c :: l' => select c [s] ++ go l'
         end) cs =
      List.filter (matches s)
        ((fix go (l : list Node) : list Node :=
            match l with
            | [] => []
            | c :: l' => (c :: descendants c) ++ go l'
            end) cs)).
    { induction cs as [|c cs IHcs]; [reflexivity|].
      rewrite List.filter_app, <- IHcs, <- IH. reflexivity. }
    rewrite Hcs. simpl List.filter.
    now destruct (matches s (Element tag attrs cs)).
Qed.

End DOMFacts.

(** ** Link and image extraction *)

Module ExtractionFacts.

Import Extraction.

Section Loops.

Context `{Platform}.

(** The [try]/[catch] around the URL constructor turns a throw into a
    skipped element. *)
Lemma try_resolve (v baseUrl : string) :
  try_catch (u ← URL_new v (Some baseUrl); mret (Some u)) (fun _ => mret None) =
  Ret (match URL_new v (Some baseUrl) with Ret u => Some u | Throw _ => None end).
Proof. now destruct (URL_new v (Some baseUrl)). Qed.

(** One turn of the loop of [extractLinks], without the exceptions. *)
Lemma extractLinks_body_resolved (baseUrl : string) (vars : LinkVars) (el : DOM.Node) :
  extractLinks_body baseUrl vars el =
  Ret (if Nat.leb 100 (length (links vars)) then Break vars
       else match resolved "href" baseUrl el with
            | None => Continue vars
            | Some u =>
                if JS.startsWith u "#" || bool_decide (u ∈ seenHrefs vars)
                then Continue vars
                else
                  let seen := {[ u ]} ∪ seenHrefs vars in
                  if JS.truthy (JS.trim (DOM.textContent el)) && JS.truthy u
                  then Continue {| links := links vars ++
                                     [ {| link_text := JS.trim (DOM.textContent el);
                                          link_href := u |} ];
                                   seenHrefs := seen |}
                  else Continue {| links := links vars; seenHrefs := seen |}
            end).
Proof.
  unfold extractLinks_body, resolved.
  destruct (Nat.leb 100 (length (links vars))); [reflexivity|].
  destruct (DOM.getAttribute el "href") as [v|]; [|reflexivity].
  destruct (JS.truthy v); [|reflexivity]. simpl negb. cbv iota.
  rewrite try_resolve. simpl.
  destruct (URL_new v (Some baseUrl)) as [u|]; [|reflexivity].
  destruct (JS.startsWith u "#" || bool_decide (u ∈ seenHrefs vars)); [reflexivity|].
  assert (JS.or_else (JS.trim (DOM.textContent el)) "" = JS.trim (DOM.textContent el)) as ->.
  { unfold JS.or_else. now destruct (JS.trim (DOM.textContent el)). }
  now destruct (JS.truthy (JS.trim (DOM.textContent el)) && JS.truthy u).
Qed.

Lemma links_invariant_initial :
  links_invariant {| links := []; seenHrefs := ∅ |}.
Proof.
  split; [simpl; lia|]. split; [constructor|].
  intros l Hl. simpl in Hl. inversion Hl.
Qed.

(** The loop never throws, keeps its invariant, and only appends entries of
    the anchors it visits, in their order. *)
Lemma extractLinks_loop (baseUrl : string) (els : list DOM.Node) :
  ∀ vars, links_invariant vars →
    ∃ vars' extra,
      for_of (extractLinks_body baseUrl) vars els = Ret vars' ∧
      links_invariant vars' ∧
      links vars' = links vars ++ extra ∧
      sublist extra (omap (link_of baseUrl) els).
Proof.
  induction els as [|el els IH]; intros vars Hinv.
  - exists vars, []. simpl. rewrite app_nil_r. repeat split; try apply Hinv.
    constructor.
  - simpl for_of. rewrite extractLinks_body_resolved.
    destruct (Nat.leb 100 (length (links vars))) eqn:Hcap.
    { exists vars, []. rewrite app_nil_r. repeat split; try apply Hinv.
      apply sublist_nil_l. }
    apply Nat.leb_gt in Hcap.
    assert (Hskip : ∀ extra1,
               sublist extra1 (omap (link_of baseUrl) els) →
               sublist extra1 (omap (link_of baseUrl) (el :: els))).
    { intros extra1 Hsub. simpl.
      destruct (link_of baseUrl el); [now apply sublist_cons | exact Hsub]. }
    destruct (resolved "href" baseUrl el) as [u|] eqn:Hres.
    2:{ destruct (IH vars Hinv) as (vars' & extra & Hrun & Hinv' & Hlinks & Hsub).
        exists vars', extra. eauto. }
    destruct (JS.startsWith u "#" || bool_decide (u ∈ seenHrefs vars)) eqn:Hseen.
    { destruct (IH vars Hinv) as (vars' & extra & Hrun & Hinv' & Hlinks & Hsub).
      exists vars', extra. eauto. }
    apply orb_false_iff in Hseen as [_ Hseen]. apply bool_decide_eq_false in Hseen.
    destruct Hinv as (Hlen & Hnodup & Hsubset).
    destruct (JS.truthy (JS.trim (DOM.textContent el)) && JS.truthy u) eqn:Htext.
    + apply andb_true_iff in Htext as [Htext _].
      set (l := {| link_text := JS.trim (DOM.textContent el); link_href := u |}).
      destruct (IH {| links := links vars ++ [l]; seenHrefs := {[u]} ∪ seenHrefs vars |})
        as (vars' & extra & Hrun & Hinv' & Hlinks & Hsub).
      { split; [simpl; rewrite length_app; simpl; lia|]. split.
        - simpl. rewrite fmap_app. apply NoDup_app. split; [exact Hnodup|]. split.
          + intros x Hx Hx'. simpl in Hx'. apply list_elem_of_singleton in Hx'. subst x.
            apply list_elem_of_fmap in Hx as (l0 & -> & Hl0).
            apply Hseen. now apply Hsubset.
          + simpl. apply NoDup_singleton.
        - intros l0 Hl0. simpl in *. apply elem_of_app in Hl0 as [Hl0|Hl0].
          + apply elem_of_union_r. now apply Hsubset.
          + apply list_elem_of_singleton in Hl0. subst l0. simpl. set_solver. }
      exists vars', (l :: extra). split; [exact Hrun|]. split; [exact Hinv'|]. split.
      * rewrite Hlinks. simpl. now rewrite <- app_assoc.
      * simpl. unfold link_of at 1. rewrite Hres, Htext. now apply sublist_skip.
    + destruct (IH {| links := links vars; seenHrefs := {[u]} ∪ seenHrefs vars |})
        as (vars' & extra & Hrun & Hinv' & Hlinks & Hsub).
      { split; [exact Hlen|]. split; [exact Hnodup|].
        intros l0 Hl0. simpl in *. apply elem_of_union_r. now apply Hsubset. }
      exists vars', extra. eauto.
Qed.

(** Once a hundred links are collected the loop has ended, whatever
    follows. *)
Lemma extractLinks_loop_full (baseUrl : string) (els more : list DOM.Node) :
  ∀ vars vars',
    for_of (extractLinks_body baseUrl) vars els = Ret vars' →
    100 ≤ length (links vars') →
    for_of (extractLinks_body baseUrl) vars (els ++ more) = Ret vars'.
Proof.
  induction els as [|el els IH]; intros vars vars' Hrun Hfull.
  - simpl in Hrun. injection Hrun as ->. destruct more as [|el more]; [reflexivity|].
    simpl. rewrite extractLinks_body_resolved.
    now rewrite (proj2 (Nat.leb_le _ _) Hfull).
  - simpl in *. destruct (extractLinks_body baseUrl vars el) as [[st|st]|e];
      [now apply IH | exact Hrun | discriminate].
Qed.

Lemma extractLinks_loop_at_cap (baseUrl : string) (els : list DOM.Node) (vars : LinkVars) :
  100 ≤ length (links vars) →
  for_of (extractLinks_body baseUrl) vars els = Ret vars.
Proof.
  intros Hfull. apply (extractLinks_loop_full baseUrl [] els vars vars); auto.
Qed.

(** Anchors whose [href] does not resolve leave no trace in the loop. *)
Lemma extractLinks_loop_resolvable (baseUrl : string) (els : list DOM.Node) :
  ∀ vars,
    for_of (extractLinks_body baseUrl) vars els =
    for_of (extractLinks_body baseUrl) vars
      (filter (λ el, is_Some (resolved "href" baseUrl el)) els).
Proof.
  induction els as [|el els IH]; intros vars; [reflexivity|].
  destruct (Nat.leb 100 (length (links vars))) eqn:Hcap.
  { apply Nat.leb_le in Hcap. now rewrite !extractLinks_loop_at_cap. }
  destruct (resolved "href" baseUrl el) as [u|] eqn:Hres.
  - rewrite filter_cons_True by (rewrite Hres; eauto).
    simpl. destruct (extractLinks_body baseUrl vars el) as [[st|st]|e]; auto.
  - rewrite filter_cons_False by (rewrite Hres; apply is_Some_None).
    simpl. rewrite extractLinks_body_resolved, Hcap, Hres. apply IH.
Qed.

(** The list of links only grows in the loop. *)
Lemma extractLinks_loop_grows (baseUrl : string) (els : list DOM.Node) :
  ∀ vars vars',
    for_of (extractLinks_body baseUrl) vars els = Ret vars' →
    ∃ extra, links vars' = links vars ++ extra.
Proof.
  induction els as [|el els IH]; intros vars vars' Hrun.
  - injection Hrun as <-. exists []. now rewrite app_nil_r.
  - simpl in Hrun. rewrite extractLinks_body_resolved in Hrun.
    destruct (Nat.leb 100 (length (links vars))).
    { injection Hrun as <-. exists []. now rewrite app_nil_r. }
    destruct (resolved "href" baseUrl el) as [u|]; [|now apply IH].
    destruct (JS.startsWith u "#" || bool_decide (u ∈ seenHrefs vars)); [now apply IH|].
    cbv zeta in Hrun.
    destruct (JS.truthy (JS.trim (DOM.textContent el)) && JS.truthy u).
    + destruct (IH _ _ Hrun) as (extra & Hextra). simpl in Hextra.
      rewrite <- app_assoc in Hextra. eauto.
    + destruct (IH _ _ Hrun) as (extra & Hextra). simpl in Hextra. eauto.
Qed.

(** The first anchor of an address, when it has a text, is listed, unless
    a hundred links were collected before the loop came to it. *)
Lemma extractLinks_loop_first (baseUrl : string) (els : list DOM.Node) :
  ∀ vars vars' i el u,
    for_of (extractLinks_body baseUrl) vars els = Ret vars' →
    els !! i = Some el →
    resolved "href" baseUrl el = Some u →
    JS.startsWith u "#" = false →
    JS.truthy (JS.trim (DOM.textContent el)) = true →
    JS.truthy u = true →
    u ∉ seenHrefs vars →
    (∀ j el', j < i → els !! j = Some el' → resolved "href" baseUrl el' ≠ Some u) →
    {| link_text := JS.trim (DOM.textContent el); link_href := u |} ∈ links vars' ∨
    100 ≤ length (links vars').
Proof.
  induction els as [|el0 els IH]; intros vars vars' i el u Hrun Hel Hres Hstart Htext Hu
    Hnew Hfirst; [discriminate|].
  simpl in Hrun. rewrite extractLinks_body_resolved in Hrun.
  destruct (Nat.leb 100 (length (links vars))) eqn:Hcap.
  { injection Hrun as <-. right. now apply Nat.leb_le. }
  destruct i as [|i].
  - injection Hel as ->. rewrite Hres, Hstart in Hrun.
    rewrite bool_decide_eq_false_2 in Hrun by exact Hnew.
    cbv zeta in Hrun. rewrite Htext, Hu in Hrun. simpl in Hrun.
    destruct (extractLinks_loop_grows _ _ _ _ Hrun) as (extra & Hextra).
    left. rewrite Hextra. simpl. rewrite !elem_of_app, list_elem_of_singleton. auto.
  - simpl in Hel.
    assert (Hlater : ∀ j el', j < i → els !! j = Some el' →
                              resolved "href" baseUrl el' ≠ Some u).
    { intros j el' Hj Hel'. apply (Hfirst (S j)); [lia | exact Hel']. }
    assert (Hhead : resolved "href" baseUrl el0 ≠ Some u).
    { apply (Hfirst 0); [lia | reflexivity]. }
    destruct (resolved "href" baseUrl el0) as [u0|];
      [|now apply (IH vars vars' i el u)].
    destruct (JS.startsWith u0 "#" || bool_decide (u0 ∈ seenHrefs vars));
      [now apply (IH vars vars' i el u)|].
    assert (Hnew' : u ∉ {[u0]} ∪ seenHrefs vars).
    { intros [Heq%elem_of_singleton|Hin]%elem_of_union; [congruence | contradiction]. }
    cbv zeta in Hrun.
    destruct (JS.truthy (JS.trim (DOM.textContent el0)) && JS.truthy u0);
      now apply (IH _ vars' i el u Hrun).
Qed.

(** One turn of the callback of [extractImages], without the exceptions. *)
Lemma extractImages_body_resolved (baseUrl : string) (images : list Image) (el : DOM.Node) :
  extractImages_body baseUrl images el =
  Ret (Continue (images ++ option_list (image_of baseUrl el))).
Proof.
  unfold extractImages_body, image_of, resolved.
  destruct (DOM.getAttribute el "src") as [v|]; [|now rewrite app_nil_r].
  destruct (JS.truthy v); [|now rewrite app_nil_r]. simpl negb. cbv iota.
  rewrite try_resolve. simpl.
  destruct (URL_new v (Some baseUrl)) as [u|]; [reflexivity | now rewrite app_nil_r].
Qed.

Lemma extractImages_loop (baseUrl : string) (els : list DOM.Node) :
  ∀ images,
    for_of (extractImages_body baseUrl) images els =
    Ret (images ++ omap (image_of baseUrl) els).
Proof.
  induction els as [|el els IH]; intros images; simpl.
  - now rewrite app_nil_r.
  - rewrite extractImages_body_resolved, IH, <- app_assoc.
    now destruct (image_of baseUrl el).
Qed.

(** C2. Link extraction returns at most 100 entries, no two of them with
    the same resolved absolute URL; the entries are those of anchors of the
    document, in document order, and the scan is over once the hundredth is
    collected: anchors after it change nothing. *)
Theorem extractLinks_capped_distinct (doc : DOM.Document) (baseUrl : string) :
  ∃ found,
    extractLinks doc baseUrl = Ret found ∧
    length found ≤ 100 ∧
    NoDup (link_href <$> found) ∧
    sublist found
      (omap (link_of baseUrl) (DOM.doc_querySelectorAll doc [DOM.ByTagAttr "a" "href"])) ∧
    ∀ els more full,
      extractLinks_from els baseUrl = Ret full → length full = 100 →
      extractLinks_from (els ++ more) baseUrl = Ret full.
Proof.
  unfold extractLinks, extractLinks_from.
  destruct (extractLinks_loop baseUrl
              (DOM.doc_querySelectorAll doc [DOM.ByTagAttr "a" "href"])
              _ links_invariant_initial)
    as (vars' & extra & Hrun & (Hlen & Hnodup & _) & Hlinks & Hsub).
  exists (links vars'). rewrite Hrun. simpl in Hlinks. subst extra.
  repeat split; auto.
  intros els more full Hfull Hlen'.
  destruct (for_of (extractLinks_body baseUrl) {| links := []; seenHrefs := ∅ |} els)
    as [vars1|e] eqn:Hrun1; [|discriminate].
  simpl in Hfull. injection Hfull as <-.
  rewrite (extractLinks_loop_full _ _ more _ _ Hrun1); [reflexivity|lia].
Qed.

(** C6. Neither extractor throws, whatever the [href] and [src] values are
    and whatever the URL parser does with them. An anchor whose [href] is
    missing, empty or rejected by the parser is skipped and changes nothing:
    the links are those found among the resolvable anchors alone, and every
    resolvable anchor is still returned, that is, the first anchor of each
    address that does not start with [#], when it has a text, is among the
    links, unless a hundred links were collected. The images are exactly the
    entries of the elements whose [src] resolves, in document order. *)
Theorem extraction_never_throws (doc : DOM.Document) (baseUrl : string) :
  let anchors := DOM.doc_querySelectorAll doc [DOM.ByTagAttr "a" "href"] in
  let imgs := DOM.doc_querySelectorAll doc [DOM.ByTagAttr "img" "src"] in
  (∃ found,
      extractLinks doc baseUrl = Ret found ∧
      extractLinks_from (filter (λ el, is_Some (resolved "href" baseUrl el)) anchors)
        baseUrl = Ret found ∧
      sublist found (omap (link_of baseUrl) anchors) ∧
      ∀ i el u,
        anchors !! i = Some el →
        resolved "href" baseUrl el = Some u →
        JS.startsWith u "#" = false →
        JS.truthy (JS.trim (DOM.textContent el)) = true →
        JS.truthy u = true →
        (∀ j el', j < i → anchors !! j = Some el' →
                  resolved "href" baseUrl el' ≠ Some u) →
        {| link_text := JS.trim (DOM.textContent el); link_href := u |} ∈ found ∨
        length found = 100) ∧
  extractImages doc baseUrl = Ret (omap (image_of baseUrl) imgs).
Proof.
  intros anchors imgs. split.
  - unfold extractLinks, extractLinks_from. fold anchors.
    rewrite <- extractLinks_loop_resolvable.
    destruct (extractLinks_loop baseUrl anchors _ links_invariant_initial)
      as (vars' & extra & Hrun & (Hlen & _) & Hlinks & Hsub).
    exists (links vars'). rewrite Hrun. simpl in Hlinks. subst extra.
    split; [reflexivity|]. split; [reflexivity|]. split; [exact Hsub|].
    intros i el u Hel Hres Hstart Htext Hu Hfirst.
    destruct (extractLinks_loop_first baseUrl anchors _ vars' i el u Hrun Hel Hres
                Hstart Htext Hu) as [Hin|Hfull]; [set_solver | exact Hfirst | now left |].
    right. lia.
  - unfold extractImages, extractImages_from. fold imgs.
    now rewrite extractImages_loop.
Qed.

(** C3 (what the code does). The test for an internal anchor looks at the
    resolved address, not at the [href]: an anchor to a fragment of the
    page whose address the parser gives without a leading [#] is listed. *)
Theorem fragment_anchor_listed (doc : DOM.Document) (baseUrl : string)
    (el : DOM.Node) (href u : string) :
  DOM.doc_querySelectorAll doc [DOM.ByTagAttr "a" "href"] = [el] →
  DOM.getAttribute el "href" = Some href →
  JS.startsWith href "#" = true →
  URL_new href (Some baseUrl) = Ret u →
  JS.startsWith u "#" = false →
  JS.truthy u = true →
  JS.truthy (JS.trim (DOM.textContent el)) = true →
  extractLinks doc baseUrl =
  Ret [ {| link_text := JS.trim (DOM.textContent el); link_href := u |} ].
Proof.
  intros Hdoc Hattr Hfrag Hurl Hstart Hu Htext.
  unfold extractLinks, extractLinks_from. rewrite Hdoc. simpl for_of.
  rewrite extractLinks_body_resolved. simpl.
  unfold resolved. rewrite Hattr. destruct href; [discriminate|]. simpl.
  rewrite Hurl, Hstart, Htext, Hu. simpl.
  rewrite bool_decide_eq_false_2 by set_solver. reflexivity.
Qed.

End Loops.

(** The anchor [<a href="#top">Top</a>] of the sample page is listed. *)
Lemma fragment_anchor_listed_witness :
  @extractLinks Examples.platform Examples.wiki_page "https://example.com/page" =
  Ret [ {| link_text := "Top"; link_href := "https://example.com/page#top" |} ].
Proof.
  apply (@fragment_anchor_listed Examples.platform Examples.wiki_page
           "https://example.com/page"
           (DOM.Element "a" [("href", "#top")] [DOM.Text "Top"]) "#top");
    reflexivity.
Defined.

End ExtractionFacts.

(** ** The infobox of a Wikipedia page *)

Module InfoboxFacts.

Import Extraction JSFacts.

(** A row assigns its pair when it is complete and does nothing otherwise. *)
Lemma infobox_row_entry (m : gmap string string) (row : DOM.Node) :
  infobox_row m row =
  match row_entry row with
  | Some (key, value) => <[ key := value ]> m
  | None => m
  end.
Proof.
  unfold infobox_row, row_entry, row_cells, assign.
  destruct (DOM.querySelector row (DOM.ByTag "th")) as [th|]; [|reflexivity].
  destruct (DOM.querySelector row (DOM.ByTag "td")) as [td|]; [|reflexivity].
  rewrite !or_else_empty.
  destruct (JS.truthy (JS.trim (DOM.textContent th)) &&
            JS.truthy (JS.trim (DOM.textContent td))); [|reflexivity].
  now destruct (String.eqb (JS.trim (DOM.textContent th)) "__proto__").
Qed.

Lemma complete_row (k v : string) :
  JS.truthy k && JS.truthy v && negb (String.eqb k "__proto__") = true ↔
  k ≠ "" ∧ v ≠ "" ∧ k ≠ "__proto__".
Proof.
  rewrite !andb_true_iff, negb_true_iff, !truthy_ne, String.eqb_neq. tauto.
Qed.

Lemma row_entry_cells (row : DOM.Node) (key value : string) :
  row_entry row = Some (key, value) ↔
  row_cells row = Some (key, value) ∧ key ≠ "" ∧ value ≠ "" ∧ key ≠ "__proto__".
Proof.
  unfold row_entry. destruct (row_cells row) as [[k v]|].
  - destruct (JS.truthy k && JS.truthy v && negb (String.eqb k "__proto__")) eqn:E.
    + apply complete_row in E.
      split; [intros [= <- <-]; auto | intros ([= <- <-] & _); auto].
    + split; [discriminate|]. intros ([= <- <-] & Hall).
      apply complete_row in Hall. congruence.
  - split; [discriminate | intros [? _]; discriminate].
Qed.

(** The rows are folded into the object from the first to the last: a later
    row with the same key overwrites an earlier one. *)
Lemma infobox_fold (rows : list DOM.Node) :
  ∀ m, foldl infobox_row m rows =
       list_to_map (reverse (omap row_entry rows)) ∪ m.
Proof.
  induction rows as [|row rows IH]; intros m; simpl.
  - now rewrite (left_id_L ∅ (∪)).
  - rewrite IH, infobox_row_entry.
    destruct (row_entry row) as [[k v]|]; [|reflexivity].
    rewrite reverse_cons, list_to_map_app. simpl.
    rewrite <- (assoc_L (∪)). f_equal.
    now rewrite <- insert_union_l, (left_id_L ∅ (∪)).
Qed.

Lemma infoboxData_of_entries (box : DOM.Node) :
  infoboxData_of box =
  list_to_map (reverse (omap row_entry (DOM.querySelectorAll box (DOM.ByTag "tr")))).
Proof. unfold infoboxData_of. now rewrite infobox_fold, (right_id_L ∅ (∪)). Qed.

(** C7 (what the code does). A row of the first [.infobox] element gives
    the infobox object a property exactly when it has a header cell and a
    data cell that are both non-empty after trimming and the header is not
    [__proto__]: the keys of the map are the headers of these rows, each
    value is the data cell of such a row, and when these rows have
    different headers the map holds exactly their pairs. A complete row
    whose header is [__proto__] leaves the object as it is, and a page whose
    complete rows all have that header has no infobox. The sample page,
    whose infobox has five rows, three of them without a value, gives the
    two complete rows. *)
Theorem infobox_rows (doc : DOM.Document) (box : DOM.Node) :
  DOM.doc_querySelector doc [DOM.ByClass "infobox"] = Some box →
  let rows := DOM.querySelectorAll box (DOM.ByTag "tr") in
  let data := infoboxData_of box in
  (∀ m row,
     infobox_row m row =
     match row_cells row with
     | Some (key, value) =>
         if decide (key ≠ "" ∧ value ≠ "" ∧ key ≠ "__proto__")
         then <[ key := value ]> m else m
     | None => m
     end) ∧
  data = foldl infobox_row ∅ rows ∧
  (∀ key, is_Some (data !! key) ↔
          ∃ row value, row ∈ rows ∧ row_cells row = Some (key, value) ∧
                       key ≠ "" ∧ value ≠ "" ∧ key ≠ "__proto__") ∧
  (∀ key value, data !! key = Some value →
                ∃ row, row ∈ rows ∧ row_cells row = Some (key, value) ∧
                       key ≠ "" ∧ value ≠ "" ∧ key ≠ "__proto__") ∧
  (NoDup (omap row_entry rows).*1 →
     map_to_list data ≡ₚ omap row_entry rows ∧
     size data = length (omap row_entry rows)) ∧
  infobox (extractWikipediaData doc) = (if decide (data = ∅) then None else Some data) ∧
  ((∀ row key value, row ∈ rows → row_cells row = Some (key, value) →
                     key ≠ "" → value ≠ "" → key = "__proto__") →
   infobox (extractWikipediaData doc) = None) ∧
  infobox (extractWikipediaData Examples.wiki_page) =
    Some {[ "Born" := "1912"; "Known for" := "Logic" ]}.
Proof.
  intros Hbox rows data.
  assert (Hdata : data = list_to_map (reverse (omap row_entry rows)))
    by apply infoboxData_of_entries.
  assert (Hmem : ∀ key value,
             (key, value) ∈ omap row_entry rows ↔
             ∃ row, row ∈ rows ∧ row_cells row = Some (key, value) ∧
                    key ≠ "" ∧ value ≠ "" ∧ key ≠ "__proto__").
  { intros key value. rewrite list_elem_of_omap. split.
    - intros (row & Hrow & Hentry). exists row. split; [exact Hrow|].
      now apply row_entry_cells.
    - intros (row & Hrow & Hcells). exists row. split; [exact Hrow|].
      now apply row_entry_cells. }
  assert (Hbox' : infobox (extractWikipediaData doc) =
                  (if decide (data = ∅) then None else Some data)).
  { unfold extractWikipediaData. simpl. rewrite Hbox. fold data.
    destruct (decide (data = ∅)) as [->|Hne]; [reflexivity|].
    destruct (size data) eqn:Hsize; [|reflexivity].
    now apply map_size_empty_iff in Hsize. }
  split; [|split; [|split; [|split; [|split; [|split; [|split]]]]]].
  - intros m row. rewrite infobox_row_entry. unfold row_entry.
    destruct (row_cells row) as [[k v]|]; [|reflexivity].
    destruct (JS.truthy k && JS.truthy v && negb (String.eqb k "__proto__")) eqn:E.
    + apply complete_row in E. now rewrite decide_True.
    + rewrite decide_False; [reflexivity|]. intros Hall.
      apply complete_row in Hall. congruence.
  - reflexivity.
  - intros key. rewrite Hdata. split.
    + intros [value Hv]. apply elem_of_list_to_map_2 in Hv.
      apply elem_of_reverse, Hmem in Hv as (row & ?). eauto.
    + intros (row & value & Hrow). 
      assert (Hin : key ∈ (reverse (omap row_entry rows)).*1).
      { apply list_elem_of_fmap. exists (key, value). split; [reflexivity|].
        apply elem_of_reverse, Hmem. eauto. }
      apply elem_of_dom. now rewrite dom_list_to_map_L, elem_of_list_to_set.
  - intros key value Hv. rewrite Hdata in Hv. apply elem_of_list_to_map_2 in Hv.
    now apply elem_of_reverse, Hmem in Hv.
  - intros Hnodup.
    assert (Hperm : map_to_list data ≡ₚ omap row_entry rows).
    { rewrite Hdata, map_to_list_to_map.
      - apply reverse_Permutation.
      - now rewrite fmap_reverse, reverse_Permutation. }
    split; [exact Hperm|].
    now rewrite <- Hperm, length_map_to_list.
  - exact Hbox'.
  - intros Hproto. rewrite Hbox'.
    assert (Hnone : ∀ entry, entry ∉ omap row_entry rows).
    { intros [key value] Hin.
      apply Hmem in Hin as (row & Hrow & Hcells & Hk & Hv & Hne).
      apply Hne. now apply (Hproto row key value). }
    rewrite Hdata. destruct (omap row_entry rows) as [|entry entries].
    + simpl. now rewrite decide_True.
    + exfalso. apply (Hnone entry). left.
  - reflexivity.
Qed.

(** A page whose infobox has the one row [__proto__]: the row is complete
    and the page has no infobox. *)
Lemma infobox_rows_witness :
  row_cells (Examples.row "__proto__" "x") = Some ("__proto__", "x") ∧
  infobox (extractWikipediaData MoreExamples.proto_page) = None.
Proof.
  split; [reflexivity|].
  pose proof (infobox_rows MoreExamples.proto_page _ eq_refl) as H.
  cbv zeta in H. destruct H as (_ & _ & _ & _ & _ & _ & H & _).
  apply H. intros row key value Hrow. vm_compute in Hrow.
  apply list_elem_of_singleton in Hrow. subst row. now intros [= <- <-].
Defined.

End InfoboxFacts.

(** ** Validation and extraction failures of the routes *)

Module RouteFacts.

Import JSFacts.

Section Answers.

Context `{Platform}.

Lemma user_sync_documents (w : World) (db : Database) (user : User) :
  documents (Process.user_sync w db user) = documents db.
Proof.
  unfold Process.user_sync, user_upsert.
  destruct (upsert_answers w); [|reflexivity].
  now destruct (emailAddress user).
Qed.

(** The page branch fails with Readability's message when the parse gives
    no article or an article without content. *)
Lemma scrape_no_article (url : string) (response : FetchResponse) :
  fetch url = Ret response → ok response = true →
  match Readability_parse (JSDOM (DOMPurify_sanitize (response_text response))) with
  | Some article => JS.truthy (article_content article)
  | None => false
  end = false →
  scrape url = Throw "Readability could not parse content".
Proof.
  intros Hfetch Hok Hparse. unfold scrape. rewrite Hfetch. simpl. rewrite Hok. simpl.
  destruct (Readability_parse _) as [article|]; [|reflexivity].
  now rewrite Hparse.
Qed.

(** C5. When Readability finds no article, or an article without content,
    on the fetched page, the authenticated route answers 422 with the
    extraction error, and the table of documents is as it was before the
    request. *)
Theorem extraction_failure_not_persisted
    (w : World) (db : Database) (user : User) (url : string) (response : FetchResponse) :
  currentUser w = Some user →
  Process.limit_reached w db user = Ret false →
  JS.truthy url = true →
  isYoutubeUrl url = false →
  fetch url = Ret response →
  ok response = true →
  match Readability_parse (JSDOM (DOMPurify_sanitize (response_text response))) with
  | Some article => JS.truthy (article_content article)
  | None => false
  end = false →
  status (Process.POST w db (JsonBody (Some url))).1 = 422 ∧
  body (Process.POST w db (JsonBody (Some url))).1 =
    Process.Error "Readability could not parse content" ∧
  documents (Process.POST w db (JsonBody (Some url))).2 = documents db.
Proof.
  intros Huser Hlimit Hurl Hyt Hfetch Hok Hparse.
  unfold Process.POST. rewrite Huser, Hlimit, (truthy_opt_or _ Hurl), Hurl. simpl.
  unfold Process.process. rewrite Hyt, (scrape_no_article _ _ Hfetch Hok Hparse). simpl.
  repeat split. apply user_sync_documents.
Qed.

(** Only an answer with status 200 can have stored a document. *)
Lemma POST_failure_documents (w : World) (db : Database) (request : RequestBody) :
  status (Process.POST w db request).1 ≠ 200 →
  documents (Process.POST w db request).2 = documents db.
Proof.
  unfold Process.POST.
  destruct (currentUser w) as [user|]; [|reflexivity].
  destruct (Process.limit_reached w db user) as [[|]|]; try reflexivity.
  destruct request as [|url]; [reflexivity|].
  destruct (JS.truthy (JS.opt_or url "")); [|reflexivity]. simpl.
  destruct (Process.process w (JS.opt_or url "")) as [f|e]; simpl.
  - unfold Process.save.
    destruct (if create_answers w then _ else _); simpl; congruence.
  - intros _. apply user_sync_documents.
Qed.

(** C4 (what the code does). The processor route only checks that a URL is
    there: a non-empty string that is not an absolute URL is never answered
    with 400. It is answered with 422 once [fetch] rejects it, and with 200
    when it contains a video host name. *)
Theorem processor_accepts_unparsable_url (w : World) (url e : string) :
  url ≠ "" →
  URL_new url None = Throw e →
  status (Processor.POST w (JsonBody (Some url))) =
  (if isYoutubeUrl url then 200 else 422).
Proof.
  intros Hurl Hparse. apply nonempty_truthy in Hurl.
  unfold Processor.POST. rewrite (truthy_opt_or _ Hurl), Hurl. simpl.
  destruct (isYoutubeUrl url); [reflexivity|].
  unfold Processor.scrape, fetch. rewrite Hparse. reflexivity.
Qed.

(** The first processing route does validate: the same URL is answered
    with 400. *)
Lemma legacy_rejects_unparsable_url (url e : string) :
  url ≠ "" →
  URL_new url None = Throw e →
  Legacy.POST (Some (Some url)) = Legacy.json_error "Invalid URL format" 400.
Proof.
  intros Hurl Hparse. apply nonempty_truthy in Hurl.
  unfold Legacy.POST. rewrite (truthy_opt_or _ Hurl), Hurl. simpl.
  now rewrite Hparse.
Qed.

(** Neither does the authenticated route validate the URL. *)
Lemma process_accepts_unparsable_url (w : World) (db : Database) (user : User)
    (url e : string) :
  currentUser w = Some user →
  Process.limit_reached w db user = Ret false →
  url ≠ "" →
  isYoutubeUrl url = false →
  URL_new url None = Throw e →
  status (Process.POST w db (JsonBody (Some url))).1 = 422.
Proof.
  intros Huser Hlimit Hurl Hyt Hparse. apply nonempty_truthy in Hurl.
  unfold Process.POST. rewrite Huser, Hlimit, (truthy_opt_or _ Hurl), Hurl. simpl.
  unfold Process.process, scrape, fetch. rewrite Hyt, Hparse. reflexivity.
Qed.

End Answers.

(** A page on which Readability finds nothing: 422, and the store is as
    empty as before. *)
Lemma extraction_failure_not_persisted_witness :
  status (@Process.POST Examples.platform (Examples.world Examples.plain_sources TimedOut)
            Examples.empty_db (JsonBody (Some "https://example.com/"))).1 = 422 ∧
  documents
    (@Process.POST Examples.platform (Examples.world Examples.plain_sources TimedOut)
       Examples.empty_db (JsonBody (Some "https://example.com/"))).2 = ∅.
Proof.
  pose proof (@extraction_failure_not_persisted Examples.platform
                (Examples.world Examples.plain_sources TimedOut) Examples.empty_db
                Examples.alice "https://example.com/"
                {| ok := true; response_status := 200; statusText := "OK";
                   response_text := "<html></html>" |}
                eq_refl eq_refl eq_refl eq_refl eq_refl eq_refl eq_refl)
    as (Hstatus & _ & Hdocs).
  split; [exact Hstatus | exact Hdocs].
Defined.

(** The string [not a url] is answered with 422 by the processor route. *)
Lemma processor_accepts_unparsable_url_witness :
  status (@Processor.POST Examples.platform
            (Examples.world Examples.plain_sources TimedOut)
            (JsonBody (Some "not a url"))) = 422.
Proof.
  apply (@processor_accepts_unparsable_url Examples.platform
           (Examples.world Examples.plain_sources TimedOut)
           "not a url" "TypeError: Invalid URL");
    [discriminate | reflexivity].
Defined.

End RouteFacts.

(** ** The two-phase video flow *)

Module TwoPhase.

Import JS JSFacts PlaceholderFacts.

(** The transcript block: the heading followed by the lines. *)
Lemma transcript_lines (items : list TranscriptItem) :
  ∀ acc, foldl (λ acc item, acc +:+ transcript_line item) acc items =
         acc +:+ join (transcript_line <$> items).
Proof.
  induction items as [|item items IH]; intros acc; simpl.
  - now rewrite app_nil_r.
  - now rewrite IH, app_assoc.
Qed.

Lemma transcript_line_length (item : TranscriptItem) :
  10 ≤ String.length (transcript_line item).
Proof.
  unfold transcript_line, timestamp. rewrite !length_app.
  change (String.length "**") with 2. change (String.length ":") with 1.
  change (String.length "** - ") with 5. change (String.length LF) with 1.
  lia.
Qed.

Lemma join_lines_length (items : list TranscriptItem) :
  10 * length items ≤ String.length (join (transcript_line <$> items)).
Proof.
  induction items as [|item items IH]; [simpl; lia|].
  rewrite fmap_cons, length_cons.
  change (join (transcript_line item :: (transcript_line <$> items)))
    with (transcript_line item +:+ join (transcript_line <$> items)).
  rewrite length_app. pose proof (transcript_line_length item). lia.
Qed.

(** A transcript block is neither empty nor as long as the placeholder. *)
Lemma block_length (transcript : option (list TranscriptItem)) :
  String.length (transcriptMarkdown transcript) ≠ 0 ∧
  String.length (transcriptMarkdown transcript) ≠ String.length placeholder.
Proof.
  destruct transcript as [items|]; simpl; [|split; discriminate].
  rewrite transcript_lines, length_app.
  pose proof (join_lines_length items) as Hlen.
  change (String.length transcript_heading) with 17.
  change (String.length placeholder) with 24.
  destruct items; simpl in *; lia.
Qed.

Lemma block_heading (items : list TranscriptItem) :
  includes (transcriptMarkdown (Some items)) "## Transcript" = true.
Proof.
  simpl. rewrite transcript_lines. apply includes_app_l. reflexivity.
Qed.

Lemma youtube_url_truthy (url : string) : isYoutubeUrl url = true → truthy url = true.
Proof. now destruct url. Qed.

Section MetadataPhase.

Context `{Platform}.

(** The metadata phase of a video: the answer and the row stored. *)
Lemma POST_video (w : World) (db : Database) (user : User) (url : string) :
  currentUser w = Some user →
  Process.limit_reached w db user = Ret false →
  isYoutubeUrl url = true →
  create_answers w = true →
  documents db !! fresh_id w = None →
  let f := youtube_fields (resolve_metadata (video w) url) url in
  Process.POST w db (JsonBody (Some url)) =
  ({| status := 200; body := Process.Success (Process.result_of (fresh_id w) f None) |},
   {| documents :=
        <[ fresh_id w :=
             {| doc_id := fresh_id w; doc_url := url;
                doc_title := or_else (f_title f) "Untitled";
                doc_siteName := f_siteName f;
                doc_markdown := Some (f_markdown f);
                doc_userId := user_id user |} ]> (documents db);
      users := users (Process.user_sync w db user) |}).
Proof.
  intros Huser Hlimit Hyt Hcreate Hfresh f.
  pose proof (youtube_url_truthy _ Hyt) as Hurl.
  unfold Process.POST.
  rewrite Huser, Hlimit, (truthy_opt_or _ Hurl), Hurl. simpl.
  unfold Process.process. rewrite Hyt. unfold Process.save. rewrite Hcreate.
  unfold document_create. simpl doc_id.
  rewrite RouteFacts.user_sync_documents, Hfresh. reflexivity.
Qed.

End MetadataPhase.

(** The continuation on a document of the caller: the answer and the row
    stored. *)
Lemma POST_continuation (w : World) (db : Database) (user : User)
    (id url : string) (doc : DocumentRow) :
  currentUser w = Some user →
  id ≠ "" → url ≠ "" →
  find_answers w = true → update_answers w = true →
  documents db !! id = Some doc →
  doc_userId doc = user_id user →
  let new := Continuation.newMarkdown (opt_or (doc_markdown doc) "")
               (transcriptMarkdown (fetchTranscriptWithTimeout (transcript_race w url))) in
  Continuation.POST w db (Some {| Continuation.docId := Some id; Continuation.url := Some url |}) =
  ({| status := 200; body := Continuation.Success (Some new) |},
   {| documents :=
        <[ id := {| doc_id := doc_id doc; doc_url := doc_url doc;
                    doc_title := doc_title doc; doc_siteName := doc_siteName doc;
                    doc_markdown := Some new; doc_userId := doc_userId doc |} ]>
          (documents db);
      users := users db |}).
Proof.
  intros Huser Hid Hurl Hfind Hupdate Hdoc Howner new.
  apply nonempty_truthy in Hid, Hurl.
  unfold Continuation.POST. rewrite Huser. simpl Continuation.docId. simpl Continuation.url.
  rewrite (truthy_opt_or _ Hid), (truthy_opt_or _ Hurl), Hid, Hurl.
  simpl. rewrite Hfind. unfold document_findUnique. rewrite Hdoc, Howner, String.eqb_refl.
  simpl. rewrite Hupdate. unfold document_update. rewrite Hdoc, Howner. reflexivity.
Qed.

(** C10. The continuation is not idempotent. It stores the old Markdown
    with the first occurrence of the placeholder removed (one occurrence,
    the leftmost) followed by the block it has built, and the block is
    appended also when there was no placeholder. A second call on the same
    document does the same to the result of the first: the Markdown then
    ends with two blocks and differs from the one stored by the first call,
    whatever the two transcript fetches gave. *)
Theorem continuation_not_idempotent (w1 w2 : World) (db : Database) (user : User)
    (id url : string) (doc : DocumentRow) :
  currentUser w1 = Some user → currentUser w2 = Some user →
  id ≠ "" → url ≠ "" →
  find_answers w1 = true → update_answers w1 = true →
  find_answers w2 = true → update_answers w2 = true →
  documents db !! id = Some doc →
  doc_userId doc = user_id user →
  let request := Some {| Continuation.docId := Some id; Continuation.url := Some url |} in
  let m0 := opt_or (doc_markdown doc) "" in
  let b1 := transcriptMarkdown (fetchTranscriptWithTimeout (transcript_race w1 url)) in
  let b2 := transcriptMarkdown (fetchTranscriptWithTimeout (transcript_race w2 url)) in
  let once := Continuation.POST w1 db request in
  let twice := Continuation.POST w2 once.2 request in
  let m1 := replace m0 placeholder "" +:+ b1 in
  let m2 := replace m1 placeholder "" +:+ b2 in
  doc_markdown <$> documents once.2 !! id = Some (Some m1) ∧
  (includes m0 placeholder = false → m1 = m0 +:+ b1) ∧
  (includes m0 placeholder = true →
     String.length (replace m0 placeholder "") =
     String.length m0 - String.length placeholder) ∧
  (∀ a b, includes (a +:+ "_Fetching transcript...") placeholder = false →
          m0 = a +:+ placeholder +:+ b →
          replace m0 placeholder "" = a +:+ b) ∧
  b1 ≠ "" ∧
  doc_markdown <$> documents twice.2 !! id = Some (Some m2) ∧
  (includes m1 placeholder = false → m2 = replace m0 placeholder "" +:+ b1 +:+ b2) ∧
  m2 ≠ m1.
Proof.
  intros Hu1 Hu2 Hid Hurl Hf1 Hup1 Hf2 Hup2 Hdoc Howner request m0 b1 b2 once twice m1 m2.
  assert (Honce : once.2 =
            {| documents :=
                 <[ id := {| doc_id := doc_id doc; doc_url := doc_url doc;
                             doc_title := doc_title doc;
                             doc_siteName := doc_siteName doc;
                             doc_markdown := Some m1; doc_userId := doc_userId doc |} ]>
                   (documents db);
               users := users db |}).
  { unfold once, request.
    now rewrite (POST_continuation w1 db user id url doc Hu1 Hid Hurl Hf1 Hup1 Hdoc Howner). }
  assert (Htwice : doc_markdown <$> documents twice.2 !! id = Some (Some m2)).
  { unfold twice, request. rewrite Honce.
    erewrite (POST_continuation w2 _ user id url _ Hu2 Hid Hurl Hf2 Hup2);
      [|simpl; apply lookup_insert_eq | exact Howner].
    cbn [snd documents]. rewrite lookup_insert_eq. cbn [fmap option_fmap option_map doc_markdown].
    unfold Continuation.newMarkdown. cbn [opt_or].
    now rewrite or_else_empty. }
  split; [rewrite Honce; simpl; now rewrite lookup_insert_eq|].
  split; [intros Hm0; unfold m1; now rewrite (replace_absent _ _ _ Hm0)|].
  split; [intros Hm0; now apply replace_length|].
  split; [intros a b Hfirst ->; now apply (replace_first a b "_Fetching transcript..." "_")|].
  split.
  { intros Hb1. pose proof (proj1 (block_length (fetchTranscriptWithTimeout (transcript_race w1 url)))) as Hlen.
    fold b1 in Hlen. rewrite Hb1 in Hlen. now apply Hlen. }
  split; [exact Htwice|].
  split; [intros Hm1; unfold m2; rewrite (replace_absent _ _ _ Hm1); unfold m1;
          now rewrite app_assoc|].
  intros Heq. apply (f_equal String.length) in Heq. unfold m2 in Heq.
  rewrite length_app in Heq.
  destruct (block_length (fetchTranscriptWithTimeout (transcript_race w2 url))) as [Hne0 Hne24].
  fold b2 in Hne0, Hne24.
  destruct (includes m1 placeholder) eqn:Hm1.
  - destruct (proj1 (replace_length m1 placeholder) Hm1) as [Hlen Hrep].
    rewrite Hrep in Heq. lia.
  - rewrite (replace_absent _ _ _ Hm1) in Heq. lia.
Qed.

Section Flow.

Context `{Platform}.

(** C1 (as amended). For a video URL the metadata phase answers with
    [needsTranscript = true] and stores a Markdown that ends with the
    placeholder. The continuation then stores that Markdown with the first
    occurrence of the placeholder removed, followed by the transcript block
    (a Markdown without placeholder just gets the block appended):
    a [## Transcript] section when the transcript was fetched, the note
    [**Error:** Could not fetch transcript (Captions might be disabled)]
    when the fetch failed or timed out. When the placeholder text occurs in
    none of the title, the channel name, the URL and the description, the
    occurrence removed is the placeholder written by the metadata phase:
    the final Markdown is the header followed by the block, and after a
    failure or a timeout it does not contain the placeholder. *)
Theorem two_phase_video_flow (w1 w2 : World) (db : Database) (user : User) (url : string) :
  currentUser w1 = Some user → currentUser w2 = Some user →
  Process.limit_reached w1 db user = Ret false →
  isYoutubeUrl url = true →
  create_answers w1 = true →
  fresh_id w1 ≠ "" →
  documents db !! fresh_id w1 = None →
  find_answers w2 = true → update_answers w2 = true →
  let metadata := resolve_metadata (video w1) url in
  let f := youtube_fields metadata url in
  let header :=
    youtube_header (f_title f) (f_siteName f) url (metadata_description metadata) in
  let phase1 := Process.POST w1 db (JsonBody (Some url)) in
  let transcript := fetchTranscriptWithTimeout (transcript_race w2 url) in
  let block := transcriptMarkdown transcript in
  let phase2 :=
    Continuation.POST w2 phase1.2
      (Some {| Continuation.docId := Some (fresh_id w1); Continuation.url := Some url |}) in
  let final := replace (header +:+ placeholder) placeholder "" +:+ block in
  phase1.1 =
    {| status := 200; body := Process.Success (Process.result_of (fresh_id w1) f None) |} ∧
  f_needsTranscript f = true ∧
  f_markdown f = header +:+ placeholder ∧
  doc_markdown <$> documents phase1.2 !! fresh_id w1 = Some (Some (f_markdown f)) ∧
  phase2.1 = {| status := 200; body := Continuation.Success (Some final) |} ∧
  doc_markdown <$> documents phase2.2 !! fresh_id w1 = Some (Some final) ∧
  (∀ current, includes current placeholder = false →
              Continuation.newMarkdown current block = current +:+ block) ∧
  (is_Some transcript → includes final "## Transcript" = true) ∧
  (transcript = None →
     includes final "**Error:** Could not fetch transcript (Captions might be disabled)"
     = true) ∧
  (includes (f_title f) placeholder = false →
   includes (f_siteName f) placeholder = false →
   includes url placeholder = false →
   includes (metadata_description metadata) placeholder = false →
   final = header +:+ block ∧
   (transcript = None → includes final placeholder = false)).
Proof.
  intros Hu1 Hu2 Hlimit Hyt Hcreate Hid Hfresh Hfind Hupdate
         metadata f header phase1 transcript block phase2 final.
  pose proof (POST_video w1 db user url Hu1 Hlimit Hyt Hcreate Hfresh) as H1.
  cbv zeta in H1. fold metadata f in H1. fold phase1 in H1.
  assert (Hurl : url ≠ "") by (apply nonempty_truthy, youtube_url_truthy, Hyt).
  assert (H2 : phase2 =
            ({| status := 200; body := Continuation.Success (Some final) |},
             {| documents :=
                  <[ fresh_id w1 :=
                       {| doc_id := fresh_id w1; doc_url := url;
                          doc_title := or_else (f_title f) "Untitled";
                          doc_siteName := f_siteName f;
                          doc_markdown := Some final; doc_userId := user_id user |} ]>
                    (documents phase1.2);
                users := users phase1.2 |})).
  { unfold phase2. rewrite H1.
    erewrite (POST_continuation w2 _ user (fresh_id w1) url _ Hu2 Hid Hurl Hfind Hupdate);
      [|simpl; apply lookup_insert_eq | reflexivity].
    reflexivity. }
  split; [now rewrite H1|].
  split; [reflexivity|].
  split; [reflexivity|].
  split; [rewrite H1; simpl; now rewrite lookup_insert_eq|].
  split; [now rewrite H2|].
  split; [rewrite H2; simpl; now rewrite lookup_insert_eq|].
  split.
  { intros current Hcurrent. unfold Continuation.newMarkdown.
    now rewrite (replace_absent _ _ _ Hcurrent). }
  split.
  { intros [items Hitems]. unfold final, block. rewrite Hitems.
    apply includes_app_r, block_heading. }
  split.
  { intros Hnone. unfold final, block. rewrite Hnone.
    apply includes_app_r. reflexivity. }
  intros Ht Hs Hu Hd.
  assert (Hheader : includes header placeholder = false).
  { unfold header. now rewrite includes_header, Ht, Hs, Hu, Hd. }
  assert (Hfinal : final = header +:+ block).
  { unfold final, header. rewrite replace_after_header; [reflexivity|exact Hheader]. }
  split; [exact Hfinal|].
  intros Hnone. rewrite Hfinal. unfold block. rewrite Hnone. simpl transcriptMarkdown.
  unfold transcript_error_note. unfold header.
  rewrite includes_header_block. fold header. now rewrite Hheader.
Qed.

End Flow.

(** Two timed-out continuations on a document without placeholder append
    the note twice. *)
Lemma continuation_not_idempotent_witness :
  doc_markdown <$>
    documents
      (Continuation.POST (Examples.world Examples.plain_sources TimedOut)
         (Continuation.POST (Examples.world Examples.plain_sources TimedOut)
            Examples.notes_db
            (Some {| Continuation.docId := Some "doc_1";
                     Continuation.url := Some Examples.video_url |})).2
         (Some {| Continuation.docId := Some "doc_1";
                  Continuation.url := Some Examples.video_url |})).2 !! "doc_1" =
  Some (Some ("# Notes" +:+ transcript_error_note +:+ transcript_error_note)).
Proof.
  pose proof (continuation_not_idempotent
                (Examples.world Examples.plain_sources TimedOut)
                (Examples.world Examples.plain_sources TimedOut)
                Examples.notes_db Examples.alice "doc_1" Examples.video_url
                {| doc_id := "doc_1"; doc_url := Examples.video_url; doc_title := "Notes";
                   doc_siteName := "Chan"; doc_markdown := Some "# Notes";
                   doc_userId := "user_1" |}
                eq_refl eq_refl ltac:(discriminate) ltac:(discriminate)
                eq_refl eq_refl eq_refl eq_refl eq_refl eq_refl) as H.
  cbv zeta in H. destruct H as (_ & _ & _ & _ & _ & H & _).
  exact H.
Defined.

(** The sample video with an ordinary description, when the transcript
    fetch times out: the note is there and the placeholder is gone. *)
Lemma two_phase_video_flow_witness :
  ∃ final,
    body (Examples.phase2 Examples.plain_sources TimedOut).1 =
      Continuation.Success (Some final) ∧
    includes final "**Error:** Could not fetch transcript (Captions might be disabled)"
      = true ∧
    includes final placeholder = false.
Proof.
  pose proof (@two_phase_video_flow Examples.platform
                (Examples.world Examples.plain_sources TimedOut)
                (Examples.world Examples.plain_sources TimedOut)
                Examples.empty_db Examples.alice Examples.video_url
                eq_refl eq_refl eq_refl eq_refl eq_refl ltac:(discriminate)
                eq_refl eq_refl eq_refl) as H.
  cbv zeta in H. destruct H as (_ & _ & _ & _ & H2 & _ & _ & _ & Hnote & Hclean).
  destruct (Hclean eq_refl eq_refl eq_refl eq_refl) as [_ Hgone].
  eexists. split; [|split].
  - exact (f_equal body H2).
  - apply Hnote. reflexivity.
  - apply Hgone. reflexivity.
Defined.

(** C1 (as stated) fails: the description of the sample video quotes the
    placeholder. The metadata phase still answers with [needsTranscript]
    and a Markdown holding the placeholder, but after a continuation whose
    transcript fetch timed out the stored Markdown has the error note and
    still contains the placeholder: the occurrence removed was the one in
    the description. *)
Lemma placeholder_survives_timeout :
  (∃ r, body (Examples.phase1 Examples.quoting_sources).1 = Process.Success r ∧
        Process.needsTranscript r = true ∧
        includes (Process.markdown r) placeholder = true) ∧
  ∃ final,
    body (Examples.phase2 Examples.quoting_sources TimedOut).1 =
      Continuation.Success (Some final) ∧
    doc_markdown <$> documents (Examples.phase2 Examples.quoting_sources TimedOut).2 !! "doc_1"
      = Some (Some final) ∧
    includes final "**Error:** Could not fetch transcript (Captions might be disabled)"
      = true ∧
    includes final placeholder = true.
Proof.
  split.
  - eexists. split; [reflexivity|]. split; reflexivity.
  - eexists. split; [reflexivity|]. split; [reflexivity|]. split; reflexivity.
Qed.

End TwoPhase.

(** ** Headings, categories and references *)

Module StructureFacts.

Import Extraction JSFacts.

Lemma omap_length_le {A B : Type} (f : A → option B) (l : list A) :
  length (omap f l) ≤ length l.
Proof.
  induction l as [|x l IH]; [simpl; lia|].
  change (omap f (x :: l)) with
    (match f x with Some y => y :: omap f l | None => omap f l end).
  destruct (f x); simpl; lia.
Qed.

(** The entry of a heading element whose text is not blank. *)
Lemma extractHeadings_fold (els : list DOM.Node) :
  ∀ acc,
    foldl (fun headings el =>
             let text := JS.or_else (JS.trim (DOM.textContent el)) "" in
             if JS.truthy text
             then headings ++ [ {| level := heading_level el; heading_text := text |} ]
             else headings) acc els =
    acc ++ omap (fun el =>
                   if JS.truthy (JS.trim (DOM.textContent el))
                   then Some {| level := heading_level el;
                                heading_text := JS.trim (DOM.textContent el) |}
                   else None) els.
Proof.
  induction els as [|el els IH]; intros acc; simpl.
  - now rewrite List.app_nil_r.
  - rewrite IH, or_else_empty.
    destruct (JS.truthy (JS.trim (DOM.textContent el))); [|reflexivity].
    now rewrite <- List.app_assoc.
Qed.

Lemma heading_tag_level (el : DOM.Node) :
  existsb (fun s => DOM.matches s el)
    [DOM.ByTag "h1"; DOM.ByTag "h2"; DOM.ByTag "h3";
     DOM.ByTag "h4"; DOM.ByTag "h5"; DOM.ByTag "h6"] = true →
  1 ≤ heading_level el ≤ 6.
Proof.
  destruct el as [d|tag attrs cs]; [discriminate|].
  cbn [existsb DOM.matches DOM.has_tag]. rewrite !orb_true_iff, !String.eqb_eq.
  intros [->|[->|[->|[->|[->|[->|Hf]]]]]]; try discriminate; simpl; lia.
Qed.

(** X1. The headings extracted are those of the [h1] to [h6] elements whose
    text is not blank, in document order, each with its trimmed text and
    the level its tag says: a level between 1 and 6 and a text that is not
    empty. *)
Theorem extractHeadings_entries (doc : DOM.Document) :
  let els := DOM.doc_querySelectorAll_list doc
               [DOM.ByTag "h1"; DOM.ByTag "h2"; DOM.ByTag "h3";
                DOM.ByTag "h4"; DOM.ByTag "h5"; DOM.ByTag "h6"] in
  extractHeadings doc =
    omap (fun el =>
            if JS.truthy (JS.trim (DOM.textContent el))
            then Some {| level := heading_level el;
                         heading_text := JS.trim (DOM.textContent el) |}
            else None) els ∧
  length (extractHeadings doc) ≤ length els ∧
  Forall (fun h => 1 ≤ level h ≤ 6 ∧ heading_text h ≠ "") (extractHeadings doc).
Proof.
  intros els.
  assert (Heq : extractHeadings doc =
                omap (fun el =>
                        if JS.truthy (JS.trim (DOM.textContent el))
                        then Some {| level := heading_level el;
                                     heading_text := JS.trim (DOM.textContent el) |}
                        else None) els).
  { unfold extractHeadings. now rewrite extractHeadings_fold. }
  split; [exact Heq|]. rewrite Heq. split; [apply omap_length_le|].
  apply Forall_forall. intros h Hh.
  apply list_elem_of_omap in Hh as (el & Hel & Hh).
  destruct (JS.truthy (JS.trim (DOM.textContent el))) eqn:Htext; [|discriminate].
  injection Hh as <-. simpl. split.
  - apply heading_tag_level.
    unfold els, DOM.doc_querySelectorAll_list in Hel.
    apply list_elem_of_In, List.filter_In in Hel. apply Hel.
  - now apply truthy_ne.
Qed.

Lemma trimmed_texts_nonempty (els : list DOM.Node) :
  Forall (fun s => s ≠ "") (trimmed_texts els) ∧
  length (trimmed_texts els) ≤ length els.
Proof.
  unfold trimmed_texts. split.
  - apply Forall_forall. intros s Hs.
    apply list_elem_of_In, List.filter_In in Hs as [_ Hs]. now apply truthy_ne.
  - etransitivity; [apply List.filter_length_le|]. now rewrite List.length_map.
Qed.

(** X2. Of a Wikipedia page, at most 50 references are returned, taken
    from the first 50 reference items; no reference and no category is an
    empty string; the references are absent exactly when the page has no
    reference item; an infobox that is returned is not empty and has no
    empty key or value. *)
Theorem wikipedia_lists (doc : DOM.Document) :
  let data := extractWikipediaData doc in
  (∀ refs, references data = Some refs →
           length refs ≤ 50 ∧ Forall (fun s => s ≠ "") refs) ∧
  (∀ cats, categories data = Some cats → Forall (fun s => s ≠ "") cats) ∧
  (references data = None ↔
   DOM.doc_querySelectorAll doc [DOM.ByClass "references"; DOM.ByTag "li"] = []) ∧
  infobox data ≠ Some ∅ ∧
  (∀ m key value, infobox data = Some m → m !! key = Some value →
                  key ≠ "" ∧ value ≠ "").
Proof.
  intros data. unfold data, extractWikipediaData. simpl.
  split; [|split; [|split; [|split]]].
  - intros refs.
    destruct (DOM.doc_querySelectorAll doc [DOM.ByClass "references"; DOM.ByTag "li"])
      as [|el els]; [discriminate|].
    simpl Nat.ltb. cbv iota. intros [= <-].
    destruct (trimmed_texts_nonempty (take 50 (el :: els))) as [Hne Hlen].
    split; [|exact Hne]. rewrite length_take in Hlen.
    change (el :: take 49 els) with (take 50 (el :: els)). lia.
  - intros cats.
    destruct (DOM.doc_querySelectorAll doc _) as [|el els]; [discriminate|].
    simpl Nat.ltb. cbv iota. intros [= <-]. apply trimmed_texts_nonempty.
  - destruct (DOM.doc_querySelectorAll doc [DOM.ByClass "references"; DOM.ByTag "li"])
      as [|el els]; simpl; split; congruence.
  - destruct (DOM.doc_querySelector doc [DOM.ByClass "infobox"]) as [box|]; [|discriminate].
    destruct (size (infoboxData_of box)) eqn:Hsize; simpl; [discriminate|].
    intros [= Hempty]. rewrite Hempty, map_size_empty in Hsize. discriminate.
  - intros m key value.
    destruct (DOM.doc_querySelector doc [DOM.ByClass "infobox"]) as [box|]; [|discriminate].
    destruct (Nat.ltb 0 (size (infoboxData_of box))); [|discriminate].
    intros [= <-]. rewrite InfoboxFacts.infoboxData_of_entries. intros Hv.
    apply elem_of_list_to_map_2, elem_of_reverse, list_elem_of_omap in Hv
      as (row & _ & Hentry).
    apply InfoboxFacts.row_entry_cells in Hentry as (_ & Hkey & Hvalue & _).
    now split.
Qed.

End StructureFacts.

(** ** Video metadata *)

Module MetadataFacts.

Import JS JSFacts.

Lemma opt_or_nonempty (a : option string) (b : string) : b ≠ "" → opt_or a b ≠ "".
Proof.
  intros Hb. destruct a as [s|]; [|exact Hb]. simpl. unfold or_else.
  destruct (truthy s) eqn:Hs; [now apply truthy_ne | exact Hb].
Qed.

Lemma or_else_nonempty (a b : string) : b ≠ "" → or_else a b ≠ "".
Proof. intros Hb. apply (opt_or_nonempty (Some a) b Hb). Qed.

Lemma opt_or_usable (t b : string) : t ≠ "" → opt_or (Some t) b = t.
Proof. intros Ht. simpl. unfold or_else. now rewrite (proj1 (nonempty_truthy t) Ht). Qed.

Lemma opt_or_unusable (a : option string) (b : string) :
  opt_or a "" = "" → opt_or a b = b.
Proof.
  destruct a as [s|]; [|reflexivity]. simpl. unfold or_else.
  destruct (truthy s) eqn:Hs; [|reflexivity]. intros ->. discriminate.
Qed.

(** X3. A result of the metadata resolver has a title and a channel that
    are not empty and are not both the defaults. When neither the oEmbed
    answer nor the watch page gives a title or a channel name, there is no
    result, whatever description the page has. *)
Theorem metadata_result_shape (oembed : option OEmbedData) (page : option WatchPage) :
  (∀ m, getYouTubeMetadata oembed page = Some m →
        title m ≠ "" ∧ channel m ≠ "" ∧
        ¬ (title m = "Unknown Title" ∧ channel m = "YouTube")) ∧
  ((∀ d, oembed = Some d →
         opt_or (oembed_title d) "" = "" ∧ opt_or (author_name d) "" = "") →
   (∀ p, page = Some p →
         opt_or (og_title p) "" = "" ∧ document_title p = "" ∧
         opt_or (itemprop_name p) "" = "") →
   getYouTubeMetadata oembed page = None).
Proof.
  split.
  - intros m. unfold getYouTubeMetadata.
    set (m1 := match oembed with Some d => _ | None => _ end).
    set (m2 := match page with Some p => _ | None => _ end).
    assert (H1 : title m1 ≠ "" ∧ channel m1 ≠ "").
    { unfold m1. destruct oembed as [d|]; simpl; [|split; discriminate].
      split; apply opt_or_nonempty; discriminate. }
    assert (H2 : title m2 ≠ "" ∧ channel m2 ≠ "").
    { unfold m2. destruct page as [p|]; [|exact H1]. simpl. split.
      - destruct (String.eqb (title m1) "Unknown Title"); [|apply H1].
        apply opt_or_nonempty, or_else_nonempty, H1.
      - destruct (String.eqb (channel m1) "YouTube"); [|apply H1].
        apply opt_or_nonempty, H1. }
    destruct (String.eqb (title m2) "Unknown Title" && String.eqb (channel m2) "YouTube")
      eqn:Hdef; [discriminate|].
    intros [= <-]. split; [apply H2|]. split; [apply H2|].
    intros [Ht Hc]. rewrite Ht, Hc in Hdef. discriminate.
  - intros Ho Hp. unfold getYouTubeMetadata.
    assert (H1 : match oembed with
                 | Some d => {| title := opt_or (oembed_title d) "Unknown Title";
                                channel := opt_or (author_name d) "YouTube";
                                description := "" |}
                 | None => {| title := "Unknown Title"; channel := "YouTube";
                              description := "" |}
                 end =
                 {| title := "Unknown Title"; channel := "YouTube"; description := "" |}).
    { destruct oembed as [d|]; [|reflexivity].
      destruct (Ho d eq_refl) as [Ht Ha].
      now rewrite (opt_or_unusable _ _ Ht), (opt_or_unusable _ _ Ha). }
    simpl. simpl in H1. rewrite H1. simpl.
    destruct page as [p|]; [|reflexivity].
    destruct (Hp p eq_refl) as (Hog & Hdoc & Hitem).
    simpl. rewrite (opt_or_unusable _ _ Hitem), Hdoc. simpl.
    now rewrite (opt_or_unusable _ _ Hog).
Qed.

(** X4. What the oEmbed answer gives wins: a title of the oEmbed answer
    that is not empty (and is not the default text) is the title of the
    result whatever the watch page says, and so is its author name for the
    channel. The page's Open Graph title is used when there is no oEmbed
    answer. *)
Theorem metadata_precedence (d : OEmbedData) (page : option WatchPage) :
  (∀ t, oembed_title d = Some t → t ≠ "" → t ≠ "Unknown Title" →
        ∃ m, getYouTubeMetadata (Some d) page = Some m ∧ title m = t) ∧
  (∀ a, author_name d = Some a → a ≠ "" → a ≠ "YouTube" →
        ∃ m, getYouTubeMetadata (Some d) page = Some m ∧ channel m = a) ∧
  (∀ p t, og_title p = Some t → t ≠ "" → t ≠ "Unknown Title" →
          ∃ m, getYouTubeMetadata None (Some p) = Some m ∧ title m = t).
Proof.
  split; [|split].
  - intros t Ht Hne Hdef. unfold getYouTubeMetadata. simpl. rewrite Ht.
    rewrite (opt_or_usable _ _ Hne).
    assert (Heq : String.eqb t "Unknown Title" = false) by now apply String.eqb_neq.
    destruct page as [p|]; simpl; rewrite ?Heq; simpl; rewrite ?Heq; simpl; eauto.
  - intros a Ha Hne Hdef. unfold getYouTubeMetadata. simpl. rewrite Ha.
    rewrite (opt_or_usable _ _ Hne).
    assert (Heq : String.eqb a "YouTube" = false) by now apply String.eqb_neq.
    destruct page as [p|]; simpl; rewrite ?Heq; simpl; rewrite ?Heq, ?andb_false_r;
      simpl; eauto.
  - intros p t Ht Hne Hdef. unfold getYouTubeMetadata. simpl. rewrite Ht.
    rewrite (opt_or_usable _ _ Hne).
    assert (Heq : String.eqb t "Unknown Title" = false) by now apply String.eqb_neq.
    rewrite ?Heq. simpl. rewrite ?Heq. simpl. eauto.
Qed.

(** X5. The description of a result comes from the watch page alone: it is
    empty when the page could not be read, it is the Open Graph description
    when the embedded JSON is absent, has no description or cannot be
    parsed, and a description found in the embedded JSON replaces it. *)
Theorem metadata_description_source (oembed : option OEmbedData) :
  (∀ m, getYouTubeMetadata oembed None = Some m → description m = "") ∧
  (∀ p m, getYouTubeMetadata oembed (Some p) = Some m →
     description m =
     match ytInitialData p with
     | YtFound (Some info) =>
         match attributedDescription_content info, description_runs info with
         | Some (String c s), _ => String c s
         | _, Some runs => join runs
         | _, None => opt_or (og_description p) ""
         end
     | _ => opt_or (og_description p) ""
     end).
Proof.
  split.
  - intros m. unfold getYouTubeMetadata. simpl.
    destruct (_ && _); [discriminate|]. intros [= <-]. now destruct oembed.
  - intros p m. unfold getYouTubeMetadata. simpl.
    destruct (_ && _); [discriminate|]. intros [= <-]. simpl.
    destruct (ytInitialData p) as [|[info|]]; try reflexivity.
    destruct (attributedDescription_content info) as [[|c s]|]; reflexivity.
Qed.

End MetadataFacts.

(** ** Word counts *)

Module WordFacts.

Import JS JSFacts.

Lemma count_words_sep (c : ascii) (b : string) :
  isWhiteSpace c = true →
  ∀ inside a,
    count_words inside (a +:+ String c b) = count_words inside a + count_words false b.
Proof.
  intros Hc inside a. revert inside.
  induction a as [|x a IH]; intros inside.
  - rewrite app_nil_l. simpl. now rewrite Hc.
  - rewrite app_cons. simpl. destruct (isWhiteSpace x); rewrite IH; lia.
Qed.

Lemma count_words_bound (s : string) :
  ∀ inside, 2 * count_words inside s ≤ String.length s + (if inside then 0 else 1).
Proof.
  induction s as [|x s IH]; intros inside; simpl; [destruct inside; lia|].
  destruct (isWhiteSpace x).
  - specialize (IH false). simpl in IH. destruct inside; lia.
  - specialize (IH true). simpl in IH. destruct inside; lia.
Qed.

Lemma count_words_blank (s : string) :
  count_words false s = 0 ↔ forallb isWhiteSpace (list_ascii_of_string s) = true.
Proof.
  induction s as [|x s IH]; simpl; [tauto|].
  destruct (isWhiteSpace x); simpl; [exact IH|]. split; [lia | discriminate].
Qed.

(** X6. The word count of a text is additive over white space: the count
    of two texts joined by a white-space character is the sum of their
    counts. It is zero exactly for a text of white space only, and a text
    of [n] characters has at most [(n + 1) / 2] words. *)
Theorem wordCount_additive (a b : string) (c : ascii) :
  isWhiteSpace c = true →
  count_words false (a +:+ String c b) = count_words false a + count_words false b ∧
  (count_words false a = 0 ↔ forallb isWhiteSpace (list_ascii_of_string a) = true) ∧
  2 * count_words false a ≤ String.length a + 1.
Proof.
  intros Hc. split; [now apply count_words_sep|].
  split; [apply count_words_blank | apply (count_words_bound a false)].
Qed.

Lemma wordCount_additive_witness :
  count_words false ("two words" +:+ String " " "and three more") = 2 + 3.
Proof.
  rewrite (proj1 (wordCount_additive "two words" "and three more" " " eq_refl)).
  reflexivity.
Defined.

End WordFacts.

(** ** The store behind the authenticated routes *)

Module StoreFacts.

Import JS JSFacts.

(** A row stored under a new identifier counts for its owner and for
    nobody else. *)
Lemma document_count_insert (db : Database) (row : DocumentRow) (i userId : string) :
  documents db !! i = None →
  document_count {| documents := <[ i := row ]> (documents db); users := users db |} userId =
  document_count db userId + (if decide (doc_userId row = userId) then 1 else 0).
Proof.
  intros Hfresh. unfold document_count. simpl.
  rewrite map_filter_insert. simpl. destruct (decide (doc_userId row = userId)) as [Ho|Ho].
  - rewrite map_size_insert_None; [lia|].
    apply map_lookup_filter_None. now left.
  - rewrite (delete_id _ _ Hfresh). lia.
Qed.

Section Process.

Context `{Platform}.

Lemma document_count_sync (w : World) (db : Database) (user : User) (userId : string) :
  document_count (Process.user_sync w db user) userId = document_count db userId.
Proof. unfold document_count. now rewrite RouteFacts.user_sync_documents. Qed.

(** What [save] does to the documents. *)
Lemma save_documents (w : World) (db : Database) (user : User) (url : string) (f : Fields) :
  let row := {| doc_id := fresh_id w; doc_url := url;
                doc_title := or_else (f_title f) "Untitled";
                doc_siteName := f_siteName f;
                doc_markdown := Some (f_markdown f);
                doc_userId := user_id user |} in
  (create_answers w = true ∧ documents db !! fresh_id w = None ∧
   Process.save w db user url f =
     ({| status := 200; body := Process.Success (Process.result_of (fresh_id w) f None) |},
      {| documents := <[ fresh_id w := row ]> (documents db); users := users db |})) ∨
  (Process.save w db user url f =
     ({| status := 200;
         body := Process.Success
                   (Process.result_of ("temp-" +:+ randomUUID w) f
                      (Some "Could not save to history")) |}, db)).
Proof.
  intros row. unfold Process.save, document_create. simpl doc_id.
  destruct (create_answers w); [|now right].
  destruct (documents db !! fresh_id w) eqn:Hfresh; [now right|].
  left. auto.
Qed.

(** What [save] does to the number of documents of each user, on any
    store. *)
Lemma save_count (w : World) (db : Database) (user : User) (url : string) (f : Fields) :
  (create_answers w = true → documents db !! fresh_id w = None →
   ∀ userId, document_count (Process.save w db user url f).2 userId =
             document_count db userId + (if decide (user_id user = userId) then 1 else 0)) ∧
  (∀ userId, document_count (Process.save w db user url f).2 userId ≤
             document_count db userId + (if decide (user_id user = userId) then 1 else 0)).
Proof.
  destruct (save_documents w db user url f) as [(Hcreate & Hfresh & ->) | Hsaved];
    cbv zeta; cbn [snd].
  - assert (Hcount : ∀ userId,
      document_count
        {| documents :=
             <[ fresh_id w := {| doc_id := fresh_id w; doc_url := url;
                                  doc_title := or_else (f_title f) "Untitled";
                                  doc_siteName := f_siteName f;
                                  doc_markdown := Some (f_markdown f);
                                  doc_userId := user_id user |} ]> (documents db);
           users := users db |} userId =
      document_count db userId + (if decide (user_id user = userId) then 1 else 0)).
    { intros userId. now rewrite (document_count_insert db _ _ userId Hfresh). }
    split; [intros _ _; exact Hcount|]. intros userId. rewrite Hcount. lia.
  - split.
    + intros Hcreate Hfresh. unfold Process.save, document_create in *. cbv zeta in *.
      cbn [doc_id] in *. rewrite Hcreate, Hfresh in Hsaved. discriminate.
    + intros userId. cbv zeta in Hsaved. rewrite Hsaved. cbn [snd]. lia.
Qed.

(** X7. The free limit is checked against the store of the time of the
    check, and the document is added to the store of the time of the save;
    nothing holds the store in between. A request of a user who is not Pro
    that passes the check saw fewer than 20 documents of the user, and its
    save adds at most one document of the user, and none of anybody else,
    to whatever store it meets. So a request that no other request overlaps
    leaves the user at most 20; but two requests that are both checked
    while the user has 19 both pass, and once both are saved the user has
    21. *)
Theorem free_limit_overlap (w1 w2 : World) (db : Database) (user : User)
    (url1 url2 : string) (f1 f2 : Fields) :
  isPro user = false →
  Process.limit_reached w1 db user = Ret false →
  document_count db (user_id user) < 20 ∧
  (∀ db',
     document_count (Process.save w1 db' user url1 f1).2 (user_id user) ≤
       document_count db' (user_id user) + 1 ∧
     ∀ other, other ≠ user_id user →
              document_count (Process.save w1 db' user url1 f1).2 other =
              document_count db' other) ∧
  (∀ request, currentUser w1 = Some user →
              document_count (Process.POST w1 db request).2 (user_id user) ≤ 20) ∧
  (Process.limit_reached w2 db user = Ret false →
   document_count db (user_id user) = 19 →
   create_answers w1 = true → create_answers w2 = true →
   documents db !! fresh_id w1 = None → documents db !! fresh_id w2 = None →
   fresh_id w1 ≠ fresh_id w2 →
   document_count
     (Process.save w2
        (Process.user_sync w2
           (Process.save w1 (Process.user_sync w1 db user) user url1 f1).2 user)
        user url2 f2).2 (user_id user) = 21).
Proof.
  intros Hpro Hcheck.
  assert (Hbelow : document_count db (user_id user) < 20).
  { unfold Process.limit_reached in Hcheck. rewrite Hpro in Hcheck.
    destruct (count_answers w1); [|discriminate].
    apply Nat.leb_gt. congruence. }
  split; [exact Hbelow|]. split; [|split].
  - intros db'. destruct (save_count w1 db' user url1 f1) as [_ Hle]. split.
    + specialize (Hle (user_id user)). rewrite decide_True in Hle by reflexivity. exact Hle.
    + intros other Hother.
      destruct (save_documents w1 db' user url1 f1) as [(_ & Hfresh & ->) | ->];
        cbv zeta; cbn [snd]; [|reflexivity].
      rewrite (document_count_insert db' _ _ other Hfresh). cbn [doc_userId].
      rewrite decide_False by congruence. lia.
  - intros request Huser. unfold Process.POST. rewrite Huser, Hcheck.
    destruct request as [|url]; [cbn [snd]; lia|].
    destruct (truthy (opt_or url "")); simpl negb; cbv iota; [|cbn [snd]; lia].
    cbv zeta. destruct (Process.process w1 (opt_or url "")) as [f|e].
    + destruct (save_count w1 (Process.user_sync w1 db user) user (opt_or url "") f)
        as [_ Hle].
      specialize (Hle (user_id user)). rewrite decide_True in Hle by reflexivity.
      rewrite document_count_sync in Hle. lia.
    + cbn [snd]. rewrite document_count_sync. lia.
  - intros _ Hnineteen Hcreate1 Hcreate2 Hfresh1 Hfresh2 Hdistinct.
    destruct (save_count w1 (Process.user_sync w1 db user) user url1 f1) as [Hfirst _].
    rewrite RouteFacts.user_sync_documents in Hfirst.
    specialize (Hfirst Hcreate1 Hfresh1 (user_id user)).
    rewrite decide_True, document_count_sync in Hfirst by reflexivity.
    destruct (save_count w2
                (Process.user_sync w2
                   (Process.save w1 (Process.user_sync w1 db user) user url1 f1).2 user)
                user url2 f2) as [Hsecond _].
    rewrite Hsecond; [rewrite decide_True, document_count_sync by reflexivity; lia
                     | exact Hcreate2 |].
    rewrite RouteFacts.user_sync_documents.
    destruct (save_documents w1 (Process.user_sync w1 db user) user url1 f1)
      as [(_ & _ & ->) | Hsaved]; cbv zeta; cbn [snd documents].
    + rewrite lookup_insert_ne by exact Hdistinct.
      now rewrite RouteFacts.user_sync_documents.
    + cbv zeta in Hsaved. rewrite Hsaved. cbn [snd].
      now rewrite RouteFacts.user_sync_documents.
Qed.

(** X8. A successful answer tells the truth about the store. Without a
    warning, the identifier returned is a new one, and the row stored under
    it has the Markdown returned, the URL of the request, the caller as
    owner and a title that is not empty, all other rows being as before.
    With the warning, the identifier starts with [temp-] and no document
    was added or changed. *)
Theorem success_is_stored (w : World) (db : Database) (request : RequestBody)
    (r : Process.Result) :
  (Process.POST w db request).1 = {| status := 200; body := Process.Success r |} →
  ∃ user url,
    currentUser w = Some user ∧ request = JsonBody (Some url) ∧ url ≠ "" ∧
    ((Process.warning r = None ∧ Process.id r = fresh_id w ∧
      documents db !! Process.id r = None ∧
      (∃ row, documents (Process.POST w db request).2 !! Process.id r = Some row ∧
              doc_markdown row = Some (Process.markdown r) ∧
              doc_url row = url ∧ doc_userId row = user_id user ∧
              doc_title row ≠ "") ∧
      ∀ other, other ≠ Process.id r →
               documents (Process.POST w db request).2 !! other = documents db !! other) ∨
     (Process.warning r = Some "Could not save to history" ∧
      Process.id r = "temp-" +:+ randomUUID w ∧
      documents (Process.POST w db request).2 = documents db)).
Proof.
  unfold Process.POST.
  destruct (currentUser w) as [user|]; [|discriminate].
  destruct (Process.limit_reached w db user) as [[|]|]; try discriminate.
  destruct request as [|[url|]]; try discriminate.
  simpl opt_or. destruct (truthy (or_else url "")) eqn:Hurl; [|discriminate].
  rewrite or_else_empty in *. simpl negb. cbv iota.
  destruct (Process.process w url) as [f|e]; [|discriminate].
  intros Hanswer. exists user, url.
  split; [reflexivity|]. split; [reflexivity|]. split; [now apply nonempty_truthy|].
  destruct (save_documents w (Process.user_sync w db user) user url f)
    as [(_ & Hfresh & Hsave) | Hsave]; rewrite Hsave in *; simpl in *.
  - injection Hanswer as <-. left. simpl.
    rewrite RouteFacts.user_sync_documents in *.
    split; [reflexivity|]. split; [reflexivity|]. split; [exact Hfresh|]. split.
    + eexists. split; [apply lookup_insert_eq|]. simpl.
      repeat split. now apply MetadataFacts.or_else_nonempty.
    + intros other Hother. now rewrite lookup_insert_ne.
  - injection Hanswer as <-. right. simpl.
    split; [reflexivity|]. split; [reflexivity|]. apply RouteFacts.user_sync_documents.
Qed.

(** X9. The answers of the route: the body is a result exactly when the
    status is 200, a request without session is answered 401 and nothing
    else is, and no other status than 200, 400, 401, 403, 422 and 500 is
    ever used. *)
Theorem POST_answers (w : World) (db : Database) (request : RequestBody) :
  (status (Process.POST w db request).1 = 200 ↔
   ∃ r, body (Process.POST w db request).1 = Process.Success r) ∧
  (status (Process.POST w db request).1 = 401 ↔ currentUser w = None) ∧
  status (Process.POST w db request).1 ∈ [200; 400; 401; 403; 422; 500].
Proof.
  unfold Process.POST.
  destruct (currentUser w) as [user|].
  2:{ simpl. repeat split; auto; try discriminate; try (intros [r Hr]; discriminate).
      apply list_elem_of_In; simpl; tauto. }
  assert (Hsave : ∀ db0 url f,
             status (Process.save w db0 user url f).1 = 200 ∧
             ∃ r, body (Process.save w db0 user url f).1 = Process.Success r).
  { intros db0 url f. unfold Process.save.
    destruct (if create_answers w then _ else _); simpl; eauto. }
  destruct (Process.limit_reached w db user) as [[|]|];
    [| destruct request as [|url];
       [| destruct (truthy (opt_or url "")); simpl negb; cbv iota;
          [destruct (Process.process w (opt_or url "")) as [f|e]|]] |].
  all: try (simpl; repeat split; try discriminate; try (intros [r Hr]; discriminate);
            apply list_elem_of_In; simpl; tauto).
  destruct (Hsave (Process.user_sync w db user) (opt_or url "") f) as [Hs Hb].
  rewrite Hs. repeat split; auto; try discriminate. apply list_elem_of_In; simpl; tauto.
Qed.

End Process.

(** Two requests of the sample user, both checked on a store with 19 of
    her documents: both are saved, and she has 21. *)
Lemma free_limit_overlap_witness :
  document_count MoreExamples.nineteen "user_1" = 19 ∧
  document_count
    (Process.save (MoreExamples.request_world "doc_21")
       (Process.user_sync (MoreExamples.request_world "doc_21")
          (Process.save (MoreExamples.request_world "doc_20")
             (Process.user_sync (MoreExamples.request_world "doc_20")
                MoreExamples.nineteen Examples.alice)
             Examples.alice Examples.video_url
             (youtube_fields None Examples.video_url)).2
          Examples.alice)
       Examples.alice Examples.video_url (youtube_fields None Examples.video_url)).2
    "user_1" = 21.
Proof.
  split; [vm_compute; reflexivity|].
  apply (proj2 (proj2 (proj2
           (@free_limit_overlap Examples.platform (MoreExamples.request_world "doc_20")
              (MoreExamples.request_world "doc_21") MoreExamples.nineteen Examples.alice
              Examples.video_url Examples.video_url
              (youtube_fields None Examples.video_url)
              (youtube_fields None Examples.video_url) eq_refl eq_refl))));
    first [reflexivity | discriminate | vm_compute; reflexivity].
Defined.

(** The document of the sample video is stored under [doc_1]. *)
Lemma success_is_stored_witness :
  ∃ user url,
    currentUser (Examples.world Examples.plain_sources TimedOut) = Some user ∧
    JsonBody (Some Examples.video_url) = JsonBody (Some url) ∧ url ≠ "".
Proof.
  destruct (@success_is_stored Examples.platform
              (Examples.world Examples.plain_sources TimedOut) Examples.empty_db
              (JsonBody (Some Examples.video_url)) _ eq_refl)
    as (user & url & Huser & Hreq & Hurl & _).
  exists user, url. auto.
Defined.

End StoreFacts.

(** ** What the continuation may change *)

Module ContinuationFacts.

Import JS JSFacts.

(** X10. The continuation changes at most the Markdown of one row: it adds
    and removes no document and leaves the users alone; every field of
    every row but the Markdown is kept; and a row's Markdown changes only
    when the answer is 200, the row is the one the request names and the
    caller owns it. Every other answer leaves the store as it was, and a
    document of somebody else is answered 403. *)
Theorem continuation_isolation (w : World) (db : Database)
    (request : option Continuation.Request) :
  users (Continuation.POST w db request).2 = users db ∧
  (∀ id, is_Some (documents (Continuation.POST w db request).2 !! id) ↔
         is_Some (documents db !! id)) ∧
  (∀ id row row',
     documents db !! id = Some row →
     documents (Continuation.POST w db request).2 !! id = Some row' →
     doc_id row' = doc_id row ∧ doc_url row' = doc_url row ∧
     doc_title row' = doc_title row ∧ doc_siteName row' = doc_siteName row ∧
     doc_userId row' = doc_userId row ∧
     (doc_markdown row' ≠ doc_markdown row →
      status (Continuation.POST w db request).1 = 200 ∧
      (∃ req, request = Some req ∧ Continuation.docId req = Some id) ∧
      ∃ user, currentUser w = Some user ∧ doc_userId row = user_id user)) ∧
  (status (Continuation.POST w db request).1 ≠ 200 →
   (Continuation.POST w db request).2 = db) ∧
  (∀ user req doc,
     currentUser w = Some user → request = Some req →
     opt_or (Continuation.docId req) "" ≠ "" →
     opt_or (Continuation.url req) "" ≠ "" → find_answers w = true →
     documents db !! opt_or (Continuation.docId req) "" = Some doc →
     doc_userId doc ≠ user_id user →
     status (Continuation.POST w db request).1 = 403).
Proof.
  assert (Hsame : ∀ answer : Response Continuation.Body,
            users (answer, db).2 = users db ∧
            (∀ id, is_Some (documents (answer, db).2 !! id) ↔ is_Some (documents db !! id)) ∧
            (∀ id row row',
               documents db !! id = Some row →
               documents (answer, db).2 !! id = Some row' →
               doc_id row' = doc_id row ∧ doc_url row' = doc_url row ∧
               doc_title row' = doc_title row ∧ doc_siteName row' = doc_siteName row ∧
               doc_userId row' = doc_userId row ∧
               (doc_markdown row' ≠ doc_markdown row →
                status (answer, db).1 = 200 ∧
                (∃ req, request = Some req ∧ Continuation.docId req = Some id) ∧
                ∃ user, currentUser w = Some user ∧ doc_userId row = user_id user)) ∧
            (status (answer, db).1 ≠ 200 → (answer, db).2 = db)).
  { intros answer. simpl. split; [reflexivity|]. split; [tauto|]. split; [|reflexivity].
    intros id row row' Hrow Hrow'. rewrite Hrow in Hrow'. injection Hrow' as <-.
    repeat split; congruence. }
  assert (Hkeep : ∀ (answer : Response Continuation.Body) (Q : Prop),
            Q →
            users (answer, db).2 = users db ∧
            (∀ id, is_Some (documents (answer, db).2 !! id) ↔ is_Some (documents db !! id)) ∧
            (∀ id row row',
               documents db !! id = Some row →
               documents (answer, db).2 !! id = Some row' →
               doc_id row' = doc_id row ∧ doc_url row' = doc_url row ∧
               doc_title row' = doc_title row ∧ doc_siteName row' = doc_siteName row ∧
               doc_userId row' = doc_userId row ∧
               (doc_markdown row' ≠ doc_markdown row →
                status (answer, db).1 = 200 ∧
                (∃ req, request = Some req ∧ Continuation.docId req = Some id) ∧
                ∃ user, currentUser w = Some user ∧ doc_userId row = user_id user)) ∧
            (status (answer, db).1 ≠ 200 → (answer, db).2 = db) ∧ Q).
  { intros answer Q HQ. destruct (Hsame answer) as (H1 & H2 & H3 & H4). auto. }
  unfold Continuation.POST.
  destruct (currentUser w) as [user|] eqn:Huser.
  2:{ apply Hkeep. intros; discriminate. }
  destruct request as [req|].
  2:{ apply Hkeep. intros; discriminate. }
  destruct (truthy (opt_or (Continuation.docId req) "")) eqn:Hid.
  2:{ apply Hkeep. intros user0 req0 doc _ [= <-] Hi. apply nonempty_truthy in Hi.
      congruence. }
  destruct (truthy (opt_or (Continuation.url req) "")) eqn:Hurl.
  2:{ apply Hkeep. intros user0 req0 doc _ [= <-] _ Hu. apply nonempty_truthy in Hu.
      congruence. }
  simpl negb. simpl orb. cbv iota.
  destruct (find_answers w) eqn:Hfind.
  2:{ apply Hkeep. intros; discriminate. }
  unfold document_findUnique.
  destruct (documents db !! opt_or (Continuation.docId req) "") as [doc|] eqn:Hdoc.
  2:{ apply Hkeep. intros; congruence. }
  destruct (String.eqb (doc_userId doc) (user_id user)) eqn:Howner.
  2:{ apply Hkeep. reflexivity. }
  apply String.eqb_eq in Howner. simpl negb. cbv iota.
  destruct (update_answers w).
  2:{ apply Hkeep. intros user0 req0 doc0 [= <-] [= <-] _ _ _ Hdoc0 Hne. congruence. }
  unfold document_update. rewrite Hdoc. simpl.
  split; [reflexivity|]. split; [|split; [|split]].
  - intros id. destruct (decide (opt_or (Continuation.docId req) "" = id)) as [<-|Hne].
    + rewrite lookup_insert_eq, Hdoc. split; eauto.
    + now rewrite lookup_insert_ne.
  - intros id row row' Hrow.
    destruct (decide (opt_or (Continuation.docId req) "" = id)) as [<-|Hne].
    + rewrite lookup_insert_eq. intros [= <-]. rewrite Hdoc in Hrow. injection Hrow as <-.
      simpl. split; [reflexivity|]. split; [reflexivity|]. split; [reflexivity|].
      split; [reflexivity|]. split; [reflexivity|]. intros _.
      split; [reflexivity|]. split; [|eauto].
      exists req. split; [reflexivity|].
      destruct (Continuation.docId req) as [s|]; [|discriminate].
      simpl in *. unfold or_else in *. destruct (truthy s); [reflexivity|discriminate].
    + rewrite lookup_insert_ne by exact Hne. intros Hrow'.
      rewrite Hrow in Hrow'. injection Hrow' as <-.
      split; [reflexivity|]. split; [reflexivity|]. split; [reflexivity|].
      split; [reflexivity|]. split; [reflexivity|]. intros Hm. now contradiction Hm.
  - intros Hne. now contradiction Hne.
  - intros user0 req0 doc0 [= <-] [= <-] _ _ _ Hdoc0 Hne. congruence.
Qed.

End ContinuationFacts.

(** ** Transcript blocks *)

Module TranscriptFacts.

Import JS JSFacts.

Lemma join_app (x y : list string) : join (x ++ y) = join x +:+ join y.
Proof.
  induction x as [|s x IH]; [reflexivity|].
  simpl. now rewrite IH, app_assoc.
Qed.

(** X11. An empty transcript is not a failure: its block is the heading
    alone, and no transcript block equals the block of a failed fetch.
    The block of a transcript continued by further segments is the block of
    the transcript followed by the lines of these segments, in their order. *)
Theorem transcript_block_append (a b : list TranscriptItem) :
  transcriptMarkdown (Some []) = transcript_heading ∧
  transcriptMarkdown (Some a) ≠ transcriptMarkdown None ∧
  transcriptMarkdown (Some (a ++ b)) =
    transcriptMarkdown (Some a) +:+ join (transcript_line <$> b).
Proof.
  split; [reflexivity|]. split.
  - simpl. rewrite TwoPhase.transcript_lines. discriminate.
  - simpl. now rewrite !TwoPhase.transcript_lines, fmap_app, join_app, app_assoc.
Qed.

End TranscriptFacts.

(** ** The answers of the processor route *)

Module ProcessorFacts.

Import JS JSFacts Extraction.

Section Answers.

Context `{Platform}.

(** What a page that was scraped holds. *)
Lemma scrape_page (url : string) (p : Processor.Page) :
  Processor.scrape url = Ret p →
  ∃ response article,
    fetch url = Ret response ∧ ok response = true ∧
    Readability_parse (JSDOM (DOMPurify_sanitize (response_text response))) = Some article ∧
    article_content article ≠ "" ∧
    extractLinks (JSDOM (DOMPurify_sanitize (response_text response))) url
      = Ret (Processor.page_links p) ∧
    extractImages (JSDOM (DOMPurify_sanitize (response_text response))) url
      = Ret (Processor.page_images p) ∧
    Processor.page_headings p
      = extractHeadings (JSDOM (DOMPurify_sanitize (response_text response))) ∧
    Processor.page_wikipedia p
      = (if includes url "wikipedia.org"
         then Some (extractWikipediaData (JSDOM (response_text response)))
         else None) ∧
    f_title (Processor.page_fields p) = or_else (article_title article) "Untitled" ∧
    f_markdown (Processor.page_fields p)
      = turndown plain_service (article_content article) ∧
    f_content (Processor.page_fields p) = article_content article ∧
    f_needsTranscript (Processor.page_fields p) = false.
Proof.
  unfold Processor.scrape.
  destruct (fetch url) as [response|e] eqn:Hfetch; [|discriminate]. simpl.
  destruct (ok response) eqn:Hok; [|discriminate]. simpl.
  destruct (extractLinks _ url) as [ls|e] eqn:Hlinks; [|discriminate]. simpl.
  destruct (extractImages _ url) as [imgs|e] eqn:Himages; [|discriminate]. simpl.
  destruct (Readability_parse _) as [article|] eqn:Hparse; [|discriminate].
  destruct (truthy (article_content article)) eqn:Hcontent; [|discriminate]. simpl.
  destruct (match article_siteName article with
            | Some s => if truthy s then mret s else URL_hostname url
            | None => URL_hostname url
            end) as [site|e]; [|discriminate]. simpl.
  intros [= <-]. exists response, article. simpl.
  rewrite or_else_empty.
  split; [reflexivity|]. split; [exact Hok|]. split; [exact Hparse|].
  split; [now apply truthy_ne|]. split; [exact Hlinks|]. split; [exact Himages|].
  repeat split.
Qed.

(** X12. A result of the processor route says what kind of URL it was:
    [needsTranscript] is set exactly for a video URL, whose result has no
    structured field; the result of a page always has its headings, images
    and links, the links being at most 100 with different addresses, and
    its Markdown is Turndown's rendering of its content. The title is never
    empty and the word count is the one of the text returned. *)
Theorem processor_result (w : World) (url : string) (r : Processor.Result) :
  Processor.POST w (JsonBody (Some url)) =
    {| status := 200; body := Processor.Success r |} →
  Processor.needsTranscript r = isYoutubeUrl url ∧
  Processor.sourceUrl r = url ∧
  Processor.wordCount r = count_words false (Processor.textContent r) ∧
  Processor.result_title r ≠ "" ∧
  (isYoutubeUrl url = true →
   Processor.links r = None ∧ Processor.images r = None ∧
   Processor.headings r = None ∧ Processor.language r = None ∧
   Processor.wikipedia r = None) ∧
  (isYoutubeUrl url = false →
   (∃ ls, Processor.links r = Some ls ∧ length ls ≤ 100 ∧ NoDup (link_href <$> ls)) ∧
   is_Some (Processor.images r) ∧ is_Some (Processor.headings r) ∧
   is_Some (Processor.language r) ∧
   Processor.markdown r = turndown plain_service (Processor.content r)).
Proof.
  unfold Processor.POST.
  destruct (truthy (opt_or (Some url) "")) eqn:Hurl; [|discriminate].
  rewrite (truthy_opt_or url) by (now destruct url). simpl negb. cbv iota.
  destruct (isYoutubeUrl url) eqn:Hyt.
  - intros [= <-]. simpl. repeat split; auto; try discriminate.
    apply MetadataFacts.opt_or_nonempty. now destruct url.
  - destruct (Processor.scrape url) as [p|e] eqn:Hscrape; [|discriminate].
    intros [= <-].
    destruct (scrape_page url p Hscrape)
      as (response & article & _ & _ & _ & Hcontent & Hlinks & _ & _ & _ &
          Htitle & Hmd & Hc & Hnt).
    simpl. rewrite Hnt, Htitle, Hmd, Hc.
    split; [reflexivity|]. split; [reflexivity|]. split; [reflexivity|].
    split; [apply MetadataFacts.or_else_nonempty; discriminate|].
    split; [discriminate|]. intros _.
    split; [|repeat split; eauto].
    exists (Processor.page_links p). split; [reflexivity|].
    unfold extractLinks, extractLinks_from in Hlinks.
    destruct (ExtractionFacts.extractLinks_loop url
                (DOM.doc_querySelectorAll
                   (JSDOM (DOMPurify_sanitize (response_text response)))
                   [DOM.ByTagAttr "a" "href"])
                _ ExtractionFacts.links_invariant_initial)
      as (vars' & extra & Hrun & (Hlen & Hnodup & _) & _).
    rewrite Hrun in Hlinks. simpl in Hlinks. injection Hlinks as <-. auto.
Qed.

(** X13. The [wikipedia] field of a result is there only for a URL that
    contains [wikipedia.org], and only when the page gave an infobox,
    categories or references. *)
Theorem wikipedia_field (w : World) (url : string) (r : Processor.Result)
    (data : WikipediaData) :
  Processor.POST w (JsonBody (Some url)) =
    {| status := 200; body := Processor.Success r |} →
  Processor.wikipedia r = Some data →
  includes url "wikipedia.org" = true ∧ isYoutubeUrl url = false ∧
  (is_Some (infobox data) ∨ is_Some (categories data) ∨ is_Some (references data)).
Proof.
  unfold Processor.POST.
  destruct (truthy (opt_or (Some url) "")) eqn:Hurl; [|discriminate].
  rewrite (truthy_opt_or url) by (now destruct url). simpl negb. cbv iota.
  destruct (isYoutubeUrl url) eqn:Hyt; [intros [= <-]; discriminate|].
  destruct (Processor.scrape url) as [p|e] eqn:Hscrape; [|discriminate].
  intros [= <-]. simpl.
  destruct (scrape_page url p Hscrape)
    as (response & article & _ & _ & _ & _ & _ & _ & _ & Hwiki & _).
  rewrite Hwiki. unfold Processor.wikipedia_present.
  destruct (includes url "wikipedia.org"); [|discriminate].
  destruct (extractWikipediaData _) as [[i|] [c|] [rs|]]; simpl;
    intros [= <-]; simpl; eauto 6.
Qed.

End Answers.

(** The sample encyclopedia article is answered with its links, its
    structure and the Markdown of its content. *)
Lemma processor_result_witness :
  ∃ r, @Processor.POST MoreExamples.reading_platform
         (Examples.world Examples.plain_sources TimedOut)
         (JsonBody (Some MoreExamples.article_url)) =
       {| status := 200; body := Processor.Success r |} ∧
       Processor.needsTranscript r = isYoutubeUrl MoreExamples.article_url ∧
       Processor.sourceUrl r = MoreExamples.article_url.
Proof.
  eexists. split; [vm_compute; reflexivity|].
  destruct (@processor_result MoreExamples.reading_platform
              (Examples.world Examples.plain_sources TimedOut)
              MoreExamples.article_url _ eq_refl) as (Hneeds & Hsource & _).
  split; [exact Hneeds | exact Hsource].
Defined.

(** The sample encyclopedia article has an infobox. *)
Lemma wikipedia_field_witness :
  ∃ r data, @Processor.POST MoreExamples.reading_platform
              (Examples.world Examples.plain_sources TimedOut)
              (JsonBody (Some MoreExamples.article_url)) =
            {| status := 200; body := Processor.Success r |} ∧
            Processor.wikipedia r = Some data ∧
            includes MoreExamples.article_url "wikipedia.org" = true.
Proof.
  eexists. eexists. split; [vm_compute; reflexivity|].
  split; [vm_compute; reflexivity|].
  exact (proj1 (@wikipedia_field MoreExamples.reading_platform
                  (Examples.world Examples.plain_sources TimedOut)
                  MoreExamples.article_url _ _ eq_refl eq_refl)).
Defined.

End ProcessorFacts.

(** ** The single-phase video route *)

Module LegacyVideoFacts.

Import JS JSFacts.

Lemma slice_to_length (n : nat) (s : string) : String.length (LegacyVideo.slice_to n s) ≤ n.
Proof.
  revert s. induction n as [|n IH]; intros [|c s]; simpl; try lia.
  specialize (IH s). lia.
Qed.

Lemma slice_to_nonempty (n : nat) (s : string) :
  s ≠ "" → LegacyVideo.slice_to (S n) s ≠ "".
Proof. destruct s; [congruence|discriminate]. Qed.

(** X14. The metadata scrape of the single-phase route gives nothing
    exactly when the watch page cannot be read. Its title and channel are
    never empty; the oEmbed answer is not looked at when the page has a
    title of its own; and the description is the one the two-phase routes
    find on the same page. *)
Theorem legacy_metadata (page : option LegacyVideo.ScrapedPage)
    (oembed : option OEmbedData) :
  (LegacyVideo.getYouTubeMetadata page oembed = None ↔ page = None) ∧
  (∀ m, LegacyVideo.getYouTubeMetadata page oembed = Some m →
        title m ≠ "" ∧ channel m ≠ "") ∧
  (∀ sp t, page = Some sp →
     opt_or (og_title (LegacyVideo.watch sp))
       (or_else (document_title (LegacyVideo.watch sp)) "Unknown Title") = t →
     t ≠ "Unknown Title" → t ≠ "YouTube" →
     ∃ m, LegacyVideo.getYouTubeMetadata page oembed = Some m ∧ title m = t ∧
          LegacyVideo.getYouTubeMetadata page None = Some m) ∧
  (∀ sp m m' oembed', page = Some sp →
     LegacyVideo.getYouTubeMetadata page oembed = Some m →
     getYouTubeMetadata oembed' (Some (LegacyVideo.watch sp)) = Some m' →
     description m' = description m).
Proof.
  split; [|split; [|split]].
  - destruct page; simpl; split; congruence.
  - intros m. destruct page as [sp|]; [|discriminate]. unfold LegacyVideo.getYouTubeMetadata.
    set (m0 := Build_Metadata (opt_or _ _) "YouTube" "").
    set (m1 := if orb _ _ then _ else m0).
    assert (H0 : title m0 ≠ "").
    { apply MetadataFacts.opt_or_nonempty, MetadataFacts.or_else_nonempty. discriminate. }
    assert (H1 : title m1 ≠ "" ∧ channel m1 ≠ "").
    { unfold m1. destruct (_ || _); [|split; [exact H0|discriminate]].
      destruct oembed as [d|]; [|split; [exact H0|discriminate]].
      split; apply MetadataFacts.opt_or_nonempty; [exact H0|discriminate]. }
    intros [= <-]. simpl. split; [apply H1|].
    destruct (String.eqb (channel m1) "YouTube"); [|apply H1].
    apply MetadataFacts.opt_or_nonempty, MetadataFacts.opt_or_nonempty. discriminate.
  - intros sp t -> Ht Hunknown Hyoutube. unfold LegacyVideo.getYouTubeMetadata.
    cbv zeta. cbn [title channel description]. rewrite Ht.
    rewrite (proj2 (String.eqb_neq _ _) Hunknown), (proj2 (String.eqb_neq _ _) Hyoutube).
    simpl. eauto.
  - intros sp m m' oembed' -> Hm Hm'.
    unfold LegacyVideo.getYouTubeMetadata in Hm. injection Hm as <-.
    unfold getYouTubeMetadata in Hm'. simpl in Hm'.
    destruct (_ && _); [discriminate|]. injection Hm' as <-. reflexivity.
Qed.

Section Route.

Context `{Platform}.

(** X15. The single-phase route answers every video URL the platform can
    parse with a result, whatever the scrape and the transcript fetch give.
    The result has a title, its site name and byline are the channel, its
    excerpt is at most 203 characters long, and its Markdown is the header
    followed by the transcript block of the two-phase routes without the
    two line feeds that block starts with. *)
Theorem single_phase_video (s : LegacyVideo.Sources) (url href : string) :
  isYoutubeUrl url = true →
  URL_new url None = Ret href →
  ∃ r channel excerpt tail,
    LegacyVideo.POST s (Some (Some url)) =
      {| status := 200; body := Legacy.Success r |} ∧
    Legacy.result_title r ≠ "" ∧
    Legacy.siteName r = Some channel ∧ Legacy.byline r = Some channel ∧ channel ≠ "" ∧
    Legacy.excerpt r = Some excerpt ∧ String.length excerpt ≤ 203 ∧
    Legacy.markdown r =
      youtube_header (Legacy.result_title r) channel url
        (metadata_description
           (LegacyVideo.getYouTubeMetadata (LegacyVideo.scraped s url)
              (LegacyVideo.oembed_of s url))) +:+ tail ∧
    transcriptMarkdown (fetchTranscriptWithTimeout (LegacyVideo.race s url)) =
      LF +:+ LF +:+ tail.
Proof.
  intros Hyt Hurl. unfold LegacyVideo.POST.
  rewrite (truthy_opt_or url (TwoPhase.youtube_url_truthy url Hyt)).
  rewrite (TwoPhase.youtube_url_truthy url Hyt). simpl negb. cbv iota.
  rewrite Hurl, Hyt.
  set (metadata := LegacyVideo.getYouTubeMetadata _ _).
  set (transcript := fetchTranscriptWithTimeout _).
  exists (LegacyVideo.youtube_result metadata transcript url).
  exists (opt_or (channel <$> metadata) "YouTube").
  exists (if truthy (metadata_description metadata)
          then LegacyVideo.slice_to 200 (metadata_description metadata) +:+ "..."
          else "").
  exists (LegacyVideo.transcript_intro transcript +:+
          match transcript with
          | Some items => join (transcript_line <$> items)
          | None => ""
          end).
  split; [reflexivity|].
  assert (Htitle : opt_or (title <$> metadata) ("YouTube Transcript: " +:+ url) ≠ "").
  { apply MetadataFacts.opt_or_nonempty. discriminate. }
  assert (Hchannel : opt_or (channel <$> metadata) "YouTube" ≠ "").
  { apply MetadataFacts.opt_or_nonempty. discriminate. }
  assert (Hexcerpt :
    String.length (if truthy (metadata_description metadata)
                   then LegacyVideo.slice_to 200 (metadata_description metadata) +:+ "..."
                   else "") ≤ 203).
  { destruct (truthy _); [|simpl; lia]. rewrite length_app.
    pose proof (slice_to_length 200 (metadata_description metadata)).
    change (String.length "...") with 3. lia. }
  destruct transcript as [items|]; unfold LegacyVideo.youtube_result;
    cbn [Legacy.result_title Legacy.siteName Legacy.byline Legacy.excerpt Legacy.markdown].
  - do 6 (split; [done|]). split.
    + now rewrite TwoPhase.transcript_lines, !app_assoc.
    + unfold transcriptMarkdown. rewrite TwoPhase.transcript_lines.
      unfold transcript_heading, LegacyVideo.transcript_intro.
      now rewrite !app_assoc.
  - do 6 (split; [done|]). split.
    + now rewrite app_nil_r.
    + unfold transcriptMarkdown, transcript_error_note, LegacyVideo.transcript_intro.
      now rewrite app_nil_r.
Qed.

End Route.

(** The sample video, with two segments. *)
Lemma single_phase_video_witness :
  ∃ r, @LegacyVideo.POST Examples.platform (MoreExamples.sources (Fetched MoreExamples.segments))
         (Some (Some Examples.video_url)) =
       {| status := 200; body := Legacy.Success r |} ∧
       Legacy.result_title r ≠ "".
Proof.
  destruct (@single_phase_video Examples.platform
              (MoreExamples.sources (Fetched MoreExamples.segments))
              Examples.video_url Examples.video_url eq_refl eq_refl)
    as (r & _ & _ & _ & Hpost & Htitle & _).
  exists r. split; [exact Hpost | exact Htitle].
Defined.

End LegacyVideoFacts.

(** ** The local route *)

Module LocalFacts.

Import JS JSFacts.

Lemma note_is_not_error : Local.no_transcript_note ≠ transcript_error_note.
Proof. discriminate. Qed.

Lemma note_is_not_heading : Local.no_transcript_note ≠ transcript_heading.
Proof. discriminate. Qed.

Section Route.

Context `{Platform}.

(** X16. The local route answers every video URL with a result, even one
    the platform cannot parse, and whatever the metadata and transcript
    fetches give. The identifier is the drawn one after [local-], title and
    site name are not empty, and the Markdown is the header followed by
    the transcript part: the note exactly when the transcript is missing or
    has no segment, and otherwise the block of the two-phase routes without
    its two leading line feeds. *)
Theorem local_video (w : World) (url : string) :
  isYoutubeUrl url = true →
  ∃ r part,
    Local.POST w (JsonBody (Some url)) = {| status := 200; body := Local.Success r |} ∧
    Local.id r = "local-" +:+ randomUUID w ∧
    Local.result_title r ≠ "" ∧ Local.siteName r ≠ "" ∧
    Local.markdown r =
      youtube_header (Local.result_title r) (Local.siteName r) url
        (metadata_description (resolve_metadata (video w) url)) +:+ part ∧
    (part = Local.no_transcript_note ↔
     fetchTranscriptWithTimeout (transcript_race w url) = None ∨
     fetchTranscriptWithTimeout (transcript_race w url) = Some []) ∧
    (∀ item items,
       fetchTranscriptWithTimeout (transcript_race w url) = Some (item :: items) →
       transcriptMarkdown (Some (item :: items)) = LF +:+ LF +:+ part).
Proof.
  intros Hyt. unfold Local.POST.
  rewrite (truthy_opt_or url (TwoPhase.youtube_url_truthy url Hyt)).
  rewrite (TwoPhase.youtube_url_truthy url Hyt). simpl negb. cbv iota.
  rewrite Hyt.
  set (metadata := resolve_metadata _ _).
  set (transcript := fetchTranscriptWithTimeout _).
  exists (Local.youtube_result w metadata transcript url), (Local.transcript_part transcript).
  split; [reflexivity|]. split; [reflexivity|].
  split; [apply MetadataFacts.opt_or_nonempty; discriminate|].
  split; [apply MetadataFacts.opt_or_nonempty; discriminate|].
  split; [reflexivity|]. split.
  - destruct transcript as [[|item items]|]; simpl; try tauto.
    split; [|intros [|]; discriminate].
    rewrite TwoPhase.transcript_lines. intros Heq.
    apply (f_equal (λ s, String.get 2 s)) in Heq. discriminate.
  - intros item items ->. unfold Local.transcript_part, transcriptMarkdown.
    rewrite !TwoPhase.transcript_lines. unfold transcript_heading.
    now rewrite !app_assoc.
Qed.

(** X17. For an address that is not a video, the local route answers as
    the authenticated route does: where that route answers with a result,
    the local route gives the same title, Markdown, content, text and site
    name under a [local-] identifier, and where it answers 422 the local
    route answers 422 with the same message. *)
Theorem local_agrees_with_process (w : World) (db db' : Database) (url : string) :
  isYoutubeUrl url = false →
  (∀ r, Process.POST w db (JsonBody (Some url)) =
          ({| status := 200; body := Process.Success r |}, db') →
        ∃ r', Local.POST w (JsonBody (Some url)) =
                {| status := 200; body := Local.Success r' |} ∧
              Local.id r' = "local-" +:+ randomUUID w ∧
              Local.result_title r' = Process.result_title r ∧
              Local.markdown r' = Process.markdown r ∧
              Local.content r' = Process.content r ∧
              Local.textContent r' = Process.textContent r ∧
              Local.siteName r' = Process.siteName r) ∧
  (∀ message, Process.POST w db (JsonBody (Some url)) =
                ({| status := 422; body := Process.Error message |}, db') →
              Local.POST w (JsonBody (Some url)) =
                {| status := 422; body := Local.Error message |}).
Proof.
  intros Hyt. unfold Process.POST, Local.POST.
  destruct (currentUser w) as [user|]; [|split; intros; discriminate].
  destruct (Process.limit_reached w db user) as [[|]|]; try (split; intros; discriminate).
  destruct (truthy (opt_or (Some url) "")) eqn:Hurl; simpl negb; cbv iota;
    [|split; intros; discriminate].
  assert (Heq : opt_or (Some url) "" = url).
  { apply truthy_opt_or. simpl in Hurl. unfold or_else in Hurl.
    now destruct (truthy url). }
  rewrite Heq. unfold Process.process. rewrite Hyt.
  destruct (scrape url) as [f|e].
  - split.
    + intros r. unfold Process.save.
      destruct (if create_answers w then _ else _); intros [= <- <-];
        eexists; (split; [reflexivity|]); simpl; auto 10.
    + intros message. unfold Process.save.
      destruct (if create_answers w then _ else _); discriminate.
  - split; [discriminate|]. now intros message [= <- <-].
Qed.

(** X18. The transcript route that calls the fetch itself answers every
    request that names a URL with a block, whatever the fetch gives. The
    block starts with two line feeds, and it is the block of the timed
    route exactly when the fetch returned at least one segment: a missing
    or empty transcript gives the note instead of the error line or the
    bare heading. A thrown error without message is reported as unknown.
    The variant with a session answers 401 without one and the same
    otherwise. *)
Theorem direct_transcript (fetch_transcript : string → exc (option (list TranscriptItem)))
    (url : string) :
  url ≠ "" →
  ∃ block,
    Local.transcript_POST fetch_transcript (Some (Some url)) =
      {| status := 200; body := Processor.TranscriptSuccess block |} ∧
    (∃ rest, block = LF +:+ LF +:+ rest) ∧
    (∀ tr, fetch_transcript url = Ret tr →
           (block = transcriptMarkdown tr ↔ ∃ item items, tr = Some (item :: items))) ∧
    (fetch_transcript url = Throw "" →
     block = Local.direct_block (Throw "Unknown error")) ∧
    (∀ w, Local.transcript_POST_session w fetch_transcript (Some (Some url)) =
          match currentUser w with
          | Some _ => {| status := 200; body := Processor.TranscriptSuccess block |}
          | None => {| status := 401; body := Processor.TranscriptError "Unauthorized" |}
          end).
Proof.
  intros Hurl. apply nonempty_truthy in Hurl.
  unfold Local.transcript_POST_session, Local.transcript_POST.
  rewrite (truthy_opt_or url Hurl), Hurl. simpl negb. cbv iota.
  eexists. split; [reflexivity|]. split; [|split; [|split; [|now intros w; destruct (currentUser w)]]].
  - destruct (fetch_transcript url) as [[[|item items]|]|message];
      unfold Local.direct_block, Local.no_transcript_note; eauto.
    rewrite TwoPhase.transcript_lines. unfold transcript_heading.
    rewrite !app_assoc. eauto.
  - intros tr ->. destruct tr as [[|item items]|]; simpl.
    + split; [intros Heq; now apply note_is_not_heading in Heq|].
      intros (item & items & [=]).
    + split; [eauto|reflexivity].
    + split; [intros Heq; now apply note_is_not_error in Heq|].
      intros (item & items & [=]).
  - now intros ->.
Qed.

End Route.

(** The sample article is read by both routes. *)
Lemma local_agrees_with_process_witness :
  ∃ r r',
    @Process.POST MoreExamples.reading_platform
      (Examples.world Examples.plain_sources TimedOut) Examples.empty_db
      (JsonBody (Some MoreExamples.article_url)) =
      ({| status := 200; body := Process.Success r |},
       (@Process.POST MoreExamples.reading_platform
          (Examples.world Examples.plain_sources TimedOut) Examples.empty_db
          (JsonBody (Some MoreExamples.article_url))).2) ∧
    @Local.POST MoreExamples.reading_platform
      (Examples.world Examples.plain_sources TimedOut)
      (JsonBody (Some MoreExamples.article_url)) =
      {| status := 200; body := Local.Success r' |} ∧
    Local.markdown r' = Process.markdown r.
Proof.
  eexists.
  destruct (proj1 (@local_agrees_with_process MoreExamples.reading_platform
                     (Examples.world Examples.plain_sources TimedOut) Examples.empty_db _
                     MoreExamples.article_url eq_refl) _ eq_refl)
    as (r' & Hpost & _ & _ & Hmarkdown & _).
  exists r'. split; [vm_compute; reflexivity|]. split; [exact Hpost | exact Hmarkdown].
Defined.

Lemma direct_transcript_witness :
  ∃ block,
    Local.transcript_POST (λ _, Ret (Some MoreExamples.segments))
      (Some (Some Examples.video_url)) =
    {| status := 200; body := Processor.TranscriptSuccess block |}.
Proof.
  destruct (direct_transcript (λ _, Ret (Some MoreExamples.segments)) Examples.video_url)
    as (block & Hpost & _); [discriminate|].
  exists block. exact Hpost.
Defined.

Lemma local_video_witness :
  ∃ r, @Local.POST Examples.platform (Examples.world Examples.plain_sources TimedOut)
         (JsonBody (Some Examples.video_url)) =
       {| status := 200; body := Local.Success r |} ∧
       Local.id r = "local-0000".
Proof.
  destruct (@local_video Examples.platform (Examples.world Examples.plain_sources TimedOut)
              Examples.video_url eq_refl) as (r & _ & Hpost & Hid & _).
  exists r. split; [exact Hpost | exact Hid].
Defined.

End LocalFacts.

(** ** The dashboard page *)

Module DashboardFacts.

Import JS JSFacts.

Lemma split_cons (sep : ascii) (s : string) : ∃ piece rest, Dashboard.split sep s = piece :: rest.
Proof.
  induction s as [|c s (piece & rest & IH)]; simpl; [eauto|].
  destruct (Ascii.eqb c sep); [eauto|]. rewrite IH. eauto.
Qed.

Lemma split_app (sep : ascii) (a b : string) :
  Dashboard.split sep (a +:+ String sep b) = Dashboard.split sep a ++ Dashboard.split sep b.
Proof.
  induction a as [|c a IH].
  - rewrite app_nil_l. simpl. now rewrite Ascii.eqb_refl.
  - rewrite app_cons. simpl. destruct (Ascii.eqb c sep); [now rewrite IH|].
    rewrite IH. destruct (split_cons sep a) as (piece & rest & ->). reflexivity.
Qed.

Lemma split_no_sep (sep : ascii) (s : string) :
  Forall (λ piece, has_char sep piece = false) (Dashboard.split sep s).
Proof.
  induction s as [|c s IH]; simpl; [repeat constructor|].
  destruct (Ascii.eqb c sep) eqn:Hc; [constructor; [reflexivity|exact IH]|].
  destruct (Dashboard.split sep s) as [|piece rest]; [repeat constructor; simpl; now rewrite Hc|].
  inversion IH as [|? ? Hpiece Hrest]; subst. constructor; [|exact Hrest].
  simpl. now rewrite Hc.
Qed.

Lemma trimEnd_idempotent (s : string) : trimEnd (trimEnd s) = trimEnd s.
Proof.
  induction s as [|c s IH]; [reflexivity|]. simpl.
  destruct (trimEnd s) as [|d t] eqn:Hend.
  - destruct (isWhiteSpace c) eqn:Hc; [reflexivity|]. simpl. now rewrite Hc.
  - change (trimEnd (String c (String d t))) with
      (match trimEnd (String d t) with
       | EmptyString => if isWhiteSpace c then EmptyString else String c EmptyString
       | u => String c u
       end).
    now rewrite IH.
Qed.

Lemma trimStart_head (s : string) :
  trimStart s = "" ∨ ∃ c t, trimStart s = String c t ∧ isWhiteSpace c = false.
Proof.
  induction s as [|c s IH]; [now left|]. simpl.
  destruct (isWhiteSpace c) eqn:Hc; [exact IH|]. right. eauto.
Qed.

Lemma trim_idempotent (s : string) : trim (trim s) = trim s.
Proof.
  unfold trim. destruct (trimStart_head s) as [->|(c & t & -> & Hc)]; [reflexivity|].
  assert (Hhead : ∃ u, trimEnd (String c t) = String c u).
  { simpl. destruct (trimEnd t); [rewrite Hc|]; eauto. }
  destruct Hhead as (u & Hu). rewrite Hu.
  change (trimStart (String c u)) with (if isWhiteSpace c then trimStart u else String c u).
  rewrite Hc, <- Hu. apply trimEnd_idempotent.
Qed.

Lemma has_char_trimStart (c : ascii) (s : string) :
  has_char c s = false → has_char c (trimStart s) = false.
Proof.
  induction s as [|x s IH]; [reflexivity|]. simpl.
  destruct (isWhiteSpace x); [|now simpl].
  intros [_ Hs]%orb_false_iff. now apply IH.
Qed.

Lemma has_char_trimEnd (c : ascii) (s : string) :
  has_char c s = false → has_char c (trimEnd s) = false.
Proof.
  induction s as [|x s IH]; [reflexivity|]. simpl.
  intros [Hx Hs]%orb_false_iff. specialize (IH Hs).
  destruct (trimEnd s) as [|d t].
  - destruct (isWhiteSpace x); [reflexivity|]. simpl. now rewrite Hx.
  - change (has_char c (String x (String d t))) with
      (Ascii.eqb x c || has_char c (String d t)).
    now rewrite Hx, IH.
Qed.

Lemma urls_of_each (s : string) :
  Forall (λ u, u ≠ "" ∧ has_char Dashboard.newline u = false ∧ trim u = u)
    (Dashboard.urls_of s).
Proof.
  apply Forall_forall. intros u [Hlen Hin]%list_elem_of_filter.
  apply list_elem_of_fmap in Hin as (piece & -> & Hpiece).
  pose proof (split_no_sep Dashboard.newline s) as Hsep.
  rewrite Forall_forall in Hsep. specialize (Hsep piece Hpiece).
  split; [intros Heq; rewrite Heq in Hlen; simpl in Hlen; lia|].
  split; [|apply trim_idempotent].
  unfold trim. now apply has_char_trimEnd, has_char_trimStart.
Qed.

(** X19. The addresses [handleCompile] reads from the text area are the
    trimmed lines that are not blank, in their order: the addresses of two
    texts joined by a line feed are those of the first followed by those of
    the second, and every address is non-empty, has no line feed, and has
    nothing left to trim. *)
Theorem urls_of_lines (a b : string) :
  Dashboard.urls_of (a +:+ LF +:+ b) = Dashboard.urls_of a ++ Dashboard.urls_of b ∧
  Forall (λ u, u ≠ "" ∧ has_char Dashboard.newline u = false ∧ trim u = u)
    (Dashboard.urls_of a).
Proof.
  split.
  - unfold Dashboard.urls_of.
    change (a +:+ LF +:+ b) with (a +:+ String Dashboard.newline ("" +:+ b)).
    now rewrite app_nil_l, split_app, fmap_app, filter_app.
  - apply urls_of_each.
Qed.

Lemma trim_cons_empty (c : ascii) (s : string) :
  trim (String c s) = "" → isWhiteSpace c = true ∧ trim s = "".
Proof.
  unfold trim.
  change (trimStart (String c s)) with (if isWhiteSpace c then trimStart s else String c s).
  destruct (isWhiteSpace c) eqn:Hc; [now split|].
  change (trimEnd (String c s)) with
    (match trimEnd s with
     | EmptyString => if isWhiteSpace c then EmptyString else String c EmptyString
     | t => String c t
     end).
  rewrite Hc. destruct (trimEnd s); discriminate.
Qed.

Lemma trim_cons_space (c : ascii) (s : string) :
  isWhiteSpace c = true → trim (String c s) = trim s.
Proof.
  intros Hc. unfold trim.
  change (trimStart (String c s)) with (if isWhiteSpace c then trimStart s else String c s).
  now rewrite Hc.
Qed.

Lemma urls_of_none (s : string) : Dashboard.urls_of s = [] → trim s = "".
Proof.
  unfold Dashboard.urls_of. induction s as [|c s IH]; [reflexivity|]. simpl.
  destruct (Ascii.eqb c Dashboard.newline) eqn:Hc.
  - apply Ascii.eqb_eq in Hc as ->. rewrite fmap_cons, filter_cons_False by (simpl; lia).
    intros Hnone. now rewrite trim_cons_space, IH.
  - destruct (split_cons Dashboard.newline s) as (piece & rest & Hsplit).
    rewrite Hsplit in *. rewrite !fmap_cons, !filter_cons.
    destruct (decide (0 < String.length (trim (String c piece)))) as [|Hempty];
      [discriminate|].
    assert (Htrim : trim (String c piece) = "").
    { destruct (trim (String c piece)); [reflexivity|simpl in Hempty; lia]. }
    apply trim_cons_empty in Htrim as [Hspace Hpiece]. intros Hnone.
    rewrite trim_cons_space by exact Hspace. apply IH.
    rewrite fmap_cons, filter_cons, Hpiece.
    destruct (decide (0 < String.length "")) as [Hlt|_]; [simpl in Hlt; lia|exact Hnone].
Qed.

(** X20. [handleCompile] does nothing for a visitor who is not signed in
    or for a blank text. Otherwise it clears the text and puts one pending
    document per address, in order and with the identifiers drawn, in front
    of the documents there were; there is at least one. It never touches
    the selection or the documents there were. *)
Theorem handleCompile_state (isSignedIn : bool) (uuid : nat → string)
    (st : Dashboard.State) :
  let after := Dashboard.handleCompile isSignedIn uuid st in
  Dashboard.documents after.1 = after.2 ++ Dashboard.documents st ∧
  Dashboard.selectedDocId after.1 = Dashboard.selectedDocId st ∧
  Forall (λ d, Dashboard.status d = Dashboard.pending ∧ Dashboard.result d = None ∧
               Dashboard.url d ≠ "") after.2 ∧
  (isSignedIn = false ∨ trim (Dashboard.inputUrls st) = "" → after = (st, [])) ∧
  (isSignedIn = true → trim (Dashboard.inputUrls st) ≠ "" →
   Dashboard.inputUrls after.1 = "" ∧ after.2 ≠ [] ∧
   Dashboard.url <$> after.2 = Dashboard.urls_of (Dashboard.inputUrls st) ∧
   ∀ i d, after.2 !! i = Some d → Dashboard.id d = uuid i).
Proof.
  unfold Dashboard.handleCompile.
  destruct isSignedIn; simpl negb; cbv iota;
    [|cbv zeta; simpl; repeat split; auto; discriminate].
  destruct (truthy (trim (Dashboard.inputUrls st))) eqn:Htrim; simpl negb; cbv iota.
  - apply truthy_ne in Htrim. cbv zeta. cbn [fst snd Dashboard.documents
      Dashboard.selectedDocId Dashboard.inputUrls].
    split; [reflexivity|]. split; [reflexivity|]. split; [|split].
    + apply Forall_forall. intros d (i & Hd)%list_elem_of_lookup.
      rewrite list_lookup_imap in Hd.
      destruct (Dashboard.urls_of (Dashboard.inputUrls st) !! i) as [u|] eqn:Hu;
        [|discriminate].
      injection Hd as <-. simpl. split; [reflexivity|]. split; [reflexivity|].
      apply list_elem_of_lookup_2 in Hu.
      pose proof (urls_of_each (Dashboard.inputUrls st)) as Hall.
      rewrite Forall_forall in Hall. apply (Hall u Hu).
    + intros [[=]|Hblank]. contradiction.
    + intros _ _. split; [reflexivity|]. split; [|split].
      * intros Hnil. apply Htrim, urls_of_none.
        destruct (Dashboard.urls_of (Dashboard.inputUrls st)); [reflexivity|discriminate].
      * rewrite fmap_imap. simpl. generalize 0.
        induction (Dashboard.urls_of (Dashboard.inputUrls st)) as [|u us IH];
          intros n; [reflexivity|].
        simpl. f_equal. apply (IH (S n)).
      * intros i d Hd. rewrite list_lookup_imap in Hd.
        destruct (Dashboard.urls_of (Dashboard.inputUrls st) !! i); [|discriminate].
        now injection Hd as <-.
  - cbv zeta. cbn [fst snd]. split; [reflexivity|]. split; [reflexivity|].
    split; [constructor|]. split; [reflexivity|]. intros _ Hne.
    exfalso. apply Hne. now destruct (trim (Dashboard.inputUrls st)).
Qed.

Lemma filter_none {A} (P : A → Prop) `{!∀ x, Decision (P x)} (l : list A) :
  (∀ x, x ∈ l → ¬ P x) → filter P l = [].
Proof.
  induction l as [|x l IH]; intros Hall; [reflexivity|].
  rewrite filter_cons_False by (apply Hall; left).
  apply IH. intros y Hy. apply Hall. now right.
Qed.

Lemma history_doc_ids (data : list Dashboard.HistoryRow) :
  Dashboard.id <$> (Dashboard.history_doc <$> data) = Dashboard.h_id <$> data.
Proof. rewrite <- list_fmap_compose. now apply list_fmap_ext. Qed.

(** X21. Loading the history puts the stored documents that are not on the
    page yet, marked as done and in the order of the answer, in front of
    the documents of the page, which stay as they are. Every row of the
    answer is on the page afterwards; loading the same answer again changes
    nothing; and identifiers stay distinct when those of the answer and
    those of the page are. *)
Theorem loadHistory_merge (data : list Dashboard.HistoryRow)
    (prev : list Dashboard.DocItem) :
  (∃ new, Dashboard.loadHistory data prev = new ++ prev ∧
          sublist new (Dashboard.history_doc <$> data) ∧
          Forall (λ d, Dashboard.status d = Dashboard.success ∧
                       Dashboard.id d ∉ (Dashboard.id <$> prev)) new) ∧
  (∀ row, row ∈ data →
          Dashboard.h_id row ∈ (Dashboard.id <$> Dashboard.loadHistory data prev)) ∧
  Dashboard.loadHistory data (Dashboard.loadHistory data prev) =
    Dashboard.loadHistory data prev ∧
  (NoDup (Dashboard.h_id <$> data) → NoDup (Dashboard.id <$> prev) →
   NoDup (Dashboard.id <$> Dashboard.loadHistory data prev)).
Proof.
  unfold Dashboard.loadHistory. cbv zeta.
  set (fresh := filter _ (Dashboard.history_doc <$> data)).
  assert (Hfresh : ∀ d, d ∈ fresh ↔
            (Dashboard.id d ∉ (Dashboard.id <$> prev)) ∧
            d ∈ (Dashboard.history_doc <$> data)).
  { intros d. unfold fresh. rewrite list_elem_of_filter, elem_of_list_to_set. tauto. }
  split; [|split; [|split]].
  - exists fresh. split; [reflexivity|]. split; [apply sublist_filter|].
    apply Forall_forall. intros d Hd. apply Hfresh in Hd as [Hnew Hin].
    split; [|exact Hnew].
    apply list_elem_of_fmap in Hin as (row & -> & _). reflexivity.
  - intros row Hrow. rewrite fmap_app, elem_of_app.
    destruct (decide (Dashboard.h_id row ∈ (Dashboard.id <$> prev))) as [|Hnew];
      [now right|left].
    apply list_elem_of_fmap. exists (Dashboard.history_doc row). split; [reflexivity|].
    apply Hfresh. split; [exact Hnew|]. apply list_elem_of_fmap. eauto.
  - rewrite filter_none; [reflexivity|].
    intros d Hd Hnot. apply Hnot. rewrite elem_of_list_to_set, fmap_app, elem_of_app.
    destruct (decide (Dashboard.id d ∈ (Dashboard.id <$> prev))) as [|Hnew]; [now right|left].
    apply list_elem_of_fmap. exists d. split; [reflexivity|]. now apply Hfresh.
  - intros Hdata Hprev. rewrite fmap_app. apply NoDup_app. split; [|split].
    + eapply sublist_NoDup; [|apply fmap_sublist, sublist_filter].
      now rewrite history_doc_ids.
    + intros x (d & -> & Hd)%list_elem_of_fmap. now apply Hfresh in Hd.
    + exact Hprev.
Qed.

(** X22. [updateDocStatus] changes nothing but the status: identifiers,
    addresses and results stay, in place. Afterwards every document with
    the given identifier has the given status, a second update of the same
    identifier overrides the first, and an identifier that is not on the
    page changes nothing. *)
Theorem updateDocStatus_frame (id0 : string) (s s' : Dashboard.Status)
    (docs : list Dashboard.DocItem) :
  Dashboard.id <$> Dashboard.updateDocStatus id0 s docs = Dashboard.id <$> docs ∧
  Dashboard.url <$> Dashboard.updateDocStatus id0 s docs = Dashboard.url <$> docs ∧
  Dashboard.result <$> Dashboard.updateDocStatus id0 s docs = Dashboard.result <$> docs ∧
  Forall (λ d, Dashboard.id d = id0 → Dashboard.status d = s)
    (Dashboard.updateDocStatus id0 s docs) ∧
  Dashboard.updateDocStatus id0 s' (Dashboard.updateDocStatus id0 s docs) =
    Dashboard.updateDocStatus id0 s' docs ∧
  (id0 ∉ (Dashboard.id <$> docs) → Dashboard.updateDocStatus id0 s docs = docs).
Proof.
  unfold Dashboard.updateDocStatus.
  split; [|split; [|split; [|split; [|split]]]].
  - rewrite <- list_fmap_compose. apply list_fmap_ext. intros i d _. simpl.
    now destruct (String.eqb (Dashboard.id d) id0).
  - rewrite <- list_fmap_compose. apply list_fmap_ext. intros i d _. simpl.
    now destruct (String.eqb (Dashboard.id d) id0).
  - rewrite <- list_fmap_compose. apply list_fmap_ext. intros i d _. simpl.
    now destruct (String.eqb (Dashboard.id d) id0).
  - apply Forall_fmap, Forall_forall. intros d _. simpl.
    destruct (String.eqb (Dashboard.id d) id0) eqn:Hid; [reflexivity|].
    apply String.eqb_neq in Hid. contradiction.
  - rewrite <- list_fmap_compose. apply list_fmap_ext. intros i d _. simpl.
    destruct (String.eqb (Dashboard.id d) id0) eqn:Hid; simpl; now rewrite Hid.
  - intros Hnot. rewrite <- (list_fmap_id docs) at 2. apply list_fmap_ext.
    intros i d Hd%list_elem_of_lookup_2. simpl. destruct (String.eqb (Dashboard.id d) id0) eqn:Hid; [|reflexivity].
    apply String.eqb_eq in Hid. exfalso. apply Hnot, list_elem_of_fmap. eauto.
Qed.

(** X23. [removeDoc] leaves no document with the given identifier and
    keeps the others in their order. The selection is dropped exactly when
    it was the removed identifier, so a selection that names a document of
    the page still does afterwards. Removing twice is removing once, and
    removal and a status update can be done in either order. *)
Theorem removeDoc_selection (id0 : string) (st : Dashboard.State) :
  (id0 ∉ (Dashboard.id <$> Dashboard.documents (Dashboard.removeDoc id0 st))) ∧
  sublist (Dashboard.documents (Dashboard.removeDoc id0 st)) (Dashboard.documents st) ∧
  (∀ d, d ∈ Dashboard.documents st → Dashboard.id d ≠ id0 →
        d ∈ Dashboard.documents (Dashboard.removeDoc id0 st)) ∧
  (Dashboard.selectedDocId (Dashboard.removeDoc id0 st) =
     if decide (Dashboard.selectedDocId st = Some id0) then None
     else Dashboard.selectedDocId st) ∧
  ((∀ sel, Dashboard.selectedDocId st = Some sel →
           sel ∈ (Dashboard.id <$> Dashboard.documents st)) →
   ∀ sel, Dashboard.selectedDocId (Dashboard.removeDoc id0 st) = Some sel →
          sel ∈ (Dashboard.id <$> Dashboard.documents (Dashboard.removeDoc id0 st))) ∧
  Dashboard.removeDoc id0 (Dashboard.removeDoc id0 st) = Dashboard.removeDoc id0 st ∧
  (∀ id1 s,
     Dashboard.updateDocStatus id1 s (Dashboard.documents (Dashboard.removeDoc id0 st)) =
     filter (λ d, Dashboard.id d ≠ id0)
       (Dashboard.updateDocStatus id1 s (Dashboard.documents st))).
Proof.
  unfold Dashboard.removeDoc. cbn [Dashboard.documents Dashboard.selectedDocId].
  split; [|split; [|split; [|split; [|split; [|split]]]]].
  - intros (d & Hid & [Hd _]%list_elem_of_filter)%list_elem_of_fmap. now apply Hd.
  - apply sublist_filter.
  - intros d Hd Hid. now apply list_elem_of_filter.
  - reflexivity.
  - intros Hvalid sel.
    destruct (decide (Dashboard.selectedDocId st = Some id0)) as [|Hother]; [discriminate|].
    intros Hsel. pose proof (Hvalid sel Hsel) as Hin.
    apply list_elem_of_fmap in Hin as (d & -> & Hd).
    apply list_elem_of_fmap. exists d. split; [reflexivity|].
    apply list_elem_of_filter. split; [|exact Hd]. intros Heq. apply Hother.
    now rewrite Hsel, Heq.
  - f_equal.
    + rewrite list_filter_filter. apply list_filter_iff. tauto.
    + destruct (decide (Dashboard.selectedDocId st = Some id0)) as [|Hother].
      * now destruct (decide (None = Some id0)).
      * now destruct (decide (Dashboard.selectedDocId st = Some id0)).
  - intros id1 s. unfold Dashboard.updateDocStatus.
    induction (Dashboard.documents st) as [|d docs IH]; [reflexivity|].
    rewrite fmap_cons, !filter_cons.
    assert (Hid : Dashboard.id (if String.eqb (Dashboard.id d) id1
                                then Dashboard.with_status d s else d) = Dashboard.id d)
      by now destruct (String.eqb (Dashboard.id d) id1).
    rewrite Hid. destruct (decide (Dashboard.id d ≠ id0)); [|exact IH].
    now rewrite fmap_cons, IH.
Qed.

(** X24. [processDoc] never leaves the document it was called for in
    progress: every document that had its identifier ends as done, with the
    result and the identifier of the answer, or as failed, with the message
    thrown and its former identifier and result. All other documents, the
    number and the order of the documents, the addresses and the text area
    stay as they are, and a selection that was made is kept. *)
Theorem processDoc_outcome (doc : Dashboard.DocItem) (outcome : Dashboard.Outcome)
    (st : Dashboard.State) :
  let after := Dashboard.processDoc doc outcome st in
  Dashboard.url <$> Dashboard.documents after = Dashboard.url <$> Dashboard.documents st ∧
  Dashboard.inputUrls after = Dashboard.inputUrls st ∧
  (∀ i d, Dashboard.documents st !! i = Some d → Dashboard.id d ≠ Dashboard.id doc →
          Dashboard.documents after !! i = Some d) ∧
  (∀ i d, Dashboard.documents st !! i = Some d → Dashboard.id d = Dashboard.id doc →
     ∃ d', Dashboard.documents after !! i = Some d' ∧
       match outcome with
       | Dashboard.Answered data_id data =>
           Dashboard.status d' = Dashboard.success ∧ Dashboard.result d' = Some data ∧
           Dashboard.id d' = opt_or data_id (Dashboard.id d) ∧
           Dashboard.error_message d' = Dashboard.error_message d
       | Dashboard.Thrown message =>
           Dashboard.status d' = Dashboard.error ∧ Dashboard.error_message d' = message ∧
           Dashboard.id d' = Dashboard.id d ∧ Dashboard.result d' = Dashboard.result d
       end) ∧
  (∀ sel, Dashboard.selectedDocId st = Some sel → sel ≠ "" →
          Dashboard.selectedDocId after = Some sel) ∧
  (Dashboard.selectedDocId st = None →
   Dashboard.selectedDocId after =
     match outcome with
     | Dashboard.Answered data_id _ => Some (opt_or data_id (Dashboard.id doc))
     | Dashboard.Thrown _ => None
     end).
Proof.
  cbv zeta. unfold Dashboard.processDoc, Dashboard.updateDocStatus.
  destruct outcome as [message|data_id data];
    cbn [Dashboard.documents Dashboard.inputUrls Dashboard.selectedDocId];
    (split; [|split; [reflexivity|split; [|split; [|split]]]]).
  - rewrite <- !list_fmap_compose. apply list_fmap_ext. intros i d _. simpl.
    destruct (String.eqb (Dashboard.id d) (Dashboard.id doc)) eqn:Hid; simpl;
      now rewrite Hid.
  - intros i d Hd Hid. rewrite !list_lookup_fmap, Hd. simpl.
    apply String.eqb_neq in Hid. rewrite Hid. now rewrite Hid.
  - intros i d Hd Hid. rewrite !list_lookup_fmap, Hd. simpl.
    apply String.eqb_eq in Hid. rewrite Hid. simpl. rewrite Hid. eauto 6.
  - auto.
  - now intros ->.
  - rewrite <- !list_fmap_compose. apply list_fmap_ext. intros i d _. simpl.
    destruct (String.eqb (Dashboard.id d) (Dashboard.id doc)) eqn:Hid; simpl;
      now rewrite Hid.
  - intros i d Hd Hid. rewrite !list_lookup_fmap, Hd. simpl.
    apply String.eqb_neq in Hid. rewrite Hid. now rewrite Hid.
  - intros i d Hd Hid. rewrite !list_lookup_fmap, Hd. simpl.
    apply String.eqb_eq in Hid. rewrite Hid. simpl. rewrite Hid. eauto 6.
  - intros sel -> Hsel. apply nonempty_truthy in Hsel. now rewrite Hsel.
  - now intros ->.
Qed.

End DashboardFacts.

(** ** The authenticated single-phase route *)

Module SinglePhaseFacts.

Import JS JSFacts.

Section Route.

Context `{Platform}.

Lemma save_owner (w : World) (db : Database) (user : User) (url : string)
    (p : SinglePhase.Processed) (f : Fields) :
  status (SinglePhase.save w db user url p).1 = status (Process.save w db user url f).1 ∧
  users (SinglePhase.save w db user url p).2 = users (Process.save w db user url f).2 ∧
  ∀ id, doc_userId <$> (documents (SinglePhase.save w db user url p).2 !! id) =
        doc_userId <$> (documents (Process.save w db user url f).2 !! id).
Proof.
  unfold SinglePhase.save, Process.save. cbv zeta.
  destruct (create_answers w); [|now repeat split].
  unfold document_create. cbn [doc_id].
  destruct (documents db !! fresh_id w); [now repeat split|].
  cbn [fst snd status users documents]. split; [reflexivity|]. split; [reflexivity|].
  intros id. destruct (decide (fresh_id w = id)) as [<-|Hother].
  - now rewrite !lookup_insert_eq.
  - now rewrite !lookup_insert_ne.
Qed.

(** X25. The single-phase route guards the store as the two-phase route
    does: on the same request and store the two answer with the same
    status and leave the same users and, under every identifier, a document
    of the same owner. For an address that is not a video they leave the
    same store and give the same identifier, title, Markdown, site name and
    warning, or the same error. *)
Theorem single_phase_store (w : World) (s : LegacyVideo.Sources) (db : Database)
    (request : RequestBody) :
  status (SinglePhase.POST w s db request).1 = status (Process.POST w db request).1 ∧
  users (SinglePhase.POST w s db request).2 = users (Process.POST w db request).2 ∧
  (∀ id, doc_userId <$> (documents (SinglePhase.POST w s db request).2 !! id) =
         doc_userId <$> (documents (Process.POST w db request).2 !! id)) ∧
  (∀ url, request = JsonBody (Some url) → isYoutubeUrl url = false →
     (SinglePhase.POST w s db request).2 = (Process.POST w db request).2 ∧
     (∀ r, (Process.POST w db request).1 =
             {| status := 200; body := Process.Success r |} →
           (SinglePhase.POST w s db request).1 =
             {| status := 200;
                body := SinglePhase.Success
                          {| SinglePhase.id := Process.id r;
                             SinglePhase.result_title := Process.result_title r;
                             SinglePhase.markdown := Process.markdown r;
                             SinglePhase.siteName := Process.siteName r;
                             SinglePhase.warning := Process.warning r |} |}) ∧
     (∀ e, body (Process.POST w db request).1 = Process.Error e →
           body (SinglePhase.POST w s db request).1 = SinglePhase.Error e)).
Proof.
  unfold SinglePhase.POST, Process.POST.
  destruct (currentUser w) as [user|]; [|repeat split; try discriminate; intros;
    simplify_eq/=; done].
  destruct (Process.limit_reached w db user) as [[|]|];
    try (repeat split; try discriminate; intros; simplify_eq/=; done).
  destruct request as [|url]; [repeat split; try discriminate; intros; simplify_eq/=; done|].
  destruct (truthy (opt_or url "")) eqn:Hurl; simpl negb; cbv iota;
    [|repeat split; try discriminate; intros; simplify_eq/=; done].
  cbv zeta. unfold SinglePhase.process, Process.process.
  destruct (isYoutubeUrl (opt_or url "")) eqn:Hyt.
  - destruct (save_owner w (Process.user_sync w db user) user (opt_or url "")
                (SinglePhase.youtube
                   (LegacyVideo.getYouTubeMetadata (LegacyVideo.scraped s (opt_or url ""))
                      (LegacyVideo.oembed_of s (opt_or url "")))
                   (fetchTranscriptWithTimeout (LegacyVideo.race s (opt_or url "")))
                   (opt_or url ""))
                (youtube_fields (resolve_metadata (video w) (opt_or url "")) (opt_or url "")))
      as (Hstatus & Husers & Hdocs).
    split; [exact Hstatus|]. split; [exact Husers|]. split; [exact Hdocs|].
    intros url' [= ->] Hpage. destruct url' as [|c u]; [discriminate Hurl|].
    change (opt_or (Some (String c u)) "") with (String c u) in Hyt. congruence.
  - destruct (scrape (opt_or url "")) as [f|e]; simpl.
    + destruct (save_owner w (Process.user_sync w db user) user (opt_or url "")
                  {| SinglePhase.p_title := f_title f; SinglePhase.p_markdown := f_markdown f;
                     SinglePhase.p_siteName := f_siteName f |} f)
        as (Hstatus & Husers & Hdocs).
      split; [exact Hstatus|]. split; [exact Husers|]. split; [exact Hdocs|].
      intros url' _ _.
      unfold SinglePhase.save, Process.save. cbv zeta. cbn [SinglePhase.p_title
        SinglePhase.p_markdown SinglePhase.p_siteName].
      destruct (if create_answers w then _ else _); cbn [fst snd].
      * split; [reflexivity|]. split; [now intros r [= <-]|discriminate].
      * split; [reflexivity|]. split; [now intros r [= <-]|discriminate].
    + repeat split; try discriminate. now intros e' [= <-].
Qed.

End Route.

End SinglePhaseFacts.

(** ** The home page *)

Module HomeFacts.

Import JS JSFacts.

Section Client.

Context `{Platform} {S : Type} (server : Home.Server S).

(** What [processDoc] does to the document at one position. *)
Lemma processDoc_at (doc : Home.DocItem) (st : Home.State) (s : S) (i : nat)
    (d : Home.DocItem) :
  Home.documents st !! i = Some d →
  ∃ d', Home.documents (Home.processDoc server doc st s).1 !! i = Some d' ∧
        Home.id d' = Home.id d ∧ Home.url d' = Home.url d ∧
        (Home.id d ≠ Home.id doc → d' = d) ∧
        (Home.id d = Home.id doc →
         Home.status d' = Home.success ∨ Home.status d' = Home.error).
Proof.
  intros Hd. unfold Home.processDoc. cbv zeta.
  repeat match goal with
         | |- context [match ?x with _ => _ end] => destruct x
         end;
    cbn [fst Home.documents];
    unfold Home.set_result, Home.set_error, Home.updateDocStatus;
    rewrite !list_lookup_fmap, Hd; simpl;
    destruct (String.eqb (Home.id d) (Home.id doc)) eqn:Hid; simpl; rewrite ?Hid; simpl;
    rewrite ?Hid; simpl;
    (eexists; split; [reflexivity|]; simpl;
     first [apply String.eqb_eq in Hid | apply String.eqb_neq in Hid];
     repeat split; auto; try (intros; congruence); now destruct d).
Qed.

Lemma processDoc_length (doc : Home.DocItem) (st : Home.State) (s : S) :
  length (Home.documents (Home.processDoc server doc st s).1) = length (Home.documents st).
Proof.
  unfold Home.processDoc. cbv zeta.
  repeat match goal with
         | |- context [match ?x with _ => _ end] => destruct x
         end;
    cbn [fst Home.documents];
    unfold Home.set_result, Home.set_error, Home.updateDocStatus;
    now rewrite !length_fmap.
Qed.

Lemma processDoc_page (doc : Home.DocItem) (st : Home.State) (s : S) :
  Home.inputUrls (Home.processDoc server doc st s).1 = Home.inputUrls st ∧
  (∀ sel, Home.selectedDocId st = Some sel →
          Home.selectedDocId (Home.processDoc server doc st s).1 = Some sel) ∧
  (Home.selectedDocId st = None →
   Home.selectedDocId (Home.processDoc server doc st s).1 = None ∨
   Home.selectedDocId (Home.processDoc server doc st s).1 = Some (Home.id doc)).
Proof.
  unfold Home.processDoc. cbv zeta.
  repeat match goal with
         | |- context [match ?x with _ => _ end] => destruct x
         end;
    cbn [fst Home.inputUrls Home.selectedDocId];
    (split; [reflexivity|]); (split; [now intros sel ->|]); intros ->; simpl; auto.
Qed.

(** X26. [processDoc] settles the document it is called for, whatever the
    server does: every document with its identifier ends as done or as
    failed, never pending or in progress. Identifiers, addresses, number
    and order of the documents and the text area stay; documents with
    another identifier are not touched; a selection that was made is kept,
    and without one the document itself is the only one it can select. *)
Theorem processDoc_settles (doc : Home.DocItem) (st : Home.State) (s : S) :
  let after := (Home.processDoc server doc st s).1 in
  Home.id <$> Home.documents after = Home.id <$> Home.documents st ∧
  Home.url <$> Home.documents after = Home.url <$> Home.documents st ∧
  (∀ i d, Home.documents st !! i = Some d → Home.id d ≠ Home.id doc →
          Home.documents after !! i = Some d) ∧
  Forall (λ d, Home.id d = Home.id doc →
               Home.status d = Home.success ∨ Home.status d = Home.error)
    (Home.documents after) ∧
  Home.inputUrls after = Home.inputUrls st ∧
  (∀ sel, Home.selectedDocId st = Some sel → Home.selectedDocId after = Some sel) ∧
  (Home.selectedDocId st = None →
   Home.selectedDocId after = None ∨ Home.selectedDocId after = Some (Home.id doc)).
Proof.
  cbv zeta. pose proof (processDoc_length doc st s) as Hlen.
  assert (Hfield : ∀ {A} (f : Home.DocItem → A),
            (∀ i d d', Home.documents st !! i = Some d →
                       Home.documents (Home.processDoc server doc st s).1 !! i = Some d' →
                       f d' = f d) →
            f <$> Home.documents (Home.processDoc server doc st s).1 =
            f <$> Home.documents st).
  { intros A f Hf. apply list_eq. intros i. rewrite !list_lookup_fmap.
    destruct (Home.documents st !! i) as [d|] eqn:Hd.
    - destruct (processDoc_at doc st s i d Hd) as (d' & Hd' & _).
      rewrite Hd'. simpl. f_equal. eauto.
    - apply lookup_ge_None in Hd. rewrite <- Hlen in Hd.
      apply lookup_ge_None in Hd. now rewrite Hd. }
  split; [|split; [|split; [|split]]].
  - apply Hfield. intros i d d' Hd Hd'.
    destruct (processDoc_at doc st s i d Hd) as (d'' & Hd'' & Hid & _). congruence.
  - apply Hfield. intros i d d' Hd Hd'.
    destruct (processDoc_at doc st s i d Hd) as (d'' & Hd'' & _ & Hurl & _). congruence.
  - intros i d Hd Hid.
    destruct (processDoc_at doc st s i d Hd) as (d' & Hd' & _ & _ & Hsame & _).
    now rewrite Hd', (Hsame Hid).
  - apply Forall_forall. intros d' (i & Hd')%list_elem_of_lookup Hid.
    destruct (Home.documents st !! i) as [d|] eqn:Hd.
    + destruct (processDoc_at doc st s i d Hd) as (d'' & Hd'' & Hid' & _ & _ & Hsettled).
      assert (d'' = d') as -> by congruence. apply Hsettled. congruence.
    + apply lookup_ge_None in Hd. rewrite <- Hlen in Hd.
      apply lookup_ge_None in Hd. congruence.
  - apply processDoc_page.
Qed.

(** The loop of [handleCompile], at one position. *)
Lemma process_all_at (todo : list Home.DocItem) :
  ∀ (st : Home.State) (s : S) (i : nat) (d : Home.DocItem),
    Home.documents st !! i = Some d →
    ∃ d', Home.documents
            (foldl (λ acc doc, Home.processDoc server doc acc.1 acc.2) (st, s) todo).1 !! i =
          Some d' ∧
          Home.id d' = Home.id d ∧ Home.url d' = Home.url d ∧
          (Home.id d ∉ (Home.id <$> todo) → d' = d) ∧
          (Home.id d ∈ (Home.id <$> todo) →
           Home.status d' = Home.success ∨ Home.status d' = Home.error).
Proof.
  induction todo as [|doc todo IH]; intros st s i d Hd.
  - exists d. simpl. repeat split; auto. intros Hin. inversion Hin.
  - simpl foldl. destruct (Home.processDoc server doc st s) as [st1 s1] eqn:Hstep.
    destruct (processDoc_at doc st s i d Hd) as (d1 & Hd1 & Hid1 & Hurl1 & Hsame1 & Hdone1).
    rewrite Hstep in Hd1. simpl in Hd1.
    destruct (IH st1 s1 i d1 Hd1) as (d' & Hd' & Hid' & Hurl' & Hsame' & Hdone').
    exists d'. split; [exact Hd'|]. split; [congruence|]. split; [congruence|].
    rewrite fmap_cons. split.
    + intros Hnot. apply not_elem_of_cons in Hnot as [Hne Hnot].
      rewrite Hsame' by now rewrite Hid1. now apply Hsame1.
    + intros Hin. destruct (decide (Home.id d ∈ (Home.id <$> todo))) as [Hlater|Hnot].
      * apply Hdone'. now rewrite Hid1.
      * apply elem_of_cons in Hin as [Hnow|Hlater]; [|contradiction].
        rewrite Hsame' by now rewrite Hid1. now apply Hdone1.
Qed.

Lemma process_all_page (todo : list Home.DocItem) :
  ∀ (st : Home.State) (s : S),
    Home.inputUrls
      (foldl (λ acc doc, Home.processDoc server doc acc.1 acc.2) (st, s) todo).1 =
    Home.inputUrls st ∧
    length (Home.documents
              (foldl (λ acc doc, Home.processDoc server doc acc.1 acc.2) (st, s) todo).1) =
    length (Home.documents st).
Proof.
  induction todo as [|doc todo IH]; intros st s; [now split|].
  simpl foldl. destruct (Home.processDoc server doc st s) as [st1 s1] eqn:Hstep.
  destruct (IH st1 s1) as [Hinput Hlen]. rewrite Hinput, Hlen.
  pose proof (processDoc_page doc st s) as [Hinput1 _].
  pose proof (processDoc_length doc st s) as Hlen1.
  rewrite Hstep in Hinput1, Hlen1. now split.
Qed.

(** X27. [handleCompile] of this page does nothing for a visitor who is
    not signed in or for a blank text. Otherwise the page is unmounted
    exactly when the host name of an address, of a document there was or of
    a line of the text, cannot be read, and the server is called all the
    same. When the page is still there after the loop, the text is cleared,
    the documents there were are still in front, untouched unless they
    carry an identifier that was drawn again, and behind them there is one
    document per address, in order, with the identifier drawn for it, and
    each of them is done or failed: none is left pending or in progress,
    whatever the server answers. *)
Theorem handleCompile_settles (isSignedIn : bool) (uuid : nat → string)
    (st : Home.State) (s : S) :
  let after := Home.handleCompile server isSignedIn uuid st s in
  let urls := Dashboard.urls_of (Home.inputUrls st) in
  (isSignedIn = false ∨ trim (Home.inputUrls st) = "" → after = (Some st, s)) ∧
  (∀ other : Platform,
     (@Home.handleCompile other S server isSignedIn uuid st s).2 = after.2) ∧
  (isSignedIn = true → trim (Home.inputUrls st) ≠ "" →
   (after.1 = None ↔
    ∃ u e, u ∈ (Home.url <$> Home.documents st) ++ urls ∧ URL_hostname u = Throw e) ∧
   ∀ page, after.1 = Some page →
     Home.inputUrls page = "" ∧
     length (Home.documents page) = length (Home.documents st) + length urls ∧
     (∀ i d, Home.documents st !! i = Some d →
             (∀ j, j < length urls → uuid j ≠ Home.id d) →
             Home.documents page !! i = Some d) ∧
     (∀ j u, urls !! j = Some u →
             ∃ d, Home.documents page !! (length (Home.documents st) + j) = Some d ∧
                  Home.id d = uuid j ∧ Home.url d = u ∧
                  (Home.status d = Home.success ∨ Home.status d = Home.error))).
Proof.
  cbv zeta. unfold Home.handleCompile. split; [|split].
  - intros [->|Hblank]; [reflexivity|]. rewrite Hblank. now destruct isSignedIn.
  - intros other. destruct isSignedIn; [|reflexivity].
    now destruct (truthy (trim (Home.inputUrls st))).
  - intros -> Hne. apply nonempty_truthy in Hne. rewrite Hne. simpl negb. cbv iota zeta.
    set (urls := Dashboard.urls_of (Home.inputUrls st)).
    set (newDocs := imap _ urls).
    set (st0 := Home.Build_State "" (Home.documents st ++ newDocs) (Home.selectedDocId st)).
    assert (Hurls : Home.url <$> newDocs = urls).
    { unfold newDocs. rewrite fmap_imap. simpl. generalize 0.
      induction urls as [|u us IH]; intros n; [reflexivity|].
      simpl. f_equal. apply (IH (Datatypes.S n)). }
    assert (Hrenders : Home.renders st0 = false ↔
              ∃ u e, u ∈ (Home.url <$> Home.documents st) ++ urls ∧
                     URL_hostname u = Throw e).
    { rewrite <- Hurls, <- fmap_app. unfold Home.renders, st0. cbn [Home.documents].
      induction (Home.documents st ++ newDocs) as [|d docs IH].
      - simpl. split; [discriminate|]. intros (u & e & Hu & _). inversion Hu.
      - simpl. rewrite andb_false_iff, IH. split.
        + intros [Hd|(u & e & Hu & Hthrow)].
          * destruct (URL_hostname (Home.url d)) as [h|e] eqn:Hhost; [discriminate|].
            exists (Home.url d), e. split; [left | exact Hhost].
          * exists u, e. split; [now right | exact Hthrow].
        + intros (u & e & Hu & Hthrow). apply elem_of_cons in Hu as [->|Hu].
          * left. now rewrite Hthrow.
          * right. eauto. }
    split.
    { cbn [fst]. destruct (Home.renders st0); split.
      - discriminate.
      - intros Hthrows. apply Hrenders in Hthrows. discriminate.
      - intros _. now apply Hrenders.
      - reflexivity. }
    cbn [fst]. intros page Hpage.
    destruct (Home.renders st0); [|discriminate]. injection Hpage as <-.
    assert (Hids : ∀ x, x ∈ (Home.id <$> newDocs) → ∃ j, j < length urls ∧ x = uuid j).
    { intros x (d & -> & (j & Hd)%list_elem_of_lookup)%list_elem_of_fmap.
      unfold newDocs in Hd. rewrite list_lookup_imap in Hd.
      destruct (urls !! j) as [u|] eqn:Hu; [|discriminate]. injection Hd as <-.
      exists j. split; [|reflexivity]. now apply lookup_lt_Some in Hu. }
    destruct (process_all_page newDocs st0 s) as [Hinput Hlen].
    split; [exact Hinput|]. split; [|split].
    + rewrite Hlen. unfold st0. cbn [Home.documents].
      rewrite List.length_app. unfold newDocs. now rewrite length_imap.
    + intros i d Hd Hfresh.
      destruct (process_all_at newDocs st0 s i d) as (d' & Hd' & _ & _ & Hsame & _).
      { unfold st0. cbn [Home.documents]. now apply lookup_app_l_Some. }
      rewrite Hd'. f_equal. apply Hsame. intros (j & Hj & Heq)%Hids.
      now apply (Hfresh j Hj).
    + intros j u Hu.
      set (d := Home.Build_DocItem (uuid j) u Home.pending None None).
      assert (Hd : newDocs !! j = Some d).
      { unfold newDocs. now rewrite list_lookup_imap, Hu. }
      destruct (process_all_at newDocs st0 s (length (Home.documents st) + j) d)
        as (d' & Hd' & Hid & Hurl & _ & Hdone).
      { unfold st0. cbn [Home.documents]. rewrite lookup_app_r by lia.
        now replace (length (Home.documents st) + j - length (Home.documents st)) with j
          by lia. }
      exists d'. split; [exact Hd'|]. split; [exact Hid|]. split; [exact Hurl|].
      apply Hdone. apply list_elem_of_fmap. exists d. split; [reflexivity|].
      now apply list_elem_of_lookup_2 in Hd.
Qed.

(** What a document shown as done shows: the first answer, or for a video
    the first answer with the Markdown of the second. *)
Lemma processDoc_shown (doc : Home.DocItem) (st : Home.State) (s : S) (d : Home.DocItem) :
  d ∈ Home.documents (Home.processDoc server doc st s).1 →
  Home.id d = Home.id doc → Home.status d = Home.success →
  ∃ res s1 data,
    Home.processor server (Home.url doc) s = (Ret res, s1) ∧
    Home.res_ok res = true ∧ Home.res_data res = Some data ∧
    ((Home.result d = Some data ∧ (Home.processDoc server doc st s).2 = s1 ∧
      ∀ r, data = Home.Object (Process.Success r) →
           Process.needsTranscript r && truthy (Process.id r) = false) ∨
     (∃ r b s2,
        data = Home.Object (Process.Success r) ∧
        Process.needsTranscript r = true ∧ truthy (Process.id r) = true ∧
        Home.transcript server (Process.id r) (Home.url doc) s1 = (Ret b, s2) ∧
        (Home.processDoc server doc st s).2 = s2 ∧
        Home.result d =
          Some (match b with
                | Continuation.Success (Some markdown) =>
                    if truthy markdown
                    then Home.Object (Process.Success (Home.with_transcript r markdown))
                    else data
                | _ => data
                end))).
Proof.
  intros Hd Hid Hdone. revert Hd. unfold Home.processDoc. cbv zeta.
  destruct (Home.processor server (Home.url doc) s) as [[res|message] s1];
    [destruct (Home.res_data res) as [data|] eqn:Hdata;
     [destruct (Home.res_ok res) eqn:Hok; simpl negb; cbv iota|]|].
  2-4: cbn [fst Home.documents]; unfold Home.set_error, Home.updateDocStatus;
    rewrite <- list_fmap_compose; intros (d0 & -> & _)%list_elem_of_fmap; simpl in *;
    destruct (String.eqb (Home.id d0) (Home.id doc)) eqn:Heq; simpl in *;
    rewrite ?Heq in *; simpl in *; try discriminate;
    apply String.eqb_neq in Heq; contradiction.
  assert (Hplain :
    d ∈ Home.set_result (Home.id doc) Home.success data
          (Home.updateDocStatus (Home.id doc) Home.processing (Home.documents st)) →
    Home.result d = Some data).
  { unfold Home.set_result, Home.updateDocStatus. rewrite <- list_fmap_compose.
    intros (d0 & -> & _)%list_elem_of_fmap. simpl in *.
    destruct (String.eqb (Home.id d0) (Home.id doc)) eqn:Heq; simpl in *;
      rewrite ?Heq in *; simpl in *; [reflexivity|].
    apply String.eqb_neq in Heq. contradiction. }
  intros Hd. exists res, s1, data.
  split; [reflexivity|]. split; [exact Hok|]. split; [exact Hdata|].
  revert Hd. clear Hdata. destruct data as [|[e|r]]; cbn [fst snd Home.documents].
  1-2: intros Hd; left; split; [now apply Hplain|]; split; [reflexivity|]; discriminate.
  destruct (Process.needsTranscript r && truthy (Process.id r)) eqn:Hneeds.
  2: { cbn [fst snd Home.documents]. intros Hd. left. split; [now apply Hplain|].
       split; [reflexivity|]. now intros r' [= <-]. }
  apply andb_true_iff in Hneeds as [Hneeds Hid'].
  destruct (Home.transcript server (Process.id r) (Home.url doc) s1) as [[b|message] s2]
    eqn:Hsecond.
  2: { cbn [fst Home.documents]. unfold Home.set_error, Home.set_result, Home.updateDocStatus.
       rewrite <- !list_fmap_compose. intros (d0 & -> & _)%list_elem_of_fmap. simpl in *.
       destruct (String.eqb (Home.id d0) (Home.id doc)) eqn:Heq; simpl in *;
         rewrite ?Heq in *; simpl in *; rewrite ?Heq in *; simpl in *; try discriminate.
       apply String.eqb_neq in Heq. contradiction. }
  intros Hd. right. exists r, b, s2.
  split; [reflexivity|]. split; [exact Hneeds|]. split; [exact Hid'|].
  split; [exact Hsecond|].
  assert (Hshown : ∀ data',
    d ∈ Home.set_result (Home.id doc) Home.success data'
          (Home.set_result (Home.id doc) Home.processing_transcript
             (Home.Object (Process.Success r))
             (Home.updateDocStatus (Home.id doc) Home.processing (Home.documents st))) →
    Home.result d = Some data').
  { intros data'. unfold Home.set_result, Home.updateDocStatus. rewrite <- !list_fmap_compose.
    intros (d0 & -> & _)%list_elem_of_fmap. simpl in *.
    destruct (String.eqb (Home.id d0) (Home.id doc)) eqn:Heq; simpl in *;
      rewrite ?Heq in *; simpl in *; rewrite ?Heq in *; simpl in *; [reflexivity|].
    apply String.eqb_neq in Heq. contradiction. }
  revert Hd. destruct b as [e|[markdown|]]; [| destruct (truthy markdown) |];
    cbn [fst snd Home.documents]; intros Hd; (split; [reflexivity|]); now apply Hshown.
Qed.

End Client.

Lemma nonempty_app_r (a b : string) : String.length b ≠ 0 → a +:+ b ≠ "".
Proof.
  intros Hb Heq. apply (f_equal String.length) in Heq. rewrite length_app in Heq.
  simpl in Heq. lia.
Qed.

(** How the continuation ends: with an error and the store as it was, or
    with the new Markdown of the row it names, which is not empty. *)
Lemma continuation_outcome (w : World) (db : Database) (docId url : string) :
  (∃ e, body (Continuation.POST w db
                (Some {| Continuation.docId := Some docId;
                         Continuation.url := Some url |})).1 = Continuation.Error e ∧
        (Continuation.POST w db
           (Some {| Continuation.docId := Some docId;
                    Continuation.url := Some url |})).2 = db) ∨
  (∃ row markdown,
     documents db !! docId = Some row ∧ markdown ≠ "" ∧
     body (Continuation.POST w db
             (Some {| Continuation.docId := Some docId;
                      Continuation.url := Some url |})).1 =
       Continuation.Success (Some markdown) ∧
     documents (Continuation.POST w db
                  (Some {| Continuation.docId := Some docId;
                           Continuation.url := Some url |})).2 =
       <[ docId := {| doc_id := doc_id row; doc_url := doc_url row;
                      doc_title := doc_title row; doc_siteName := doc_siteName row;
                      doc_markdown := Some markdown; doc_userId := doc_userId row |} ]>
         (documents db)).
Proof.
  unfold Continuation.POST. cbn [Continuation.docId Continuation.url].
  destruct (currentUser w) as [user|]; [|left; simpl; eauto].
  destruct (truthy (opt_or (Some docId) "")) eqn:Hdoc; [|left; simpl; eauto].
  destruct (truthy (opt_or (Some url) "")) eqn:Hurl; [|left; simpl; eauto].
  simpl negb. cbv iota. simpl orb. cbv iota.
  assert (Hid : opt_or (Some docId) "" = docId).
  { apply truthy_opt_or. now destruct docId. }
  rewrite Hid. destruct (find_answers w); [|left; simpl; eauto].
  unfold document_findUnique.
  destruct (documents db !! docId) as [row|] eqn:Hrow; [|left; simpl; eauto].
  destruct (String.eqb (doc_userId row) (user_id user)); [|left; simpl; eauto].
  simpl negb. cbv iota zeta.
  destruct (update_answers w); [|left; simpl; eauto].
  unfold document_update. rewrite Hrow. right. eexists row, _.
  split; [reflexivity|]. split; [|split; reflexivity].
  apply nonempty_app_r, TwoPhase.block_length.
Qed.

Section Routes.

Context `{Platform}.

Lemma scrape_needs (url : string) (f : Fields) :
  scrape url = Ret f → f_needsTranscript f = false.
Proof.
  unfold scrape. destruct (fetch url) as [response|e]; [|discriminate]. simpl.
  destruct (ok response); [|discriminate]. simpl.
  destruct (Readability_parse _) as [article|]; [|discriminate].
  destruct (truthy (article_content article)); [|discriminate]. simpl.
  destruct (match article_siteName article with Some _ => _ | None => _ end); [|discriminate].
  simpl. now intros [= <-].
Qed.

(** How the first phase ends: with an error under a status that is not
    [ok], or with the save of what was processed. *)
Lemma first_answer (w : World) (db : Database) (url : string) :
  (∃ e, body (Process.POST w db (JsonBody (Some url))).1 = Process.Error e ∧
        Nat.leb 200 (status (Process.POST w db (JsonBody (Some url))).1) &&
        Nat.leb (status (Process.POST w db (JsonBody (Some url))).1) 299 = false) ∨
  (∃ user f, url ≠ "" ∧ Process.process w url = Ret f ∧
             Process.POST w db (JsonBody (Some url)) =
             Process.save w (Process.user_sync w db user) user url f).
Proof.
  unfold Process.POST.
  destruct (currentUser w) as [user|]; [|left; simpl; eauto].
  destruct (Process.limit_reached w db user) as [[|]|]; try solve [left; simpl; eauto].
  destruct (truthy (opt_or (Some url) "")) eqn:Hurl; [|left; simpl; eauto].
  simpl negb. cbv iota zeta.
  assert (Heq : opt_or (Some url) "" = url) by (apply truthy_opt_or; now destruct url).
  rewrite Heq in *.
  destruct (Process.process w url) as [f|e]; [|left; simpl; eauto].
  right. exists user, f. split; [now apply truthy_ne|]. now split.
Qed.

(** X28. The page shows what is stored. When [processDoc] is served by the
    authenticated routes and leaves its document as done with a result
    that has no warning, the store holds a document under the identifier of
    the result, for the address of the document, and its Markdown is the
    Markdown the page shows, whether the transcript phase ran, failed, or
    was not needed. *)
Theorem page_shows_the_store (first second : World) (db : Database)
    (doc : Home.DocItem) (st : Home.State) (d : Home.DocItem) (r : Process.Result) :
  d ∈ Home.documents (Home.processDoc (EndToEnd.routes first second) doc st db).1 →
  Home.id d = Home.id doc →
  Home.status d = Home.success →
  Home.result d = Some (Home.Object (Process.Success r)) →
  Process.warning r = None →
  ∃ row,
    documents (Home.processDoc (EndToEnd.routes first second) doc st db).2 !! Process.id r =
      Some row ∧
    doc_markdown row = Some (Process.markdown r) ∧ doc_url row = Home.url doc.
Proof.
  intros Hd Hid Hdone Hresult Hwarning.
  destruct (processDoc_shown (EndToEnd.routes first second) doc st db d Hd Hid Hdone)
    as (res & db1 & data & Hfirst & Hok & Hdata & Hcases).
  cbn [EndToEnd.routes Home.processor] in Hfirst. cbv zeta in Hfirst.
  injection Hfirst as <- <-. cbn [Home.res_data] in Hdata. injection Hdata as <-.
  unfold Home.res_ok in Hok. cbn [Home.res_status] in Hok.
  destruct (first_answer first db (Home.url doc)) as [(e & Hbody & Hnot)|(user & f & Hurl & _ & Hpost)];
    [congruence|].
  rewrite Hpost in *. clear Hpost Hok.
  destruct (StoreFacts.save_documents first (Process.user_sync first db user) user
              (Home.url doc) f) as [(_ & Hfresh & Hsave)|Hsave];
    cbv zeta in Hsave; rewrite Hsave in *; cbn [fst snd body] in Hcases.
  - destruct Hcases as [(Hshown & -> & _)|(r0 & b & db2 & [= <-] & _ & _ & Hsecond & -> & Hshown)].
    + rewrite Hshown in Hresult. injection Hresult as <-.
      cbn [documents Process.result_of Process.id Process.markdown].
      rewrite lookup_insert_eq. eauto.
    + cbn [EndToEnd.routes Home.transcript] in Hsecond. cbv zeta in Hsecond.
      cbn [Process.result_of Process.id] in Hsecond. injection Hsecond as <- <-.
      rewrite Hshown in Hresult. clear Hshown.
      match type of Hresult with
      | context [Continuation.POST ?w ?store ?req] =>
          destruct (continuation_outcome w store (fresh_id first) (Home.url doc))
            as [(e & Hbody & ->)|(row & markdown & Hrow & Hne & Hbody & Hdocs)]
      end.
      * rewrite Hbody in Hresult. injection Hresult as <-.
        cbn [documents Process.result_of Process.id Process.markdown].
        rewrite lookup_insert_eq. eauto.
      * rewrite Hbody in Hresult. rewrite (proj1 (nonempty_truthy markdown) Hne) in Hresult.
        injection Hresult as <-. rewrite Hdocs.
        cbn [Home.with_transcript Process.result_of Process.id Process.markdown].
        rewrite lookup_insert_eq. eexists. split; [reflexivity|]. split; [reflexivity|].
        cbn [documents] in Hrow. rewrite lookup_insert_eq in Hrow. now injection Hrow as <-.
  - destruct Hcases as [(Hshown & _ & _)|(r0 & b & db2 & [= <-] & _ & _ & _ & _ & Hshown)];
      rewrite Hshown in Hresult.
    + injection Hresult as <-. discriminate.
    + destruct b as [e|[markdown|]]; [| destruct (truthy markdown) |];
        injection Hresult as <-; discriminate.
Qed.

(** X29. A video that could not be saved keeps its placeholder. When
    [processDoc] is served by the authenticated routes and leaves its
    document as done with a result that has a warning and needs a
    transcript, and no stored document has the temporary identifier of the
    result, then no document was added or changed and the Markdown the page
    shows still ends with the placeholder. *)
Theorem unsaved_video_keeps_placeholder (first second : World) (db : Database)
    (doc : Home.DocItem) (st : Home.State) (d : Home.DocItem) (r : Process.Result) :
  d ∈ Home.documents (Home.processDoc (EndToEnd.routes first second) doc st db).1 →
  Home.id d = Home.id doc →
  Home.status d = Home.success →
  Home.result d = Some (Home.Object (Process.Success r)) →
  Process.warning r ≠ None →
  Process.needsTranscript r = true →
  documents db !! Process.id r = None →
  documents (Home.processDoc (EndToEnd.routes first second) doc st db).2 = documents db ∧
  ∃ header, Process.markdown r = header +:+ placeholder.
Proof.
  intros Hd Hid Hdone Hresult Hwarning Hneeds Hfree.
  destruct (processDoc_shown (EndToEnd.routes first second) doc st db d Hd Hid Hdone)
    as (res & db1 & data & Hfirst & Hok & Hdata & Hcases).
  cbn [EndToEnd.routes Home.processor] in Hfirst. cbv zeta in Hfirst.
  injection Hfirst as <- <-. cbn [Home.res_data] in Hdata. injection Hdata as <-.
  unfold Home.res_ok in Hok. cbn [Home.res_status] in Hok.
  destruct (first_answer first db (Home.url doc))
    as [(e & Hbody & Hnot)|(user & f & Hurl & Hprocess & Hpost)]; [congruence|].
  rewrite Hpost in *. clear Hpost Hok.
  assert (Hmarkdown : f_needsTranscript f = true → ∃ header, f_markdown f = header +:+ placeholder).
  { unfold Process.process in Hprocess. destruct (isYoutubeUrl (Home.url doc)).
    - injection Hprocess as <-. intros _. unfold youtube_fields. cbn [f_markdown]. eauto.
    - apply scrape_needs in Hprocess. congruence. }
  destruct (StoreFacts.save_documents first (Process.user_sync first db user) user
              (Home.url doc) f) as [(_ & Hfresh & Hsave)|Hsave];
    cbv zeta in Hsave; rewrite Hsave in *; cbn [fst snd body] in Hcases.
  - destruct Hcases as [(Hshown & _ & _)|(r0 & b & db2 & [= <-] & _ & _ & _ & _ & Hshown)];
      rewrite Hshown in Hresult.
    + injection Hresult as <-. now contradiction Hwarning.
    + destruct b as [e|[markdown|]]; [| destruct (truthy markdown) |];
        injection Hresult as <-; now contradiction Hwarning.
  - destruct Hcases as [(Hshown & -> & _)|(r0 & b & db2 & [= <-] & _ & _ & Hsecond & -> & Hshown)].
    + rewrite Hshown in Hresult. injection Hresult as <-.
      split; [apply RouteFacts.user_sync_documents|]. now apply Hmarkdown.
    + cbn [EndToEnd.routes Home.transcript] in Hsecond. cbv zeta in Hsecond.
      cbn [Process.result_of Process.id] in Hsecond. injection Hsecond as <- <-.
      rewrite Hshown in Hresult. clear Hshown.
      match type of Hresult with
      | context [Continuation.POST ?w ?store ?req] =>
          destruct (continuation_outcome w store ("temp-" +:+ randomUUID first) (Home.url doc))
            as [(e & Hbody & ->)|(row & markdown & Hrow & Hne & Hbody & Hdocs)]
      end.
      * rewrite Hbody in Hresult. injection Hresult as <-.
        split; [apply RouteFacts.user_sync_documents|]. now apply Hmarkdown.
      * exfalso. rewrite Hbody in Hresult.
        rewrite (proj1 (nonempty_truthy markdown) Hne) in Hresult.
        injection Hresult as <-. cbn [Home.with_transcript Process.result_of Process.id] in Hfree.
        rewrite RouteFacts.user_sync_documents in Hrow. congruence.
Qed.

End Routes.

(** The sample video, saved and continued with two segments. *)
Lemma page_shows_the_store_witness :
  ∃ row,
    documents (MoreExamples.visit (Examples.world Examples.plain_sources TimedOut)
                 (Examples.world Examples.plain_sources (Fetched MoreExamples.segments))).2
      !! "doc_1" = Some row ∧
    doc_url row = Examples.video_url.
Proof.
  assert (Hshown : ∃ d r,
    d ∈ Home.documents
          (MoreExamples.visit (Examples.world Examples.plain_sources TimedOut)
             (Examples.world Examples.plain_sources (Fetched MoreExamples.segments))).1 ∧
    Home.id d = Home.id MoreExamples.draft ∧ Home.status d = Home.success ∧
    Home.result d = Some (Home.Object (Process.Success r)) ∧
    Process.warning r = None ∧ Process.id r = "doc_1").
  { eexists _, _. split; [vm_compute; left|]. repeat split; reflexivity. }
  destruct Hshown as (d & r & Hd & Hid & Hdone & Hresult & Hwarning & Hdoc).
  destruct (@page_shows_the_store Examples.platform _ _ _ _ _ d r Hd Hid Hdone Hresult Hwarning)
    as (row & Hrow & _ & Hurl).
  rewrite Hdoc in Hrow. exists row. split; [exact Hrow | exact Hurl].
Defined.

(** The sample video when the save fails. *)
Lemma unsaved_video_keeps_placeholder_witness :
  documents (MoreExamples.visit MoreExamples.unsaved_world
               (Examples.world Examples.plain_sources (Fetched MoreExamples.segments))).2 =
  documents Examples.empty_db.
Proof.
  assert (Hshown : ∃ d r,
    d ∈ Home.documents
          (MoreExamples.visit MoreExamples.unsaved_world
             (Examples.world Examples.plain_sources (Fetched MoreExamples.segments))).1 ∧
    Home.id d = Home.id MoreExamples.draft ∧ Home.status d = Home.success ∧
    Home.result d = Some (Home.Object (Process.Success r)) ∧
    Process.warning r ≠ None ∧ Process.needsTranscript r = true ∧
    documents Examples.empty_db !! Process.id r = None).
  { eexists _, _. split; [vm_compute; left|]. repeat split; try reflexivity. discriminate. }
  destruct Hshown as (d & r & Hd & Hid & Hdone & Hresult & Hwarning & Hneeds & Hfree).
  exact (proj1 (@unsaved_video_keeps_placeholder Examples.platform _ _ _ _ _ d r
                  Hd Hid Hdone Hresult Hwarning Hneeds Hfree)).
Defined.

End HomeFacts.
